(** * EchoInTrack: the SLA deadline engine, the request store and the
    statistics queries of [src/v10/app.py], embedded and verified.

    Conventions of the embedding.
    - A calendar date ([datetime.date]) is its day number: days since
      1970-01-01 in the proleptic Gregorian calendar.
    - A [datetime] is its wall-clock reading in whole seconds since
      1970-01-01T00:00:00 of its own calendar, plus an optional UTC offset
      ([tzinfo]); [None] is a naive datetime.  Python's range limits
      (years 1..9999) and the sub-second part are not modelled.
    - A table is the list of its rows in insertion order; SQL [NULL] is
      [None]; SQL truth values are three-valued. *)

From Stdlib Require Import ZArith Lia String Ascii.
From Stdlib Require Import DecimalString DecimalN.
From Stdlib Require OrderedTypeEx.
From stdpp Require Import base option list gmap sorting.

Local Open Scope Z_scope.
#[local] Set Warnings "-clear-no-such-hyp".

(** ** Calendar arithmetic ([datetime.date]) *)

Module Calendar.

Definition date := Z.

(** [date(y, m, d)] as a day number. *)
Definition days_from_civil (y m d : Z) : date :=
  let y' := if m <=? 2 then y - 1 else y in
  let era := y' / 400 in
  let yoe := y' - era * 400 in
  let mp := if m >? 2 then m - 3 else m + 9 in
  let doy := (153 * mp + 2) / 5 + d - 1 in
  let doe := yoe * 365 + yoe / 4 - yoe / 100 + doy in
  era * 146097 + doe - 719468.

(** [d.year] *)
Definition year_of (z : date) : Z :=
  let z' := z + 719468 in
  let era := z' / 146097 in
  let doe := z' - era * 146097 in
  let yoe := (doe - doe / 1460 + doe / 36524 - doe / 146096) / 365 in
  let doy := doe - (365 * yoe + yoe / 4 - yoe / 100) in
  let mp := (5 * doy + 2) / 153 in
  let m := if mp <? 10 then mp + 3 else mp - 9 in
  yoe + era * 400 + (if m <=? 2 then 1 else 0).

(** [d.weekday()]: Monday is 0, Sunday is 6; 1970-01-01 was a Thursday. *)
Definition weekday (d : date) : Z := (d + 3) mod 7.

(** The last Sunday of month [m] (a 31-day month) of year [y]. *)
Definition last_sunday (y m : Z) : date :=
  let d31 := days_from_civil y m 31 in
  d31 - (weekday d31 + 1) mod 7.

(** The first Sunday on or after day [d] of month [m] of year [y]. *)
Definition sunday_from (y m d : Z) : date :=
  let d0 := days_from_civil y m d in
  d0 + (6 - weekday d0) mod 7.

End Calendar.

(** ** Datetimes and time zones ([datetime.datetime], [pytz]) *)

Record datetime := DateTime {
  wall : Z;               (* seconds since 1970-01-01T00:00:00, as read on the clock *)
  tzinfo : option Z       (* UTC offset in seconds; None for a naive datetime *)
}.

Global Instance datetime_eq_dec : EqDecision datetime.
Proof. solve_decision. Defined.

Definition HOUR : Z := 3600.
Definition DAY : Z := 86400.

(** [dt.date()] *)
Definition date_of (dt : datetime) : Calendar.date := wall dt / DAY.

(** [dt + timedelta(hours=n)]: arithmetic on the wall clock, [tzinfo] kept. *)
Definition add_hours (dt : datetime) (n : Z) : datetime :=
  {| wall := wall dt + n * HOUR; tzinfo := tzinfo dt |}.

(** The instant an aware datetime denotes, in seconds since the epoch, UTC.
    A naive datetime is read as UTC, which is what SQLite does with a
    time string that has no offset. *)
Definition utc_instant (dt : datetime) : Z :=
  wall dt - default 0 (tzinfo dt).

(** Python's [==] on datetimes: aware values are equal when they denote the
    same instant, naive values when they read the same, and a naive value
    never equals an aware one. *)
Definition datetime_eqb (a b : datetime) : bool :=
  match tzinfo a, tzinfo b with
  | Some _, Some _ => utc_instant a =? utc_instant b
  | None, None => wall a =? wall b
  | _, _ => false
  end.

(** [pytz.timezone('Europe/London')]: the transitions of pytz's table from
    1972 to its last entry, in 2037.  British Summer Time (UTC+1) runs
    - 1972 to 1980: from 02:00 UTC on the first Sunday from 16 March to
      02:00 UTC on the first Sunday from 23 October;
    - 1981 to 1995: from 01:00 UTC on the last Sunday of March to 01:00 UTC
      on the first Sunday from 23 October (from 22 October as of 1990);
    - 1996 to 2037: from 01:00 UTC on the last Sunday of March to 01:00 UTC
      on the last Sunday of October.
    After October 2037 the table has no entry and pytz stays on GMT.
    Before 1972 pytz follows the historical table (summer time all year
    from 1968 to 1971, double summer time in the 1940s, local mean time at
    the start), which is not modelled: the offset given there is GMT. *)
Module EuropeLondon.

Definition in_table (y : Z) : bool := (1972 <=? y) && (y <=? 2037).

Definition bst_start (y : Z) : Z :=
  if y <? 1981 then Calendar.sunday_from y 3 16 * DAY + 2 * HOUR
  else Calendar.last_sunday y 3 * DAY + HOUR.

Definition bst_end (y : Z) : Z :=
  if y <? 1981 then Calendar.sunday_from y 10 23 * DAY + 2 * HOUR
  else if y <? 1990 then Calendar.sunday_from y 10 23 * DAY + HOUR
  else if y <? 1996 then Calendar.sunday_from y 10 22 * DAY + HOUR
  else Calendar.last_sunday y 10 * DAY + HOUR.

(** UTC offset in force at the UTC instant [u]. *)
Definition utcoffset_at (u : Z) : Z :=
  let y := Calendar.year_of (u / DAY) in
  if in_table y && (bst_start y <=? u) && (u <? bst_end y) then HOUR else 0.

(** UTC offset [localize] (with its default [is_dst=False]) gives the wall
    clock reading [w]: summer time where only summer time has that
    reading, standard time otherwise (also in the repeated hour of
    autumn and the skipped hour of spring). *)
Definition utcoffset_of_wall (w : Z) : Z :=
  let y := Calendar.year_of (w / DAY) in
  if in_table y && (bst_start y + HOUR <=? w) && (w <? bst_end y)
  then HOUR else 0.

(** [tz.localize(dt)] for a naive [dt]. *)
Definition localize (dt : datetime) : datetime :=
  {| wall := wall dt; tzinfo := Some (utcoffset_of_wall (wall dt)) |}.

(** [dt.astimezone(tz)] for an aware [dt]. *)
Definition astimezone (dt : datetime) : datetime :=
  let u := utc_instant dt in
  let off := utcoffset_at u in
  {| wall := u + off; tzinfo := Some off |}.

End EuropeLondon.

Module UTC.
(** [pytz.UTC.localize(dt)] *)
Definition localize (dt : datetime) : datetime :=
  {| wall := wall dt; tzinfo := Some 0 |}.
End UTC.

(** ** Weekend / bank holiday check *)

(** [UK_BANK_HOLIDAYS] is a set of ISO date strings; a date is looked up by
    its [isoformat()], which names exactly one date, so the set is modelled
    as the set of the dates it names. *)
Definition is_weekend_or_bank_holiday (UK_BANK_HOLIDAYS : gset Z)
    (d : Calendar.date) : bool :=
  let weekday := Calendar.weekday d in
  ((weekday =? 5) || (weekday =? 6)) || bool_decide (d ∈ UK_BANK_HOLIDAYS).

(** ** Time utilities *)

Definition convert_to_uk_time (dt : option datetime) : option datetime :=
  match dt with
  | None => None
  | Some dt =>
      let dt := match tzinfo dt with
                | None => UTC.localize dt
                | Some _ => dt
                end in
      Some (EuropeLondon.astimezone dt)
  end.

(** [uk_time_to_iso]: the value whose [isoformat()] is stored. *)
Definition uk_time_to_iso (dt : option datetime) : option datetime :=
  match dt with
  | None => None
  | Some d =>
      match tzinfo d with
      | Some _ => convert_to_uk_time (Some d)
      | None => Some (EuropeLondon.localize d)
      end
  end.

(** [iso_to_uk_time]: the argument is what [datetime.fromisoformat] makes of
    the string, [None] when the string is empty or does not parse. *)
Definition iso_to_uk_time (parsed : option datetime) : option datetime :=
  match parsed with
  | None => None
  | Some dt => convert_to_uk_time (Some dt)
  end.

(** [get_uk_time()] when the clock shows the UTC instant [now_utc]. *)
Definition get_uk_time (now_utc : Z) : datetime :=
  EuropeLondon.astimezone {| wall := now_utc; tzinfo := Some 0 |}.

(** The [while] loop of [add_working_hours_uk]; [fuel] bounds the number of
    times the body runs, [None] means the bound was reached. *)
Fixpoint working_hours_loop (holidays : gset Z) (fuel : nat)
    (current_date : datetime) (remaining_hours : Z) : option datetime :=
  if remaining_hours >? 0 then
    match fuel with
    | O => None
    | S fuel =>
        let current_date := add_hours current_date 1 in
        let day_obj := date_of current_date in
        if negb (is_weekend_or_bank_holiday holidays day_obj)
        then working_hours_loop holidays fuel current_date (remaining_hours - 1)
        else working_hours_loop holidays fuel current_date remaining_hours
    end
  else Some current_date.

(** A bound on the number of iterations of the loop.  Every step either
    consumes a working hour, or moves through a weekend (at most 48 steps),
    or moves towards the end of the last configured holiday. *)
Module LoopBound.

(** Hours from [c] to the end of the latest holiday of [hs] still ahead,
    rounded up. *)
Fixpoint holiday_horizon (hs : list Z) (c : Z) : Z :=
  match hs with
  | [] => 0
  | d :: hs =>
      Z.max (Z.max 0 (((d + 1) * DAY - c + (HOUR - 1)) / HOUR))
            (holiday_horizon hs c)
  end.

(** Steps from [c] that land on the weekend the next step falls into. *)
Definition weekend_steps (c : Z) : Z :=
  let t := c + HOUR in
  let wd := Calendar.weekday (t / DAY) in
  if wd =? 5 then (2 * DAY - t mod DAY + (HOUR - 1)) / HOUR
  else if wd =? 6 then (DAY - t mod DAY + (HOUR - 1)) / HOUR
  else 0.

Definition measure (holidays : gset Z) (c : Z) (remaining_hours : Z) : Z :=
  49 * remaining_hours + weekend_steps c
  + 50 * holiday_horizon (elements holidays) c.

Definition fuel (holidays : gset Z) (current_date : datetime)
    (remaining_hours : Z) : nat :=
  Z.to_nat (measure holidays (wall current_date) remaining_hours).

End LoopBound.

(** [if not start_date.tzinfo: start_date = tz.localize(start_date)] *)
Definition tag_if_naive (start_date : datetime) : datetime :=
  match tzinfo start_date with
  | None => EuropeLondon.localize start_date
  | Some _ => start_date
  end.

(** [add_working_hours_uk]: the loop is run with [LoopBound.fuel], which
    [working_hours_loop_terminates] below shows is always enough, so the
    [None] branch is never taken. *)
Definition add_working_hours_uk (holidays : gset Z) (start_date : datetime)
    (hours : Z) : datetime :=
  let start_date := tag_if_naive start_date in
  let current_date := start_date in
  let remaining_hours := hours in
  default current_date
    (working_hours_loop holidays
       (LoopBound.fuel holidays current_date remaining_hours)
       current_date remaining_hours).

(** ** The [echo_requests] table *)

Inductive Pathway := PURPLE | RED | AMBER | GREEN | REJECTED.
Inductive Status := pending | completed.

Global Instance Pathway_eq_dec : EqDecision Pathway.
Proof. solve_decision. Defined.
Global Instance Status_eq_dec : EqDecision Status.
Proof. solve_decision. Defined.

Definition pathway_text (p : Pathway) : string :=
  match p with
  | PURPLE => "PURPLE PATHWAY"
  | RED => "RED PATHWAY"
  | AMBER => "AMBER PATHWAY"
  | GREEN => "GREEN PATHWAY"
  | REJECTED => "REJECTED"
  end.

Definition valid_pathways : list Pathway := [PURPLE; RED; AMBER; GREEN; REJECTED].

(** [data['pathway'] not in valid_pathways]: the pathway a text names. *)
Definition pathway_of_text (s : string) : option Pathway :=
  List.find (fun p => String.eqb s (pathway_text p)) valid_pathways.

Record echo_request := EchoRequest {
  id : Z;                              (* INTEGER PRIMARY KEY AUTOINCREMENT *)
  request_id : string;                 (* TEXT NOT NULL *)
  pathway : Pathway;                   (* TEXT NOT NULL *)
  request_time : datetime;             (* TIMESTAMP NOT NULL *)
  expected_time : option datetime;     (* TIMESTAMP *)
  status : Status;                     (* TEXT DEFAULT 'pending' *)
  triage_date : Calendar.date;         (* DATE NOT NULL *)
  completion_time : option datetime;   (* TIMESTAMP *)
  notes : string;
  name : string;
  mrn : string;
  ward : string
}.

(** The database: the table and the counter SQLite keeps for AUTOINCREMENT
    (the largest row id ever handed out). *)
Record db := Db {
  echo_requests : list echo_request;
  sqlite_sequence : Z
}.

Definition empty_db : db := {| echo_requests := []; sqlite_sequence := 0 |}.

(** A JSON response: HTTP status code and the object's fields. *)
Record response := Response {
  status_code : Z;
  body : list (string * string)
}.

Definition json_error (code : Z) (msg : string) : response :=
  {| status_code := code; body := [("error"%string, msg)] |}.
Definition json_success : response :=
  {| status_code := 200; body := [("status"%string, "success"%string)] |}.

(** ** Request identifiers ['YY.NNNN'] *)

Module Text.

(** [str(n)] for an integer. *)
Definition str (n : Z) : string := NilZero.string_of_int (Z.to_int n).

(** [int(s)]; [None] stands for [ValueError].  Blanks, underscores and a
    leading [+], which Python also accepts, are not recognised. *)
Definition int (s : string) : option Z :=
  Z.of_int <$> NilZero.int_of_string s.

Fixpoint zeros (n : nat) : string :=
  match n with
  | O => EmptyString
  | S n => String "0" (zeros n)
  end.

(** [s.zfill(width)] *)
Definition zfill (width : nat) (s : string) : string :=
  let pad := zeros (width - String.length s) in
  match s with
  | String c rest =>
      if (Ascii.eqb c "+" || Ascii.eqb c "-")%bool
      then String c (pad ++ rest)
      else (pad ++ s)
  | EmptyString => pad
  end%string.

(** [s.split(sep)] for a one-character separator. *)
Fixpoint split (sep : ascii) (s : string) : list string :=
  match s with
  | EmptyString => [EmptyString]
  | String c rest =>
      if Ascii.eqb c sep then EmptyString :: split sep rest
      else match split sep rest with
           | [] => [String c EmptyString]
           | p :: ps => String c p :: ps
           end
  end.

(** SQL [CAST(s AS INTEGER)]: the value of the longest prefix of [s] that
    reads as an integer, 0 when there is none. *)
Fixpoint digits_prefix (s : string) : string :=
  match s with
  | String c rest =>
      if (Ascii.leb "0" c && Ascii.leb c "9")%bool
      then String c (digits_prefix rest) else EmptyString
  | EmptyString => EmptyString
  end.

Definition cast_integer (s : string) : Z :=
  match s with
  | String "-" rest => - default 0 (int (digits_prefix rest))
  | String "+" rest => default 0 (int (digits_prefix rest))
  | _ => default 0 (int (digits_prefix s))
  end.

(** [ORDER BY col DESC LIMIT 1] over text: the greatest string in byte
    order, [None] when there is no row. *)
Fixpoint greatest (l : list string) : option string :=
  match l with
  | [] => None
  | s :: l =>
      match greatest l with
      | None => Some s
      | Some m => if String.ltb s m then Some m else Some s
      end
  end.

End Text.

(** [f"{current_year}.{str(seq).zfill(4)}"] *)
Definition format_request_id (current_year seq : Z) : string :=
  (Text.str current_year ++ "." ++ Text.zfill 4 (Text.str seq))%string.

(** [request_id LIKE 'YY.%'] *)
Definition like_year (current_year : Z) (rid : string) : bool :=
  String.prefix (Text.str current_year ++ ".") rid.

(** [get_next_request_id], with [now] the value of [datetime.now()];
    [None] stands for the exception ([IndexError] or [ValueError]) raised on
    a stored identifier that does not have the expected shape. *)
Definition get_next_request_id (now : datetime) (rows : list echo_request)
    : option string :=
  let current_year := Calendar.year_of (date_of now) mod 100 in
  let row :=
    Text.greatest
      (List.filter (like_year current_year) (request_id <$> rows)) in
  match row with
  | None => Some (format_request_id current_year 1)
  | Some last_request_id =>
      let parts := Text.split "." last_request_id in
      last_seq_text ← parts !! 1%nat;
      last_seq ← Text.int last_seq_text;
      let new_seq := last_seq + 1 in
      Some (format_request_id current_year new_seq)
  end.

(** ** Request handlers that write *)

(** What the two clocks read when a handler runs: [datetime.now()] (naive,
    in the server's zone) and the instant, from which [get_uk_time()] is
    taken. *)
Record clock := Clock {
  local_now : datetime;
  utc_now : Z
}.

(** The value of [request.json] in a handler, its first statement inside
    [try]: [JsonRaises] when Flask raises (a body that is not JSON or does
    not parse), which the handler's [except Exception] answers with 500;
    otherwise the parsed body, [None] when it is [null] or an empty object
    (or, for the handlers that read ['id'], has no such key).  An
    [option] is read as a parsed body. *)
Inductive request_json (A : Type) : Type :=
  | JsonRaises
  | Json (data : option A).
Global Arguments JsonRaises {A}.
Global Arguments Json {A} data.
Coercion Json : option >-> request_json.

(** The JSON body of [/api/add_request]: a field is [None] when the key is
    missing; [json_request_time] holds what [datetime.fromisoformat] makes
    of the string, [None] when it is empty or does not parse. *)
Record add_request_json := AddRequestJson {
  json_pathway : option string;
  json_request_time : option (option datetime);
  json_name : option string;
  json_mrn : option string;
  json_ward : option string
}.

Definition pathway_hours (p : Pathway) : Z :=
  match p with
  | PURPLE => 1
  | RED => 24
  | AMBER => 72
  | GREEN | REJECTED => 0
  end.

Definition insert_row (r : echo_request) (d : db) : db :=
  {| echo_requests := echo_requests d ++ [r]; sqlite_sequence := id r |}.

Definition add_request (holidays : gset Z) (clk : clock)
    (data : request_json add_request_json) (d : db) : response * db :=
  match data with
  | JsonRaises => (json_error 500 "Failed to add request", d)
  | Json (Some (AddRequestJson (Some pathway_field) (Some request_time_field)
                  name_field mrn_field ward_field)) =>
      match pathway_of_text pathway_field with
      | None => (json_error 400 "Invalid pathway", d)
      | Some data_pathway =>
          match get_next_request_id (local_now clk) (echo_requests d) with
          | None => (json_error 500 "Failed to add request", d)
          | Some request_id =>
              let current_time := get_uk_time (utc_now clk) in
              let triage_date := date_of current_time in
              match iso_to_uk_time request_time_field with
              | None => (json_error 400 "Invalid request_time format", d)
              | Some request_time =>
                  let expected_time :=
                    match data_pathway with
                    | PURPLE => add_working_hours_uk holidays request_time 1
                    | RED => add_working_hours_uk holidays request_time 24
                    | AMBER => add_working_hours_uk holidays request_time 72
                    | _ => request_time
                    end in
                  let name_val := default ""%string name_field in
                  let mrn_val := default ""%string mrn_field in
                  let ward_val := default ""%string ward_field in
                  match uk_time_to_iso (Some request_time) with
                  | None => (json_error 500 "Failed to add request", d)
                  | Some stored_request_time =>
                      let r :=
                        {| id := sqlite_sequence d + 1;
                           request_id := request_id;
                           pathway := data_pathway;
                           request_time := stored_request_time;
                           expected_time := uk_time_to_iso (Some expected_time);
                           status := pending;
                           triage_date := triage_date;
                           completion_time := None;
                           notes := "";
                           name := name_val;
                           mrn := mrn_val;
                           ward := ward_val |} in
                      ({| status_code := 200;
                          body := [("request_id"%string, request_id)] |},
                       insert_row r d)
                  end
              end
          end
      end
  | _ => (json_error 400 "Invalid request data. Missing required fields.", d)
  end.

(** [UPDATE echo_requests SET ... WHERE id = ?] *)
Definition update_where_id (set : echo_request → echo_request) (rid : Z)
    (d : db) : db :=
  {| echo_requests :=
       (fun r => if id r =? rid then set r else r) <$> echo_requests d;
     sqlite_sequence := sqlite_sequence d |}.

(** [DELETE FROM echo_requests WHERE id = ?] *)
Definition delete_where_id (rid : Z) (d : db) : db :=
  {| echo_requests := List.filter (fun r => negb (id r =? rid)) (echo_requests d);
     sqlite_sequence := sqlite_sequence d |}.

Definition set_status (s : Status) (ct : option datetime) (r : echo_request)
    : echo_request :=
  {| id := id r; request_id := request_id r; pathway := pathway r;
     request_time := request_time r; expected_time := expected_time r;
     status := s; triage_date := triage_date r; completion_time := ct;
     notes := notes r; name := name r; mrn := mrn r; ward := ward r |}.

Definition set_notes (v : string) (r : echo_request) : echo_request :=
  {| id := id r; request_id := request_id r; pathway := pathway r;
     request_time := request_time r; expected_time := expected_time r;
     status := status r; triage_date := triage_date r;
     completion_time := completion_time r;
     notes := v; name := name r; mrn := mrn r; ward := ward r |}.

Definition set_name (v : string) (r : echo_request) : echo_request :=
  {| id := id r; request_id := request_id r; pathway := pathway r;
     request_time := request_time r; expected_time := expected_time r;
     status := status r; triage_date := triage_date r;
     completion_time := completion_time r;
     notes := notes r; name := v; mrn := mrn r; ward := ward r |}.

Definition set_mrn (v : string) (r : echo_request) : echo_request :=
  {| id := id r; request_id := request_id r; pathway := pathway r;
     request_time := request_time r; expected_time := expected_time r;
     status := status r; triage_date := triage_date r;
     completion_time := completion_time r;
     notes := notes r; name := name r; mrn := v; ward := ward r |}.

Definition set_ward (v : string) (r : echo_request) : echo_request :=
  {| id := id r; request_id := request_id r; pathway := pathway r;
     request_time := request_time r; expected_time := expected_time r;
     status := status r; triage_date := triage_date r;
     completion_time := completion_time r;
     notes := notes r; name := name r; mrn := mrn r; ward := v |}.

Definition missing_id : response :=
  json_error 400 "Invalid request data. Missing id.".

(** The handlers below take [request.json] reduced to its ['id'] field:
    [Json None] when the body is empty or has no such field. *)
Definition mark_completed (clk : clock) (data : request_json Z) (d : db)
    : response * db :=
  match data with
  | JsonRaises => (json_error 500 "Failed to mark request as completed", d)
  | Json None => (missing_id, d)
  | Json (Some request_id) =>
      let completion_time := get_uk_time (utc_now clk) in
      (json_success,
       update_where_id (set_status completed (Some completion_time)) request_id d)
  end.

Definition delete_request (data : request_json Z) (d : db) : response * db :=
  match data with
  | JsonRaises => (json_error 500 "Failed to delete request", d)
  | Json None => (missing_id, d)
  | Json (Some request_id) => (json_success, delete_where_id request_id d)
  end.

Definition undo_completed (data : request_json Z) (d : db) : response * db :=
  match data with
  | JsonRaises => (json_error 500 "Failed to undo completion", d)
  | Json None => (missing_id, d)
  | Json (Some request_id) =>
      (json_success, update_where_id (set_status pending None) request_id d)
  end.

(** [update_notes], [update_name], [update_mrn], [update_ward]: [field] is
    the name of the column, [failed] the message of the [except] clause,
    [set] the setter, [value] the JSON field of that name when present. *)
Definition update_field (field failed : string)
    (set : string → echo_request → echo_request)
    (data : request_json Z) (value : option string) (d : db) : response * db :=
  match data with
  | JsonRaises => (json_error 500 failed, d)
  | Json None => (missing_id, d)
  | Json (Some request_id) =>
      let new_value := default ""%string value in
      ({| status_code := 200;
          body := [("status"%string, "success"%string); (field, new_value)] |},
       update_where_id (set new_value) request_id d)
  end.

Definition update_notes :=
  update_field "notes" "Failed to update notes" set_notes.
Definition update_name :=
  update_field "name" "Failed to update name" set_name.
Definition update_mrn :=
  update_field "mrn" "Failed to update MRN" set_mrn.
Definition update_ward :=
  update_field "ward" "Failed to update ward" set_ward.

(** One request to the service, and a run of requests. *)
Inductive operation :=
  | AddRequest (clk : clock) (data : request_json add_request_json)
  | MarkCompleted (clk : clock) (data : request_json Z)
  | UndoCompleted (data : request_json Z)
  | DeleteRequest (data : request_json Z)
  | UpdateNotes (data : request_json Z) (value : option string)
  | UpdateName (data : request_json Z) (value : option string)
  | UpdateMrn (data : request_json Z) (value : option string)
  | UpdateWard (data : request_json Z) (value : option string).

Definition handle (holidays : gset Z) (op : operation) (d : db)
    : response * db :=
  match op with
  | AddRequest clk data => add_request holidays clk data d
  | MarkCompleted clk data => mark_completed clk data d
  | UndoCompleted data => undo_completed data d
  | DeleteRequest data => delete_request data d
  | UpdateNotes data v => update_notes data v d
  | UpdateName data v => update_name data v d
  | UpdateMrn data v => update_mrn data v d
  | UpdateWard data v => update_ward data v d
  end.

Fixpoint run (holidays : gset Z) (ops : list operation) (d : db)
    : list response * db :=
  match ops with
  | [] => ([], d)
  | op :: ops =>
      let '(resp, d) := handle holidays op d in
      let '(resps, d) := run holidays ops d in
      (resp :: resps, d)
  end.

(** ** The queries *)

Module Sql.

(** SQL truth values: [None] is NULL (unknown). *)
Definition truth := option bool.

Definition and (a b : truth) : truth :=
  match a, b with
  | Some false, _ | _, Some false => Some false
  | Some true, Some true => Some true
  | _, _ => None
  end.

Definition or (a b : truth) : truth :=
  match a, b with
  | Some true, _ | _, Some true => Some true
  | Some false, Some false => Some false
  | _, _ => None
  end.

Definition lt (a b : option Z) : truth := x ← a; y ← b; Some (x <? y).
Definition le (a b : option Z) : truth := x ← a; y ← b; Some (x <=? y).
Definition gt (a b : option Z) : truth := lt b a.
Definition ge (a b : option Z) : truth := le b a.

(** A row passes [ON] or [WHERE] only when the condition is TRUE. *)
Definition holds (t : truth) : bool :=
  match t with Some true => true | _ => false end.

(** [datetime(col)] of a stored ISO time: its UTC reading, in seconds.
    SQLite converts the stored offset to UTC and drops the fraction of a
    second. *)
Definition datetime (t : option datetime) : option Z := utc_instant <$> t.

(** [datetime(dates.date)] and [datetime(dates.date, '+1 day')]: a date
    has no offset, so SQLite reads it as 00:00:00 UTC of that date. *)
Definition datetime_of_date (d : Calendar.date) : option Z := Some (d * DAY).
Definition datetime_plus_1_day (d : Calendar.date) : option Z :=
  Some ((d + 1) * DAY).

(** The recursive table [dates]: [first], then one day more for as long
    as the last date is before [last]. *)
Fixpoint dates_from (n : nat) (d last : Calendar.date) : list Calendar.date :=
  d :: match n with
       | O => []
       | S n => if d <? last then dates_from n (d + 1) last else []
       end.

Definition dates (first last : Calendar.date) : list Calendar.date :=
  dates_from (Z.to_nat (last - first)) first last.

End Sql.

Definition not_in_green_rejected (p : Pathway) : bool :=
  negb (bool_decide (p ∈ [GREEN; REJECTED])).

(** The [ON] condition of the join in [get_daily_overdue]. *)
Definition overdue_on (date : Calendar.date) (r : echo_request) : Sql.truth :=
  Sql.and (Some (not_in_green_rejected (pathway r)))
 (Sql.and (Sql.lt (Sql.datetime (expected_time r)) (Sql.datetime_plus_1_day date))
 (Sql.and (Sql.le (Sql.datetime (Some (request_time r))) (Sql.datetime_plus_1_day date))
   (Sql.or (Some (bool_decide (status r = pending)))
   (Sql.or
      (Sql.and (Some (bool_decide (status r = completed)))
               (Sql.gt (Sql.datetime (completion_time r)) (Sql.datetime_of_date date)))
      (Sql.and (Some (bool_decide (status r = completed)))
      (Sql.and (Sql.ge (Sql.datetime (completion_time r)) (Sql.datetime_of_date date))
      (Sql.and (Sql.lt (Sql.datetime (completion_time r)) (Sql.datetime_plus_1_day date))
               (Sql.gt (Sql.datetime (completion_time r))
                       (Sql.datetime (expected_time r)))))))))).

(** [COUNT(DISTINCT r.id)] over the rows joined to [date]. *)
Definition overdue_count (rows : list echo_request) (date : Calendar.date) : nat :=
  length (remove_dups
            (id <$> List.filter (fun r => Sql.holds (overdue_on date r)) rows)).

(** [get_daily_overdue], with [now] the value of [datetime.now()]: the
    counts per day, in date order. *)
Definition get_daily_overdue (now : datetime) (rows : list echo_request)
    : list (Calendar.date * nat) :=
  let end_date := date_of now in
  let start_date := end_date - 30 in
  (fun the_date => (the_date, overdue_count rows the_date))
    <$> Sql.dates start_date end_date.

(** *** [get_requests] and its [ORDER BY] *)

(** The values the ordering terms take.  A difference of [julianday]s is
    kept as the difference of the instants in seconds, which orders the
    same way; a stored time is compared as the text of its ISO form. *)
Inductive sqlvalue :=
  | SqlNull
  | SqlNumber (n : Z)
  | SqlIsoText (t : datetime).

Definition julianday (t : option datetime) : option Z := utc_instant <$> t.

(** The column [time_left] of [ordered_requests]. *)
Definition time_left (now : datetime) (r : echo_request) : sqlvalue :=
  if bool_decide (status r = pending) && negb (bool_decide (pathway r ∈ [GREEN]))
  then match julianday (expected_time r), julianday (Some now) with
       | Some e, Some n => SqlNumber (e - n)
       | _, _ => SqlNull
       end
  else SqlNull.

Definition text_value (t : option datetime) : sqlvalue :=
  match t with Some t => SqlIsoText t | None => SqlNull end.

(** The three terms of [ORDER BY]. *)
Definition order_term_1 (r : echo_request) : Z :=
  if bool_decide (status r = completed) then 3
  else if bool_decide (pathway r ∈ [GREEN; REJECTED]) then 2
  else 1.

Definition order_term_2 (now : datetime) (r : echo_request) : sqlvalue :=
  if bool_decide (status r = completed) then SqlNull
  else if bool_decide (pathway r ∈ [GREEN; REJECTED]) then SqlNull
  else time_left now r.

Definition order_term_3 (r : echo_request) : sqlvalue :=
  if bool_decide (status r = completed) then text_value (completion_time r)
  else if bool_decide (pathway r ∈ [GREEN; REJECTED])
       then SqlNumber (Text.cast_integer (request_id r))
       else SqlNull.

(** SQLite's order on values, as a key compared entry by entry: NULL, then
    numbers, then text.  The text ['YYYY-MM-DDTHH:MM:SS+HH:MM'] orders by
    the wall clock reading, then by its suffix: none, [+HH:MM], [-HH:MM]. *)
Definition rank (v : sqlvalue) : list Z :=
  match v with
  | SqlNull => [0; 0; 0; 0]
  | SqlNumber n => [1; n; 0; 0]
  | SqlIsoText t =>
      match tzinfo t with
      | None => [2; wall t; 0; 0]
      | Some off => if off <? 0 then [2; wall t; 2; - off] else [2; wall t; 1; off]
      end
  end.

Definition is_null (v : sqlvalue) : bool :=
  match v with SqlNull => true | _ => false end.

(** [ASC NULLS LAST] and [DESC] (where NULL, the least value, comes last). *)
Definition asc_nulls_last (v : sqlvalue) : list Z :=
  (if is_null v then 1 else 0) :: rank v.
Definition desc (v : sqlvalue) : list Z := Z.opp <$> rank v.

Definition sort_key (now : datetime) (r : echo_request) : list Z :=
  order_term_1 r :: asc_nulls_last (order_term_2 now r) ++ desc (order_term_3 r).

Fixpoint lex_leb (k1 k2 : list Z) : bool :=
  match k1, k2 with
  | [], _ => true
  | _ :: _, [] => false
  | x :: k1, y :: k2 => (x <? y) || ((x =? y) && lex_leb k1 k2)
  end.

(** [a] may come before [b] in the result. *)
Definition order_by (now : datetime) (a b : echo_request) : Prop :=
  lex_leb (sort_key now a) (sort_key now b) = true.

Global Instance order_by_dec now : RelDecision (order_by now).
Proof. intros a b. unfold order_by. apply _. Defined.

(** The rows in the order of the query.  SQL leaves the order of rows that
    agree on all three terms open; [merge_sort] fixes one such order. *)
Definition ordered_requests (now : datetime) (rows : list echo_request)
    : list echo_request :=
  merge_sort (order_by now) rows.

(** [CASE WHEN pathway = 'REJECTED' THEN 'GREEN PATHWAY' ELSE pathway END] *)
Definition displayed (r : echo_request) : echo_request :=
  {| id := id r; request_id := request_id r;
     pathway := if bool_decide (pathway r = REJECTED) then GREEN else pathway r;
     request_time := request_time r; expected_time := expected_time r;
     status := status r; triage_date := triage_date r;
     completion_time := completion_time r;
     notes := notes r; name := name r; mrn := mrn r; ward := ward r |}.

(** [get_requests], with [now] the value of [datetime.now()]. *)
Definition get_requests (now : datetime) (rows : list echo_request)
    : list echo_request :=
  displayed <$> ordered_requests now rows.

(** *** [get_overdue_count] *)

(** The [WHERE] condition, with [now] the value of [datetime.now()]. *)
Definition currently_overdue (now : datetime) (r : echo_request) : Sql.truth :=
  Sql.and (Some (bool_decide (status r = pending)))
 (Sql.and (Some (not_in_green_rejected (pathway r)))
 (Sql.and (Sql.lt (Sql.datetime (expected_time r)) (Sql.datetime (Some now)))
          (Sql.le (Sql.datetime (Some (request_time r)))
                  (Sql.datetime (Some now))))).

Definition get_overdue_count (now : datetime) (rows : list echo_request) : nat :=
  length (List.filter (fun r => Sql.holds (currently_overdue now r)) rows).

(** *** [get_daily_max_pending] *)

(** The [ON] condition of the join. *)
Definition pending_on (date : Calendar.date) (r : echo_request) : Sql.truth :=
  Sql.and (Some (not_in_green_rejected (pathway r)))
 (Sql.and (Sql.le (Sql.datetime (Some (request_time r)))
                  (Sql.datetime_plus_1_day date))
          (Sql.or (Some (bool_decide (status r = pending)))
                  (Sql.ge (Sql.datetime (completion_time r))
                          (Sql.datetime_of_date date)))).

Definition pending_count (rows : list echo_request) (date : Calendar.date) : nat :=
  length (remove_dups
            (id <$> List.filter (fun r => Sql.holds (pending_on date r)) rows)).

Definition get_daily_max_pending (now : datetime) (rows : list echo_request)
    : list (Calendar.date * nat) :=
  let end_date := date_of now in
  let start_date := end_date - 30 in
  (fun the_date => (the_date, pending_count rows the_date))
    <$> Sql.dates start_date end_date.

(** *** [get_daily_stats] *)

(** [SELECT key, COUNT( * ) ... GROUP BY key]: one result row per key that
    occurs, with the number of its occurrences. *)
Definition group_count `{EqDecision K} (keys : list K) : list (K * nat) :=
  (fun k => (k, length (filter (k =.) keys))) <$> remove_dups keys.

(** SQL [a = b] on values that may be NULL. *)
Definition sql_eq (a b : option Z) : Sql.truth :=
  x ← a; y ← b; Some (x =? y).

(** [date(col)] of a stored ISO time: the date of its UTC reading. *)
Definition sql_date (t : option datetime) : option Calendar.date :=
  (fun t => utc_instant t / DAY) <$> t.

(** [while current_date <= end_date: ...; current_date += timedelta(days=1)]:
    the dates the loop visits; [n] bounds their number. *)
Fixpoint days_until (n : nat) (current_date end_date : Calendar.date)
    : list Calendar.date :=
  if current_date <=? end_date then
    match n with
    | O => []
    | S n => current_date :: days_until n (current_date + 1) end_date
    end
  else [].

Definition zero_counts : gmap string nat :=
  <["PURPLE PATHWAY"%string := 0%nat]>
 (<["RED PATHWAY"%string := 0%nat]>
 (<["AMBER PATHWAY"%string := 0%nat]>
 (<["GREEN PATHWAY"%string := 0%nat]>
 (<["REJECTED"%string := 0%nat]>
 (<["PERFORMED"%string := 0%nat]> ∅))))).

(** [if date_str in stats: stats[date_str][key] = count] *)
Definition set_count (date : Calendar.date) (key : string) (count : nat)
    (stats : gmap Z (gmap string nat)) : gmap Z (gmap string nat) :=
  alter (insert key count) date stats.

(** [get_daily_stats], with [now_utc] the instant at which [get_uk_time()]
    is read: for each day of the window, the count per key. *)
Definition get_daily_stats (now_utc : Z) (rows : list echo_request)
    : gmap Z (gmap string nat) :=
  let uk_now := get_uk_time now_utc in
  let end_date := date_of uk_now in
  let start_date := end_date - 30 in
  let pathway_results :=
    group_count
      ((fun r => (triage_date r, pathway r))
         <$> List.filter
               (fun r => (start_date <=? triage_date r)
                         && (triage_date r <=? end_date)) rows) in
  let completed_results :=
    group_count
      (omap (fun r => sql_date (completion_time r))
         (List.filter
            (fun r => Sql.holds
               (Sql.and (Some (bool_decide (status r = completed)))
               (Sql.and (Sql.ge (sql_date (completion_time r)) (Some start_date))
                        (Sql.le (sql_date (completion_time r)) (Some end_date)))))
            rows)) in
  let stats :=
    foldl (fun stats date_str => <[date_str := zero_counts]> stats) ∅
      (days_until (Z.to_nat (end_date - start_date + 1)) start_date end_date) in
  let stats :=
    foldl (fun stats '(date_str, pathway, count) =>
             set_count date_str (pathway_text pathway) count stats)
      stats pathway_results in
  foldl (fun stats '(date_str, count) =>
           set_count date_str "PERFORMED" count stats)
    stats completed_results.

(** *** [get_today_stats] *)

(** [get_today_stats]: [local_now clk] is the value of [datetime.now()],
    and SQLite's [DATE('now')] is the UTC date at [utc_now clk]. *)
Definition get_today_stats (clk : clock) (rows : list echo_request)
    : gmap string nat :=
  let now := local_now clk in
  let today := Some (utc_now clk / DAY) in
  let results :=
    group_count
      (pathway <$>
         List.filter
           (fun r => bool_decide (status r = pending)
                     && not_in_green_rejected (pathway r)) rows) in
  let completed_count :=
    length (List.filter
              (fun r => Sql.holds
                 (Sql.and (sql_eq (sql_date (completion_time r)) today)
                          (Some (bool_decide (status r = completed))))) rows) in
  let green_count :=
    length (List.filter
              (fun r => Sql.holds
                 (Sql.and
                    (Some (bool_decide (pathway r = GREEN ∨ pathway r = REJECTED)))
                    (sql_eq (sql_date (Some (request_time r))) today))) rows) in
  let overdue_count :=
    length (List.filter
              (fun r => Sql.holds
                 (Sql.and (Some (bool_decide (status r = pending)))
                 (Sql.and (Some (not_in_green_rejected (pathway r)))
                          (Sql.lt (Sql.datetime (expected_time r))
                                  (Sql.datetime (Some now)))))) rows) in
  let counts : gmap string nat :=
    <["PURPLE PATHWAY"%string := 0%nat]>
   (<["RED PATHWAY"%string := 0%nat]>
   (<["AMBER PATHWAY"%string := 0%nat]>
   (<["GREEN PATHWAY"%string := green_count]>
   (<["PERFORMED"%string := completed_count]>
   (<["OVERDUE"%string := overdue_count]> ∅))))) in
  foldl (fun counts '(pathway, count) =>
           <[pathway_text pathway := count]> counts)
    counts results.

(** *** [remove_old_backups] *)

(** An entry of [BACKUP_DIR]: its name, whether [os.path.isfile] holds of
    it, and its [os.path.getmtime] (a float in the source, of which only
    the order is used).  A directory is the list [os.listdir] returns. *)
Record dir_entry := DirEntry {
  fname : string;
  isfile : bool;
  getmtime : Z
}.

Definition is_backup (e : dir_entry) : bool :=
  String.prefix "BACKUP-ECHO-IN-TRACK-" (fname e) && isfile e.

Definition all_backups (dir : list dir_entry) : list (Z * string) :=
  (fun e => (getmtime e, fname e)) <$> List.filter is_backup dir.

(** [list.sort(key=lambda x: x[0], reverse=True)]: greatest key first,
    entries of equal key in the order they had. *)
Fixpoint insert_reverse (x : Z * string) (l : list (Z * string))
    : list (Z * string) :=
  match l with
  | [] => [x]
  | y :: l' => if y.1 <=? x.1 then x :: l else y :: insert_reverse x l'
  end.

Definition sort_reverse (l : list (Z * string)) : list (Z * string) :=
  foldr insert_reverse [] l.

(** The slice [l[m:]]: a negative [m] counts from the end. *)
Definition slice_from {A} (m : Z) (l : list A) : list A :=
  let n := Z.of_nat (length l) in
  let start := if m <? 0 then Z.max (n + m) 0 else Z.min m n in
  drop (Z.to_nat start) l.

Definition paths_to_delete (max_backups : Z) (dir : list dir_entry)
    : list string :=
  snd <$> slice_from max_backups (sort_reverse (all_backups dir)).

(** The directory after [os.remove] of each path. *)
Definition remove_old_backups (max_backups : Z) (dir : list dir_entry)
    : list dir_entry :=
  List.filter
    (fun e => negb (bool_decide (fname e ∈ paths_to_delete max_backups dir)))
    dir.

(** ** Auxiliary definitions for the statements *)

(** The row [add_request] inserts for pathway [p], identifier [rid] and
    normalised request time [rt]. *)
Definition new_row (holidays : gset Z) (clk : clock) (d : db) (p : Pathway)
    (rid : string) (rt : datetime) (nm mr wd : option string) : echo_request :=
  {| id := sqlite_sequence d + 1;
     request_id := rid;
     pathway := p;
     request_time := rt;
     expected_time :=
       Some (EuropeLondon.astimezone
               (add_working_hours_uk holidays rt (pathway_hours p)));
     status := pending;
     triage_date := date_of (get_uk_time (utc_now clk));
     completion_time := None;
     notes := "";
     name := default ""%string nm;
     mrn := default ""%string mr;
     ward := default ""%string wd |}.

(** The invariant of a row: [completion_time] is set exactly when the
    [status] is [completed]. *)
Definition completion_invariant (r : echo_request) : Prop :=
  is_Some (completion_time r) ↔ status r = completed.

(** [P] holds of the [n] integers from [i] on. *)
Fixpoint holds_from (P : Z → bool) (n : nat) (i : Z) : bool :=
  match n with
  | O => true
  | S n => P i && holds_from P n (i + 1)
  end.

(** The four-digit rendering of a sequence number. *)
Definition four_digits (n : Z) : string := Text.zfill 4 (Text.str n).

Fixpoint no_dot (s : string) : bool :=
  match s with
  | EmptyString => true
  | String c s => negb (Ascii.eqb c ".") && no_dot s
  end.

(** The identifiers of year [yy] in the table: the rows
    [get_next_request_id] selects. *)
Definition year_ids (yy : Z) (rows : list echo_request) : list string :=
  List.filter (like_year yy) (request_id <$> rows).

(** The identifier a response of [add_request] hands out. *)
Definition new_request_id (resp : response) : option string :=
  match body resp with
  | [(k, v)] => if String.eqb k "request_id" then Some v else None
  | _ => None
  end.

Definition handed_out (resps : list response) : list string :=
  omap new_request_id resps.

(** The request is made in a year that ends in [yy]. *)
Definition in_year (yy : Z) (op : operation) : Prop :=
  match op with
  | AddRequest clk _ =>
      Calendar.year_of (date_of (local_now clk)) mod 100 = yy
  | _ => True
  end.

(** No deletion of the run removes the row that holds the greatest
    identifier of year [yy] at that moment. *)
Fixpoint keeps_latest (holidays : gset Z) (yy : Z) (ops : list operation)
    (d : db) : Prop :=
  match ops with
  | [] => True
  | op :: ops =>
      match op with
      | DeleteRequest (Json (Some rid)) =>
          ∀ r, r ∈ echo_requests d → id r = rid →
               Text.greatest (year_ids yy (echo_requests d))
               ≠ Some (request_id r)
      | _ => True
      end
      ∧ keeps_latest holidays yy ops (handle holidays op d).2
  end.

(** The identifiers of year [yy] in the table are numbered within 1..[j],
    and number [j] is among them. *)
Definition numbered_up_to (yy j : Z) (d : db) : Prop :=
  (∀ s, s ∈ year_ids yy (echo_requests d) →
        ∃ n, 1 ≤ n ≤ j ∧ s = format_request_id yy n)
  ∧ (0 < j → format_request_id yy j ∈ year_ids yy (echo_requests d)).

(** The three classes of rows in the order of [get_requests]. *)
Definition active (r : echo_request) : Prop :=
  status r = pending ∧ pathway r ∉ [GREEN; REJECTED].
Definition pending_green (r : echo_request) : Prop :=
  status r = pending ∧ pathway r ∈ [GREEN; REJECTED].
Definition is_completed (r : echo_request) : Prop :=
  status r = completed.

Global Instance active_dec r : Decision (active r).
Proof. unfold active. apply _. Defined.
Global Instance pending_green_dec r : Decision (pending_green r).
Proof. unfold pending_green. apply _. Defined.
Global Instance is_completed_dec r : Decision (is_completed r).
Proof. unfold is_completed. apply _. Defined.

(** [a] is due no later than [b]: ascending [expected_time - now], a row
    without [expected_time] last. *)
Definition sooner_due (now : datetime) (a b : echo_request) : Prop :=
  match expected_time a, expected_time b with
  | Some ea, Some eb =>
      utc_instant ea - utc_instant now ≤ utc_instant eb - utc_instant now
  | _, None => True
  | None, Some _ => False
  end.

(** [a] was completed no earlier than [b], by the wall clock reading of the
    stored [completion_time]; a row without [completion_time] last. *)
Definition completed_later (a b : echo_request) : Prop :=
  match completion_time a, completion_time b with
  | Some ca, Some cb => wall cb ≤ wall ca
  | _, None => True
  | None, Some _ => False
  end.

(** What the specification says of the handlers, for comparison with what
    they do. *)
Module Spec.

(** Overdue as of day [date], as the specification words it: a timed
    pathway, deadline before the start of the next day, requested by then,
    and either pending now or completed strictly after the day began.  The
    day is taken as the query takes it, from 00:00:00 UTC. *)
Definition overdue_on (date : Calendar.date) (r : echo_request) : Prop :=
  (pathway r ∉ [GREEN; REJECTED])
  ∧ (∃ e, expected_time r = Some e ∧ utc_instant e < (date + 1) * DAY)
  ∧ utc_instant (request_time r) ≤ (date + 1) * DAY
  ∧ (status r = pending
     ∨ (status r = completed
        ∧ ∃ c, completion_time r = Some c ∧ date * DAY < utc_instant c)).

(** The tier of a row in [listRequests], as the specification words it:
    GREEN and REJECTED in tier 2 whatever the status. *)
Definition tier (r : echo_request) : Z :=
  if bool_decide (pathway r ∈ [GREEN; REJECTED]) then 2
  else if bool_decide (status r = pending) then 1
  else 3.


End Spec.

(** ** Auxiliary definitions for the further properties *)

(** The date of [c] is a working day. *)
Definition working (holidays : gset Z) (c : datetime) : bool :=
  negb (is_weekend_or_bank_holiday holidays (date_of c)).

(** How many of the first [k] hourly steps after [c] land on a working
    day. *)
Fixpoint working_steps (holidays : gset Z) (c : datetime) (k : nat) : Z :=
  match k with
  | O => 0
  | S k =>
      (if working holidays (add_hours c 1) then 1 else 0)
      + working_steps holidays (add_hours c 1) k
  end.

(** Row ids are pairwise distinct and none exceeds the AUTOINCREMENT
    counter. *)
Definition ids_fresh (d : db) : Prop :=
  NoDup (id <$> echo_requests d)
  ∧ Forall (λ r, id r ≤ sqlite_sequence d) (echo_requests d).

(** The columns set when a request is created and meant to stay. *)
Definition creation_fields (r : echo_request)
    : Z * string * Pathway * datetime * option datetime * Calendar.date :=
  (id r, request_id r, pathway r, request_time r, expected_time r,
   triage_date r).

(** The columns the statistics and the listing order read. *)
Definition sla_fields (r : echo_request)
    : Z * string * Pathway * datetime * option datetime * Status
      * Calendar.date * option datetime :=
  (id r, request_id r, pathway r, request_time r, expected_time r, status r,
   triage_date r, completion_time r).

(** The deadline of a row is at least its pathway's hours after its
    request time. *)
Definition deadline_ok (r : echo_request) : Prop :=
  ∃ e, expected_time r = Some e
       ∧ utc_instant (request_time r) + pathway_hours (pathway r) * HOUR
         ≤ utc_instant e.

(** Every row carries an identifier of year [yy] with a number from 1 to
    [b], and no two rows carry the same identifier. *)
Definition all_of_year (yy b : Z) (d : db) : Prop :=
  Forall (λ r, ∃ n, 1 ≤ n ≤ b ∧ request_id r = format_request_id yy n)
         (echo_requests d)
  ∧ NoDup (request_id <$> echo_requests d).

(** The request edits one of the descriptive fields. *)
Definition is_descriptive_update (op : operation) : Prop :=
  match op with
  | UpdateNotes _ _ | UpdateName _ _ | UpdateMrn _ _ | UpdateWard _ _ => True
  | _ => False
  end.

(** * Properties *)

(** ** The working-hours loop terminates *)

Section loop_termination.
Import LoopBound.

Lemma holiday_horizon_nonneg hs c : 0 ≤ holiday_horizon hs c.
Proof. induction hs as [|d hs IH]; simpl; lia. Qed.

Lemma holiday_horizon_bound hs c d :
  d ∈ hs → ((d + 1) * DAY - c + (HOUR - 1)) / HOUR ≤ holiday_horizon hs c.
Proof.
  induction 1 as [d hs|d d' hs _ IH]; simpl; lia.
Qed.

Lemma holiday_horizon_step hs c :
  holiday_horizon hs (c + HOUR) ≤ holiday_horizon hs c ∧
  (0 < holiday_horizon hs c →
   holiday_horizon hs (c + HOUR) < holiday_horizon hs c).
Proof.
  induction hs as [|d hs [IH1 IH2]]; simpl; [lia|].
  pose proof (holiday_horizon_nonneg hs (c + HOUR)).
  assert (((d + 1) * DAY - (c + HOUR) + (HOUR - 1)) / HOUR
          = ((d + 1) * DAY - c + (HOUR - 1)) / HOUR - 1) as ->.
  { unfold HOUR, DAY. Z.div_mod_to_equations. lia. }
  split; [lia|]. intros Hpos.
  destruct (decide (0 < holiday_horizon hs c)); lia.
Qed.

Lemma weekend_steps_range c : 0 ≤ weekend_steps c ≤ 48.
Proof.
  unfold weekend_steps, Calendar.weekday, HOUR, DAY.
  repeat case_match; Z.div_mod_to_equations; lia.
Qed.

Lemma weekend_steps_step c :
  let wd := Calendar.weekday ((c + HOUR) / DAY) in
  wd = 5 ∨ wd = 6 → weekend_steps (c + HOUR) < weekend_steps c.
Proof.
  unfold weekend_steps, Calendar.weekday, HOUR, DAY. simpl.
  intros Hwd.
  repeat case_match; Z.div_mod_to_equations; lia.
Qed.

Lemma not_holiday_past_horizon (holidays : gset Z) c :
  holiday_horizon (elements holidays) c = 0 →
  (c + HOUR) / DAY ∉ holidays.
Proof.
  intros Hz Hin. apply elem_of_elements in Hin.
  apply (holiday_horizon_bound _ c) in Hin. revert Hin. rewrite Hz.
  unfold HOUR, DAY. Z.div_mod_to_equations. lia.
Qed.

(** Each run of the loop body makes the measure smaller. *)
Lemma measure_decreases holidays c r :
  0 < r →
  let t := c + HOUR in
  let r' := if negb (is_weekend_or_bank_holiday holidays (t / DAY))
            then r - 1 else r in
  0 ≤ measure holidays t r' < measure holidays c r.
Proof.
  intros Hr t r'. unfold measure.
  pose proof (weekend_steps_range c).
  pose proof (weekend_steps_range t).
  pose proof (holiday_horizon_nonneg (elements holidays) t).
  destruct (holiday_horizon_step (elements holidays) c) as [Hle Hlt].
  fold t in Hle, Hlt.
  subst r'. destruct (is_weekend_or_bank_holiday _ _) eqn:Hnw; simpl; [|lia].
  destruct (decide (0 < holiday_horizon (elements holidays) c)) as [Hpos|Hz].
  - specialize (Hlt Hpos). lia.
  - assert (Hz' : holiday_horizon (elements holidays) c = 0).
    { pose proof (holiday_horizon_nonneg (elements holidays) c). lia. }
    pose proof (not_holiday_past_horizon _ _ Hz') as Hnh.
    unfold is_weekend_or_bank_holiday in Hnw. fold t in Hnh.
    rewrite (bool_decide_eq_false_2 _ Hnh), orb_false_r in Hnw.
    apply orb_true_iff in Hnw.
    pose proof (weekend_steps_step c) as Hw. simpl in Hw. fold t in Hw.
    assert (weekend_steps t < weekend_steps c) by (apply Hw; lia).
    lia.
Qed.

Lemma working_hours_loop_enough holidays n current_date remaining_hours :
  measure holidays (wall current_date) remaining_hours ≤ Z.of_nat n →
  is_Some (working_hours_loop holidays n current_date remaining_hours).
Proof.
  revert current_date remaining_hours.
  induction n as [|n IH]; intros c r Hm; simpl.
  - destruct (Z.gtb_spec r 0) as [Hr|Hr]; [|by eexists].
    pose proof (measure_decreases holidays (wall c) r Hr) as Hd.
    simpl in Hd. lia.
  - destruct (Z.gtb_spec r 0) as [Hr|Hr]; [|by eexists].
    pose proof (measure_decreases holidays (wall c) r Hr) as Hd.
    simpl in Hd. unfold date_of, add_hours. simpl.
    replace (wall c + 1 * HOUR) with (wall c + HOUR) by lia.
    destruct (negb _); apply IH; simpl; lia.
Qed.

(** More fuel does not change a result. *)
Lemma working_hours_loop_more_fuel holidays n m c r res :
  working_hours_loop holidays n c r = Some res → (n ≤ m)%nat →
  working_hours_loop holidays m c r = Some res.
Proof.
  revert m c r. induction n as [|n IH]; intros m c r; simpl.
  - destruct (r >? 0) eqn:Hr; [done|]. intros <- _.
    destruct m; simpl; by rewrite Hr.
  - destruct (r >? 0) eqn:Hr.
    + intros Hres Hle. destruct m as [|m]; [lia|]. simpl. rewrite Hr.
      destruct (negb _); (apply IH; [done|lia]).
    + intros <- _. destruct m; simpl; by rewrite Hr.
Qed.

(** The loop of [add_working_hours_uk] always comes to an end. *)
Lemma working_hours_loop_terminates holidays current_date remaining_hours :
  is_Some (working_hours_loop holidays
             (fuel holidays current_date remaining_hours)
             current_date remaining_hours).
Proof.
  destruct (decide (0 < remaining_hours)) as [Hr|Hr].
  - apply working_hours_loop_enough. unfold fuel.
    pose proof (measure_decreases holidays (wall current_date) _ Hr) as Hd.
    simpl in Hd. lia.
  - destruct (fuel _ _ _); simpl;
      (destruct (Z.gtb_spec remaining_hours 0); [lia|by eexists]).
Qed.

End loop_termination.

(** ** [add_working_hours_uk] *)

(** Whatever bound the loop is run with, a result it gives is the result of
    [add_working_hours_uk]. *)
Lemma add_working_hours_uk_eq holidays start_date hours n res :
  working_hours_loop holidays n (tag_if_naive start_date) hours = Some res →
  add_working_hours_uk holidays start_date hours = res.
Proof.
  intros Hn. unfold add_working_hours_uk.
  destruct (working_hours_loop_terminates holidays (tag_if_naive start_date) hours)
    as [x Hx].
  rewrite Hx. simpl.
  set (f := LoopBound.fuel _ _ _) in Hx.
  pose proof (working_hours_loop_more_fuel _ _ (n `max` f)%nat _ _ _ Hn
                ltac:(lia)) as H1.
  pose proof (working_hours_loop_more_fuel _ _ (n `max` f)%nat _ _ _ Hx
                ltac:(lia)) as H2.
  congruence.
Qed.

(** The loop gives its result within [LoopBound.fuel] runs of the body. *)
Lemma add_working_hours_uk_returns holidays start_date hours :
  working_hours_loop holidays
    (LoopBound.fuel holidays (tag_if_naive start_date) hours)
    (tag_if_naive start_date) hours
  = Some (add_working_hours_uk holidays start_date hours).
Proof.
  destruct (working_hours_loop_terminates holidays (tag_if_naive start_date) hours)
    as [x Hx].
  rewrite Hx. f_equal. symmetry. by eapply add_working_hours_uk_eq.
Qed.

Lemma tag_if_naive_wall t : wall (tag_if_naive t) = wall t.
Proof. unfold tag_if_naive. by destruct (tzinfo t). Qed.

Lemma tag_if_naive_aware t : is_Some (tzinfo (tag_if_naive t)).
Proof.
  unfold tag_if_naive. destruct (tzinfo t) eqn:E; simpl; [by rewrite E|done].
Qed.

Lemma working_hours_loop_nonpositive holidays n current_date hours :
  hours ≤ 0 →
  working_hours_loop holidays n current_date hours = Some current_date.
Proof.
  intros Hh. destruct n; simpl;
    (destruct (Z.gtb_spec hours 0); [lia|done]).
Qed.

Lemma add_working_hours_uk_nonpositive_eq holidays t hours :
  hours ≤ 0 → add_working_hours_uk holidays t hours = tag_if_naive t.
Proof.
  intros Hh. apply (add_working_hours_uk_eq _ _ _ 0%nat).
  by apply working_hours_loop_nonpositive.
Qed.

Lemma working_hours_loop_tzinfo holidays n c r res :
  working_hours_loop holidays n c r = Some res → tzinfo res = tzinfo c.
Proof.
  revert c r. induction n as [|n IH]; intros c r; simpl.
  - destruct (r >? 0); [done|]. by intros [= <-].
  - destruct (r >? 0); [|by intros [= <-]].
    destruct (negb _); intros Hres; by apply IH in Hres.
Qed.

Lemma add_working_hours_uk_tzinfo holidays t hours :
  tzinfo (add_working_hours_uk holidays t hours) = tzinfo (tag_if_naive t).
Proof.
  eapply working_hours_loop_tzinfo, add_working_hours_uk_returns.
Qed.

(** One working hour from a start whose next hour falls on a working day. *)
Lemma add_working_hours_uk_one holidays start_date :
  is_weekend_or_bank_holiday holidays
    (date_of (add_hours (tag_if_naive start_date) 1)) = false →
  add_working_hours_uk holidays start_date 1
  = add_hours (tag_if_naive start_date) 1.
Proof.
  intros Hw. apply (add_working_hours_uk_eq _ _ _ 1%nat).
  simpl. by rewrite Hw.
Qed.

(** C10: for [hours <= 0], negative values included, the loop body does not
    run even once (a bound of zero runs already gives the result), no error
    is raised, and [add_working_hours_uk] returns its argument, tagged with
    Europe/London when it was naive: the wall clock reading is the same, and
    an aware argument comes back as it is. *)
Theorem add_working_hours_uk_nonpositive holidays t hours :
  hours ≤ 0 →
  working_hours_loop holidays 0 (tag_if_naive t) hours = Some (tag_if_naive t)
  ∧ add_working_hours_uk holidays t hours = tag_if_naive t
  ∧ wall (add_working_hours_uk holidays t hours) = wall t
  ∧ match tzinfo t with
    | Some _ => add_working_hours_uk holidays t hours = t
    | None => add_working_hours_uk holidays t hours = EuropeLondon.localize t
    end.
Proof.
  intros Hh.
  pose proof (add_working_hours_uk_nonpositive_eq holidays t hours Hh) as Hres.
  split; [by apply working_hours_loop_nonpositive|].
  split; [done|]. rewrite Hres.
  split; [apply tag_if_naive_wall|].
  unfold tag_if_naive. by destruct (tzinfo t).
Qed.

Lemma add_working_hours_uk_nonpositive_witness :
  add_working_hours_uk {[ 20100 ]} {| wall := 1736499600; tzinfo := None |} (-3)
  = {| wall := 1736499600; tzinfo := Some 0 |}.
Proof.
  destruct (add_working_hours_uk_nonpositive {[ 20100 ]}
              {| wall := 1736499600; tzinfo := None |} (-3))
    as (_ & _ & _ & H); [lia|].
  exact H.
Defined.

(** C8, as the code has it: with [hours = 0] an aware timestamp comes back
    unchanged, and a naive one comes back with the same wall clock reading,
    tagged with the Europe/London offset. *)
Theorem add_working_hours_uk_zero holidays t :
  add_working_hours_uk holidays t 0
  = match tzinfo t with
    | Some _ => t
    | None => {| wall := wall t;
                 tzinfo := Some (EuropeLondon.utcoffset_of_wall (wall t)) |}
    end.
Proof.
  rewrite add_working_hours_uk_nonpositive_eq by lia.
  unfold tag_if_naive. by destruct (tzinfo t).
Qed.

(** C8 as stated fails on a naive timestamp: for the naive 2025-01-10 09:00
    the result carries a time zone, so it is not the argument, and Python's
    [==] tells them apart. *)
Lemma add_working_hours_uk_zero_changes_naive :
  let t := {| wall := Calendar.days_from_civil 2025 1 10 * DAY + 9 * HOUR;
              tzinfo := None |} in
  add_working_hours_uk ∅ t 0 ≠ t
  ∧ datetime_eqb (add_working_hours_uk ∅ t 0) t = false.
Proof. split; [by vm_compute|by vm_compute]. Qed.

(** C6, as the code has it: with no holidays, one working hour from 09:00 on
    a Friday ends at 10:00 on that same Friday; the hour stepped into is a
    working hour, so no weekend is skipped. *)
Theorem friday_0900_plus_one_hour (friday : Calendar.date) (tz : option Z) :
  Calendar.weekday friday = 4 →
  let start := {| wall := friday * DAY + 9 * HOUR; tzinfo := tz |} in
  let result := add_working_hours_uk ∅ start 1 in
  wall result = friday * DAY + 10 * HOUR
  ∧ date_of result = friday
  ∧ tzinfo result = tzinfo (tag_if_naive start).
Proof.
  intros Hfri start result.
  assert (Hd : date_of (add_hours (tag_if_naive start) 1) = friday).
  { unfold date_of, add_hours. simpl. rewrite tag_if_naive_wall. simpl.
    unfold HOUR, DAY. Z.div_mod_to_equations. lia. }
  assert (Hres : result = add_hours (tag_if_naive start) 1).
  { apply add_working_hours_uk_one. rewrite Hd.
    unfold is_weekend_or_bank_holiday. rewrite Hfri. simpl.
    by apply bool_decide_eq_false_2, not_elem_of_empty. }
  rewrite Hres. split; [|split; [exact Hd|done]].
  simpl. rewrite tag_if_naive_wall. simpl. unfold HOUR. lia.
Qed.

Lemma friday_0900_plus_one_hour_witness :
  wall (add_working_hours_uk ∅ {| wall := 20098 * DAY + 9 * HOUR; tzinfo := None |} 1)
  = 20098 * DAY + 10 * HOUR.
Proof.
  destruct (friday_0900_plus_one_hour 20098 None) as (H & _ & _);
    [reflexivity|exact H].
Defined.

(** C6 as stated fails: from Friday 2025-01-10 09:00, with no holidays, one
    working hour ends on Friday 2025-01-10 at 10:00, not on Monday
    2025-01-13 at 09:00. *)
Lemma friday_0900_plus_one_hour_is_not_monday :
  let friday := Calendar.days_from_civil 2025 1 10 in
  let monday := Calendar.days_from_civil 2025 1 13 in
  let start := {| wall := friday * DAY + 9 * HOUR; tzinfo := None |} in
  let result := add_working_hours_uk ∅ start 1 in
  Calendar.weekday friday = 4 ∧ Calendar.weekday monday = 0
  ∧ result = {| wall := friday * DAY + 10 * HOUR; tzinfo := Some 0 |}
  ∧ wall result ≠ monday * DAY + 9 * HOUR
  ∧ date_of result ≠ monday.
Proof. by vm_compute. Qed.

(** A weekend is skipped by the steps that land on it: one working hour from
    Friday 23:00 ends on Monday at 00:00, and on Tuesday at 00:00 when that
    Monday is a holiday. *)
Example friday_2300_plus_one_hour :
  let friday := Calendar.days_from_civil 2025 1 10 in
  let start := {| wall := friday * DAY + 23 * HOUR; tzinfo := Some 0 |} in
  add_working_hours_uk ∅ start 1
  = {| wall := (friday + 3) * DAY; tzinfo := Some 0 |}
  ∧ add_working_hours_uk {[ friday + 3 ]} start 1
  = {| wall := (friday + 4) * DAY; tzinfo := Some 0 |}.
Proof. by vm_compute. Qed.

(** ** Normalising to Europe/London *)

Lemma astimezone_utc_instant t :
  utc_instant (EuropeLondon.astimezone t) = utc_instant t.
Proof. unfold EuropeLondon.astimezone, utc_instant. simpl. lia. Qed.

Lemma astimezone_idempotent t :
  EuropeLondon.astimezone (EuropeLondon.astimezone t) = EuropeLondon.astimezone t.
Proof.
  unfold EuropeLondon.astimezone at 1. rewrite astimezone_utc_instant. done.
Qed.

Lemma convert_to_uk_time_aware t off :
  tzinfo t = Some off →
  convert_to_uk_time (Some t) = Some (EuropeLondon.astimezone t).
Proof. intros Ht. unfold convert_to_uk_time. by rewrite Ht. Qed.

Lemma iso_to_uk_time_Some parsed rt :
  iso_to_uk_time parsed = Some rt →
  ∃ t, parsed = Some t
       ∧ rt = EuropeLondon.astimezone
                (match tzinfo t with None => UTC.localize t | Some _ => t end).
Proof.
  destruct parsed as [t|]; [|done]. simpl. intros [= <-]. by exists t.
Qed.

Lemma uk_time_to_iso_normalised t :
  uk_time_to_iso (Some (EuropeLondon.astimezone t))
  = Some (EuropeLondon.astimezone t).
Proof. simpl. by rewrite astimezone_idempotent. Qed.

(** ** [add_request] *)

Lemma expected_time_by_pathway holidays p rt :
  is_Some (tzinfo rt) →
  match p with
  | PURPLE => add_working_hours_uk holidays rt 1
  | RED => add_working_hours_uk holidays rt 24
  | AMBER => add_working_hours_uk holidays rt 72
  | _ => rt
  end = add_working_hours_uk holidays rt (pathway_hours p).
Proof.
  intros [off Hoff].
  destruct p; simpl; try done;
    (rewrite add_working_hours_uk_nonpositive_eq by lia;
     unfold tag_if_naive; by rewrite Hoff).
Qed.

(** [data['pathway'] not in valid_pathways] fails exactly for the five
    names. *)
Lemma pathway_of_text_exact s p :
  pathway_of_text s = Some p ↔ s = pathway_text p.
Proof.
  split.
  - unfold pathway_of_text. intros Hfind.
    apply List.find_some in Hfind as [_ Heq]. by apply String.eqb_eq in Heq.
  - intros ->. by destruct p.
Qed.

(** When the body is complete, the pathway valid, the next identifier
    computable and the time parsable, [add_request] inserts [new_row]. *)
Lemma add_request_creates holidays clk d ptext parsed nm mr wd p rid rt :
  pathway_of_text ptext = Some p →
  get_next_request_id (local_now clk) (echo_requests d) = Some rid →
  iso_to_uk_time parsed = Some rt →
  add_request holidays clk
    (Some (AddRequestJson (Some ptext) (Some parsed) nm mr wd)) d
  = ({| status_code := 200; body := [("request_id"%string, rid)] |},
     insert_row (new_row holidays clk d p rid rt nm mr wd) d).
Proof.
  intros Hp Hid Hrt. unfold add_request. rewrite Hp, Hid, Hrt.
  apply iso_to_uk_time_Some in Hrt as (t & -> & ->).
  rewrite uk_time_to_iso_normalised, expected_time_by_pathway by (by eexists).
  unfold new_row. do 3 f_equal.
  set (e := add_working_hours_uk _ _ _).
  assert (is_Some (tzinfo e)) as [off Hoff].
  { subst e. rewrite add_working_hours_uk_tzinfo. apply tag_if_naive_aware. }
  simpl. by rewrite Hoff.
Qed.

(** Every successful [add_request] is of that form. *)
Lemma add_request_success holidays clk data d resp d' :
  add_request holidays clk data d = (resp, d') → status_code resp = 200 →
  ∃ ptext parsed nm mr wd p rid rt,
    data = Some (AddRequestJson (Some ptext) (Some parsed) nm mr wd)
    ∧ pathway_of_text ptext = Some p
    ∧ get_next_request_id (local_now clk) (echo_requests d) = Some rid
    ∧ iso_to_uk_time parsed = Some rt
    ∧ resp = {| status_code := 200; body := [("request_id"%string, rid)] |}
    ∧ d' = insert_row (new_row holidays clk d p rid rt nm mr wd) d.
Proof.
  intros Hadd Hcode.
  destruct data as [|[[[ptext|] [parsed|] nm mr wd]|]];
    try (injection Hadd as <- <-; discriminate Hcode).
  destruct (pathway_of_text ptext) as [p|] eqn:Hp;
    [|unfold add_request in Hadd; rewrite Hp in Hadd;
      injection Hadd as <- <-; discriminate Hcode].
  destruct (get_next_request_id (local_now clk) (echo_requests d))
    as [rid|] eqn:Hid;
    [|unfold add_request in Hadd; rewrite Hp, Hid in Hadd;
      injection Hadd as <- <-; discriminate Hcode].
  destruct (iso_to_uk_time parsed) as [rt|] eqn:Hrt;
    [|unfold add_request in Hadd; rewrite Hp, Hid, Hrt in Hadd;
      injection Hadd as <- <-; discriminate Hcode].
  rewrite (add_request_creates _ _ _ _ _ _ _ _ p rid rt) in Hadd by done.
  injection Hadd as <- <-.
  by exists ptext, parsed, nm, mr, wd, p, rid, rt.
Qed.

(** An [add_request] that is not answered with 200 writes nothing and
    hands out no identifier. *)
Lemma add_request_cases holidays clk data d :
  status_code (add_request holidays clk data d).1 = 200
  ∨ ((add_request holidays clk data d).2 = d
     ∧ new_request_id (add_request holidays clk data d).1 = None).
Proof.
  unfold add_request. repeat case_match; simpl; auto.
Qed.

(** C5: the requests [add_request] creates are those whose body names one
    of the five pathways and a request time that parses (the next
    identifier being computable), and the row it stores for such a body
    has the pathway the body names, the body's request time normalised to
    Europe/London, and as [expected_time] the result of
    [add_working_hours_uk] on that request time with 1 hour for PURPLE, 24
    for RED and 72 for AMBER, stored normalised to Europe/London, hence
    equal to it as a timestamp (Python's [==]); for GREEN and REJECTED it is
    the request time itself. *)
Theorem add_request_expected_time holidays clk d :
  (∀ p parsed rt rid nm mr wd,
     iso_to_uk_time parsed = Some rt →
     get_next_request_id (local_now clk) (echo_requests d) = Some rid →
     ∃ r e,
       add_request holidays clk
         (Some (AddRequestJson (Some (pathway_text p)) (Some parsed) nm mr wd))
         d
       = ({| status_code := 200; body := [("request_id"%string, rid)] |},
          insert_row r d)
       ∧ pathway r = p
       ∧ request_time r = rt
       ∧ expected_time r = Some e
       ∧ (let h := match p with
                   | PURPLE => 1 | RED => 24 | AMBER => 72
                   | GREEN | REJECTED => 0
                   end in
          e = EuropeLondon.astimezone (add_working_hours_uk holidays rt h)
          ∧ datetime_eqb e (add_working_hours_uk holidays rt h) = true)
       ∧ (p = GREEN ∨ p = REJECTED → e = rt))
  ∧ (∀ data resp d',
       add_request holidays clk data d = (resp, d') → status_code resp = 200 →
       ∃ p parsed rt rid nm mr wd,
         data = Some (AddRequestJson (Some (pathway_text p)) (Some parsed)
                        nm mr wd)
         ∧ iso_to_uk_time parsed = Some rt
         ∧ get_next_request_id (local_now clk) (echo_requests d) = Some rid).
Proof.
  split.
  - intros p parsed rt rid nm mr wd Hrt Hid.
    exists (new_row holidays clk d p rid rt nm mr wd). eexists.
    split; [apply add_request_creates; [by apply pathway_of_text_exact|done..]|].
    split; [done|]. split; [done|]. split; [done|]. cbn zeta.
    change (match p with
            | PURPLE => 1 | RED => 24 | AMBER => 72 | GREEN | REJECTED => 0
            end) with (pathway_hours p).
    set (x := add_working_hours_uk holidays rt (pathway_hours p)).
    assert (is_Some (tzinfo x)) as [off Hoff].
    { subst x. rewrite add_working_hours_uk_tzinfo. apply tag_if_naive_aware. }
    split; [split; [done|]|].
    + unfold datetime_eqb. simpl. rewrite Hoff.
      apply Z.eqb_eq, astimezone_utc_instant.
    + intros Hp. apply iso_to_uk_time_Some in Hrt as (t & _ & Hrt).
      subst x. rewrite add_working_hours_uk_nonpositive_eq
        by (destruct Hp as [-> | ->]; simpl; lia).
      rewrite Hrt. unfold tag_if_naive. simpl. apply astimezone_idempotent.
  - intros data resp d' Hadd Hcode.
    apply add_request_success in Hadd
      as (ptext & parsed & nm & mr & wd & p & rid & rt
          & -> & Hp%pathway_of_text_exact & Hid & Hrt & _ & _); [|done].
    subst ptext. by exists p, parsed, rt, rid, nm, mr, wd.
Qed.

Lemma add_request_expected_time_witness :
  let friday_0900 :=
    {| wall := Calendar.days_from_civil 2025 1 10 * DAY + 9 * HOUR;
       tzinfo := Some 0 |} in
  let clk := {| local_now := friday_0900; utc_now := wall friday_0900 |} in
  let data := AddRequestJson (Some "RED PATHWAY"%string)
                (Some (Some friday_0900)) None None None in
  ∃ r e, add_request ∅ clk (Some data) empty_db
         = ({| status_code := 200;
               body := [("request_id"%string, "25.0001"%string)] |},
            insert_row r empty_db)
    ∧ pathway r = RED
    ∧ request_time r = friday_0900
    ∧ expected_time r = Some e
    ∧ e = EuropeLondon.astimezone (add_working_hours_uk ∅ friday_0900 24).
Proof.
  intros friday_0900 clk data.
  destruct (proj1 (add_request_expected_time ∅ clk empty_db)
              RED (Some friday_0900) friday_0900 "25.0001"%string
              None None None)
    as (r & e & Hadd & Hp & Hrt & He & [Hx _] & _);
    [by vm_compute|by vm_compute|].
  exists r, e. split; [exact Hadd|]. split; [exact Hp|].
  split; [exact Hrt|]. split; [exact He|exact Hx].
Defined.

(** C7, as the code has it: a request time that carries no time zone is
    read as UTC and converted to Europe/London.  The stored wall clock
    reading is the input's plus the London offset in force at that UTC
    instant: the same reading exactly when London is on GMT then, one hour
    more during summer time. *)
Theorem add_request_naive_request_time holidays clk ptext t nm mr wd d resp d' :
  tzinfo t = None →
  add_request holidays clk
    (Some (AddRequestJson (Some ptext) (Some (Some t)) nm mr wd)) d
  = (resp, d') →
  status_code resp = 200 →
  ∃ r, d' = insert_row r d
    ∧ (let off := EuropeLondon.utcoffset_at (wall t) in
       request_time r = {| wall := wall t + off; tzinfo := Some off |}
       ∧ (wall (request_time r) = wall t ↔ off = 0)).
Proof.
  intros Ht Hadd Hcode.
  apply add_request_success in Hadd
    as (? & ? & ? & ? & ? & p & rid & rt & [= <- <- <- <- <-] & _ & _ & Hrt & _ & ->);
    [|done].
  eexists. split; [done|]. simpl.
  apply iso_to_uk_time_Some in Hrt as (t' & [= <-] & ->).
  rewrite Ht. unfold EuropeLondon.astimezone, UTC.localize, utc_instant. simpl.
  rewrite Z.sub_0_r. split; [done|]. lia.
Qed.

Lemma add_request_naive_request_time_witness :
  let t := {| wall := Calendar.days_from_civil 2025 1 10 * DAY + 9 * HOUR;
              tzinfo := None |} in
  let clk := {| local_now := t; utc_now := wall t |} in
  let data := AddRequestJson (Some "GREEN PATHWAY"%string)
                (Some (Some t)) None None None in
  ∃ r, (add_request ∅ clk (Some data) empty_db).2 = insert_row r empty_db
    ∧ request_time r = {| wall := wall t; tzinfo := Some 0 |}.
Proof.
  intros t clk data.
  destruct (add_request_naive_request_time ∅ clk "GREEN PATHWAY" t None None
              None empty_db
              (add_request ∅ clk (Some data) empty_db).1
              (add_request ∅ clk (Some data) empty_db).2)
    as (r & Hd & Hr & _); [reflexivity|by vm_compute|by vm_compute|].
  exists r. split; [exact Hd|]. rewrite Hr. by vm_compute.
Defined.

(** C7 as stated fails in summer: the naive request time 2025-07-01 09:00
    is stored as 10:00 with offset +01:00, not as 09:00 London time. *)
Lemma naive_request_time_is_read_as_utc :
  let t := {| wall := Calendar.days_from_civil 2025 7 1 * DAY + 9 * HOUR;
              tzinfo := None |} in
  let clk := {| local_now := t; utc_now := wall t |} in
  let data := AddRequestJson (Some "AMBER PATHWAY"%string)
                (Some (Some t)) None None None in
  request_time <$> echo_requests (add_request ∅ clk (Some data) empty_db).2
  = [ {| wall := Calendar.days_from_civil 2025 7 1 * DAY + 10 * HOUR;
         tzinfo := Some HOUR |} ]
  ∧ request_time <$> echo_requests (add_request ∅ clk (Some data) empty_db).2
  ≠ [ EuropeLondon.localize t ].
Proof. split; by vm_compute. Qed.

(** ** Writes by row id *)


Lemma delete_where_id_absent rid d :
  rid ∉ id <$> echo_requests d → delete_where_id rid d = d.
Proof.
  destruct d as [rows seq]. unfold delete_where_id. simpl. intros Hnot.
  f_equal. induction rows as [|r rows IH]; [done|]. simpl in *.
  apply not_elem_of_cons in Hnot as [Hne Hnot].
  destruct (Z.eqb_spec (id r) rid); [done|]. simpl. f_equal. by apply IH.
Qed.




(** ** The completion invariant *)

Lemma update_where_id_invariant set rid d :
  (∀ r, completion_invariant r → completion_invariant (set r)) →
  Forall completion_invariant (echo_requests d) →
  Forall completion_invariant (echo_requests (update_where_id set rid d)).
Proof.
  intros Hset Hinv. simpl. apply Forall_fmap.
  eapply Forall_impl; [exact Hinv|]. intros r Hr. simpl.
  destruct (id r =? rid); auto.
Qed.

Lemma add_request_db holidays clk data d :
  (add_request holidays clk data d).2 = d
  ∨ ∃ r, (add_request holidays clk data d).2 = insert_row r d
         ∧ status r = pending ∧ completion_time r = None.
Proof.
  unfold add_request. repeat case_match; simpl; eauto.
Qed.

(** [mark_completed] sets status and completion time of the row together,
    [undo_completed] clears them together. *)
Lemma mark_completed_sets_both clk rid d r :
  r ∈ echo_requests (mark_completed clk (Some rid) d).2 → id r = rid →
  status r = completed ∧ completion_time r = Some (get_uk_time (utc_now clk)).
Proof.
  simpl. intros (r0 & -> & _)%list_elem_of_fmap.
  destruct (Z.eqb_spec (id r0) rid); [done|]. by intros ?.
Qed.

Lemma undo_completed_clears_both rid d r :
  r ∈ echo_requests (undo_completed (Some rid) d).2 → id r = rid →
  status r = pending ∧ completion_time r = None.
Proof.
  simpl. intros (r0 & -> & _)%list_elem_of_fmap.
  destruct (Z.eqb_spec (id r0) rid); [done|]. by intros ?.
Qed.

Lemma handle_invariant holidays op d :
  Forall completion_invariant (echo_requests d) →
  Forall completion_invariant (echo_requests (handle holidays op d).2).
Proof.
  intros Hinv.
  destruct op as [clk data|clk [|[rid|]]|[|[rid|]]|[|[rid|]]|[|[rid|]] v
                  |[|[rid|]] v|[|[rid|]] v|[|[rid|]] v]; simpl; try done;
    try (apply update_where_id_invariant; [|done]; intros r Hr;
         unfold completion_invariant in *; simpl; try done).
  - destruct (add_request_db holidays clk data d) as [->|(r & -> & Hs & Hc)];
      [done|].
    simpl. apply Forall_app. split; [done|]. apply Forall_singleton.
    unfold completion_invariant. rewrite Hs, Hc. split; [by intros [? ?]|done].
  - induction Hinv as [|r rows Hr _ IH]; simpl; [done|].
    destruct (negb _); [by constructor|done].
Qed.

Lemma run_cons holidays op ops d :
  (run holidays (op :: ops) d).2
  = (run holidays ops (handle holidays op d).2).2.
Proof.
  simpl. destruct (handle holidays op d) as [resp d1]. simpl.
  by destruct (run holidays ops d1).
Qed.

(** An [UPDATE ... WHERE id = ?] that does not set the id keeps the rows
    and their ids, and leaves the rows of every other id as they were. *)
Lemma update_where_id_rows set rid d :
  (∀ r, id (set r) = id r) →
  id <$> echo_requests (update_where_id set rid d) = id <$> echo_requests d
  ∧ (∀ r, r ∈ echo_requests (update_where_id set rid d) → id r ≠ rid →
          r ∈ echo_requests d).
Proof.
  intros Hset. split.
  - simpl. rewrite <- list_fmap_compose. apply list_fmap_ext.
    intros _ r _. simpl. destruct (id r =? rid); auto.
  - simpl. intros r (r0 & -> & Hin)%list_elem_of_fmap.
    destruct (Z.eqb_spec (id r0) rid) as [Heq|Hne]; [|done].
    rewrite Hset. by intros [].
Qed.

(** C9: every row has a [completion_time] exactly when its [status] is
    [completed] after any run of requests (creating, completing, undoing,
    editing the descriptive fields, and deleting as well), provided this
    held before the run, as it does for the empty table.  The handlers keep
    it this way: [add_request] either writes nothing (and does not answer
    200) or inserts one row, [pending] and without [completion_time];
    [mark_completed] keeps the rows, sets status [completed] and the
    completion time together on the rows of the given id and leaves the
    others as they were; [undo_completed] sets status [pending] and clears
    the completion time together, likewise. *)
Theorem completion_time_iff_completed holidays ops d :
  (Forall completion_invariant (echo_requests d) →
   Forall completion_invariant (echo_requests (run holidays ops d).2))
  ∧ Forall completion_invariant (echo_requests (run holidays ops empty_db).2)
  ∧ (∀ clk data resp d',
       add_request holidays clk data d = (resp, d') →
       (status_code resp = 200
        ∧ ∃ r, d' = insert_row r d
               ∧ status r = pending ∧ completion_time r = None)
       ∨ (status_code resp ≠ 200 ∧ d' = d))
  ∧ (∀ clk rid,
       let rows' := echo_requests (mark_completed clk (Some rid) d).2 in
       id <$> rows' = id <$> echo_requests d
       ∧ (∀ r, r ∈ rows' → id r = rid →
               status r = completed
               ∧ completion_time r = Some (get_uk_time (utc_now clk)))
       ∧ (∀ r, r ∈ rows' → id r ≠ rid → r ∈ echo_requests d))
  ∧ (∀ rid,
       let rows' := echo_requests (undo_completed (Some rid) d).2 in
       id <$> rows' = id <$> echo_requests d
       ∧ (∀ r, r ∈ rows' → id r = rid →
               status r = pending ∧ completion_time r = None)
       ∧ (∀ r, r ∈ rows' → id r ≠ rid → r ∈ echo_requests d)).
Proof.
  assert (Hrun : ∀ d0, Forall completion_invariant (echo_requests d0) →
            Forall completion_invariant (echo_requests (run holidays ops d0).2)).
  { induction ops as [|op ops IH]; intros d0 Hinv; [done|].
    rewrite run_cons. by apply IH, handle_invariant. }
  split_and!.
  - apply Hrun.
  - apply Hrun. simpl. apply Forall_nil_2.
  - intros clk data resp d' Hadd.
    destruct (decide (status_code resp = 200)) as [Hcode|Hcode].
    + left. split; [done|].
      apply add_request_success in Hadd
        as (? & ? & ? & ? & ? & ? & ? & ? & _ & _ & _ & _ & _ & ->); [|done].
      by eexists.
    + right. split; [done|].
      destruct (add_request_cases holidays clk data d) as [Hok|[Hd _]];
        rewrite Hadd in *; simpl in *; done.
  - intros clk rid rows'.
    destruct (update_where_id_rows
                (set_status completed (Some (get_uk_time (utc_now clk))))
                rid d) as [Hids Hother]; [done|].
    split_and!; [exact Hids| |exact Hother].
    intros r. apply mark_completed_sets_both.
  - intros rid rows'.
    destruct (update_where_id_rows (set_status pending None) rid d)
      as [Hids Hother]; [done|].
    split_and!; [exact Hids| |exact Hother].
    intros r. apply undo_completed_clears_both.
Qed.

Lemma completion_time_iff_completed_witness :
  let t := {| wall := Calendar.days_from_civil 2025 1 10 * DAY + 9 * HOUR;
              tzinfo := Some 0 |} in
  let clk := {| local_now := t; utc_now := wall t |} in
  let data := AddRequestJson (Some "RED PATHWAY"%string) (Some (Some t))
                None None None in
  Forall completion_invariant
    (echo_requests
       (run ∅ [AddRequest clk (Some data); MarkCompleted clk (Some 1);
               UpdateNotes (Some 1) (Some "seen"%string);
               UndoCompleted (Some 1); MarkCompleted clk (Some 1)]
          empty_db).2).
Proof.
  intros t clk data.
  apply (proj1 (completion_time_iff_completed ∅ _ empty_db)).
  simpl. apply Forall_nil_2.
Defined.

(** ** Three-valued conditions *)

Lemma holds_and a b :
  Sql.holds (Sql.and a b) = true ↔ Sql.holds a = true ∧ Sql.holds b = true.
Proof. destruct a as [[]|], b as [[]|]; simpl; intuition congruence. Qed.

Lemma holds_or a b :
  Sql.holds (Sql.or a b) = true ↔ Sql.holds a = true ∨ Sql.holds b = true.
Proof. destruct a as [[]|], b as [[]|]; simpl; intuition congruence. Qed.

Lemma holds_bool (b : bool) : Sql.holds (Some b) = true ↔ b = true.
Proof. by destruct b. Qed.

Lemma holds_null : Sql.holds None = true ↔ False.
Proof. done. Qed.

Lemma holds_lt_Some x y : Sql.holds (Sql.lt (Some x) (Some y)) = true ↔ x < y.
Proof. simpl. destruct (Z.ltb_spec x y); split; (done || lia). Qed.

Lemma holds_le_Some x y : Sql.holds (Sql.le (Some x) (Some y)) = true ↔ x ≤ y.
Proof. simpl. destruct (Z.leb_spec x y); split; (done || lia). Qed.

Lemma lt_null_l b : Sql.lt None b = None.
Proof. done. Qed.

Lemma lt_null_r a : Sql.lt a None = None.
Proof. by destruct a. Qed.

Lemma le_null_l b : Sql.le None b = None.
Proof. done. Qed.

Lemma le_null_r a : Sql.le a None = None.
Proof. by destruct a. Qed.

Lemma not_in_green_rejected_true p :
  not_in_green_rejected p = true ↔ p ∉ [GREEN; REJECTED].
Proof.
  unfold not_in_green_rejected. rewrite negb_true_iff, bool_decide_eq_false.
  done.
Qed.

(** ** [get_daily_overdue] *)

(** C1, as the code has it, with days taken in UTC: the start of day
    [date] is 00:00:00 UTC of that date ([date * DAY]) and every stored time
    is compared as the UTC instant it denotes, in whole seconds, whatever
    offset it was stored with.  A request joins day [date] exactly when its
    pathway is neither GREEN nor REJECTED, its [expected_time] is before the
    start of the next day, its [request_time] is not after the start of the
    next day, and it is pending now, or completed with a [completion_time]
    after the start of [date], or completed at the very start of [date] and
    after its [expected_time].  A request completed before [date] began does
    not join [date]. *)
Theorem overdue_on_iff date r :
  (Sql.holds (overdue_on date r) = true ↔
   (pathway r ∉ [GREEN; REJECTED])
   ∧ ∃ e, expected_time r = Some e
     ∧ utc_instant e < (date + 1) * DAY
     ∧ utc_instant (request_time r) ≤ (date + 1) * DAY
     ∧ (status r = pending
        ∨ (status r = completed
           ∧ ∃ c, completion_time r = Some c
             ∧ (date * DAY < utc_instant c
                ∨ (utc_instant c = date * DAY
                   ∧ utc_instant e < utc_instant c)))))
  ∧ ∀ c, status r = completed → completion_time r = Some c →
         utc_instant c < date * DAY → Sql.holds (overdue_on date r) = false.
Proof.
  assert (Hiff : Sql.holds (overdue_on date r) = true ↔
   (pathway r ∉ [GREEN; REJECTED])
   ∧ ∃ e, expected_time r = Some e
     ∧ utc_instant e < (date + 1) * DAY
     ∧ utc_instant (request_time r) ≤ (date + 1) * DAY
     ∧ (status r = pending
        ∨ (status r = completed
           ∧ ∃ c, completion_time r = Some c
             ∧ (date * DAY < utc_instant c
                ∨ (utc_instant c = date * DAY
                   ∧ utc_instant e < utc_instant c))))).
  { unfold overdue_on, Sql.gt, Sql.ge, Sql.datetime, Sql.datetime_of_date,
      Sql.datetime_plus_1_day.
    destruct (expected_time r) as [e|], (completion_time r) as [c|];
      cbn [fmap option_fmap option_map];
      rewrite ?lt_null_l, ?lt_null_r, ?le_null_l, ?le_null_r,
        !holds_and, !holds_or, !holds_and, !holds_bool,
        ?holds_lt_Some, ?holds_le_Some, ?holds_null,
        !bool_decide_eq_true, not_in_green_rejected_true.
    - split.
      + intros (Hp & He & Hr & Hs). split; [done|]. exists e.
        split_and!; try done.
        destruct Hs as [Hs|[[Hs Hc]|(Hs & Hc1 & Hc2 & Hc3)]]; [by left|right..];
          (split; [done|]; exists c; split; [done|]; lia).
      + intros (Hp & e' & [= <-] & He & Hr & Hs). split_and!; try done.
        destruct Hs as [Hs|(Hs & c' & [= <-] & Hc)]; [by left|]. right.
        destruct Hc as [Hc|[Hc1 Hc2]]; [by left|right].
        split_and!; try done; unfold DAY in *; lia.
    - split.
      + intros (Hp & He & Hr & Hs). split; [done|]. exists e.
        split_and!; try done.
        destruct Hs as [Hs|[[Hs []]|(Hs & [] & _)]]. by left.
      + intros (Hp & e' & [= <-] & He & Hr & Hs). split_and!; try done.
        destruct Hs as [Hs|(Hs & c' & [=] & _)]. by left.
    - split; [by intros (_ & [] & _)|by intros (_ & e & [=] & _)].
    - split; [by intros (_ & [] & _)|by intros (_ & e & [=] & _)]. }
  split; [exact Hiff|].
  intros c Hs Hc Hlt. apply not_true_is_false. rewrite Hiff.
  intros (_ & e & _ & _ & _ & [Hp|(_ & c' & Hc' & Hcmp)]); [congruence|].
  rewrite Hc in Hc'. injection Hc' as <-. lia.
Qed.

Lemma overdue_on_iff_witness :
  let r := {| id := 1; request_id := "25.0001"; pathway := RED;
              request_time := DateTime (20097 * DAY + 9 * HOUR) (Some 0);
              expected_time := Some (DateTime (20098 * DAY + 9 * HOUR) (Some 0));
              status := pending; triage_date := 20097;
              completion_time := None;
              notes := ""; name := ""; mrn := ""; ward := "" |} in
  Sql.holds (overdue_on 20100 r) = true.
Proof.
  intros r. apply (proj1 (overdue_on_iff 20100 r)).
  split; [by apply not_in_green_rejected_true|]. eexists.
  split; [reflexivity|].
  split; [by vm_compute|]. split; [by vm_compute|]. by left.
Defined.

(** C1 as stated fails at the first instant of a day.  An AMBER request made
    on Thursday 2025-01-09 at 09:00 is due on Tuesday 2025-01-14 at 09:00;
    it is completed at 00:00:00 on 2025-01-15.  The query counts it as
    overdue on 2025-01-15, although it was not completed strictly after that
    day began.  In January London is on GMT, so the day begins at the same
    instant whether it is taken in UTC or in London time. *)
Lemma completed_at_midnight_is_counted :
  let day := Calendar.days_from_civil 2025 1 15 in
  let t := {| wall := Calendar.days_from_civil 2025 1 9 * DAY + 9 * HOUR;
              tzinfo := Some 0 |} in
  let data := AddRequestJson (Some "AMBER PATHWAY"%string) (Some (Some t))
                None None None in
  let rows :=
    echo_requests
      (run ∅ [AddRequest {| local_now := t; utc_now := wall t |} (Some data);
              MarkCompleted {| local_now := DateTime (day * DAY) None;
                               utc_now := day * DAY |} (Some 1)]
         empty_db).2 in
  ∃ r, rows = [r]
       ∧ Sql.holds (overdue_on day r) = true
       ∧ ¬ Spec.overdue_on day r
       ∧ overdue_count rows day = 1%nat.
Proof.
  intros day t data rows. eexists. split; [by vm_compute|].
  split; [by vm_compute|]. split; [|by vm_compute].
  intros (_ & _ & _ & [Hs|(_ & c & Hc & Hlt)]); [by vm_compute in Hs|].
  vm_compute in Hc. injection Hc as <-. by vm_compute in Hlt.
Qed.

(** The days of [get_daily_overdue] are UTC days, not London days.  A RED
    request made on Friday 2025-06-27 at 09:00 London time is due on Monday
    2025-06-30 at 09:00; it is completed on 2025-07-02 at 00:30 London time
    (British Summer Time), which is 2025-07-01 23:30 UTC.  The query does
    not count it for 2025-07-02, the London day on which it was completed:
    for the query it was completed the day before. *)
Lemma overdue_days_are_utc_days :
  let day := Calendar.days_from_civil 2025 7 2 in
  let t := {| wall := Calendar.days_from_civil 2025 6 27 * DAY + 9 * HOUR;
              tzinfo := Some HOUR |} in
  let data := AddRequestJson (Some "RED PATHWAY"%string) (Some (Some t))
                None None None in
  let done_utc := (day - 1) * DAY + 23 * HOUR + 1800 in
  let rows :=
    echo_requests
      (run ∅ [AddRequest {| local_now := t; utc_now := utc_instant t |}
                (Some data);
              MarkCompleted {| local_now := DateTime (done_utc + HOUR) None;
                               utc_now := done_utc |} (Some 1)]
         empty_db).2 in
  ∃ r, rows = [r]
       ∧ completion_time r
         = Some {| wall := day * DAY + 1800; tzinfo := Some HOUR |}
       ∧ date_of (default t (completion_time r)) = day
       ∧ Sql.holds (overdue_on day r) = false
       ∧ Sql.holds (overdue_on (day - 1) r) = true.
Proof.
  intros day t data done_utc rows. eexists.
  split; [by vm_compute|]. by vm_compute.
Qed.

(** The dates of the query are the days of the window, the last 30 days
    and today. *)
Lemma dates_from_spec n d last x :
  Z.of_nat n = last - d →
  x ∈ Sql.dates_from n d last ↔ d ≤ x ≤ last.
Proof.
  revert d. induction n as [|n IH]; intros d Hn; simpl.
  - rewrite list_elem_of_singleton. lia.
  - rewrite elem_of_cons. destruct (Z.ltb_spec d last); [|lia].
    rewrite IH by lia. lia.
Qed.

Lemma dates_spec first last x :
  first ≤ last → x ∈ Sql.dates first last ↔ first ≤ x ≤ last.
Proof. intros Hle. unfold Sql.dates. apply dates_from_spec. lia. Qed.

(** Every day of the window has its entry in the result of
    [get_daily_overdue]: the number of distinct ids among the rows that join
    the day, which is the number of those rows when ids are unique. *)
Lemma get_daily_overdue_entry now rows day :
  date_of now - 30 ≤ day ≤ date_of now →
  (day, overdue_count rows day) ∈ get_daily_overdue now rows.
Proof.
  intros Hday. unfold get_daily_overdue.
  apply (list_elem_of_fmap_2 (λ d, (d, overdue_count rows d))).
  apply dates_spec; lia.
Qed.

Lemma remove_dups_NoDup (l : list Z) : NoDup l → remove_dups l = l.
Proof.
  induction 1 as [|x l Hx _ IH]; simpl; [done|].
  destruct (decide_rel _ x l); [done|by f_equal].
Qed.

Lemma overdue_count_unique_ids rows day :
  NoDup (id <$> rows) →
  overdue_count rows day
  = length (List.filter (λ r, Sql.holds (overdue_on day r)) rows).
Proof.
  intros Hnd. unfold overdue_count.
  assert (Hnd' : NoDup (id <$> List.filter
                          (λ r, Sql.holds (overdue_on day r)) rows)).
  { induction rows as [|r rows IH]; simpl in *; [constructor|].
    apply NoDup_cons in Hnd as [Hr Hnd].
    destruct (Sql.holds _); [|by apply IH].
    simpl. apply NoDup_cons. split; [|by apply IH].
    intros Hin. apply Hr.
    apply list_elem_of_fmap in Hin as (r' & -> & Hin).
    apply list_elem_of_fmap. exists r'. split; [done|].
    apply list_elem_of_In, List.filter_In in Hin as [Hin _].
    by apply list_elem_of_In. }
  rewrite (remove_dups_NoDup _ Hnd'). by rewrite length_fmap.
Qed.

(** ** The order of [get_requests] *)

Lemma lex_leb_cons x k1 y k2 :
  lex_leb (x :: k1) (y :: k2) = true ↔ x < y ∨ (x = y ∧ lex_leb k1 k2 = true).
Proof.
  simpl. rewrite orb_true_iff, andb_true_iff, Z.ltb_lt, Z.eqb_eq. done.
Qed.

Lemma lex_leb_total k1 k2 : lex_leb k1 k2 = true ∨ lex_leb k2 k1 = true.
Proof.
  revert k2. induction k1 as [|x k1 IH]; intros [|y k2]; try (by left).
  - by right.
  - rewrite !lex_leb_cons.
    destruct (Z.lt_trichotomy x y) as [?|[->|?]];
      [by left; left| |by right; left].
    destruct (IH k2); [left|right]; by right.
Qed.

Lemma lex_leb_trans k1 k2 k3 :
  lex_leb k1 k2 = true → lex_leb k2 k3 = true → lex_leb k1 k3 = true.
Proof.
  revert k2 k3. induction k1 as [|x k1 IH]; intros [|y k2] [|z k3];
    try done.
  rewrite !lex_leb_cons. intros [?|[-> H12]] [?|[-> H23]]; try lia.
  right. split; [done|]. by eapply IH.
Qed.

Global Instance order_by_total now : Total (order_by now).
Proof. intros a b. apply lex_leb_total. Qed.

Global Instance order_by_trans now : Transitive (order_by now).
Proof. intros a b c. apply lex_leb_trans. Qed.

(** The query returns all rows, in an order that respects [order_by]. *)
Lemma ordered_requests_sorted now rows :
  StronglySorted (order_by now) (ordered_requests now rows)
  ∧ ordered_requests now rows ≡ₚ rows.
Proof.
  split; [apply StronglySorted_merge_sort; apply _|apply merge_sort_Permutation].
Qed.

Lemma order_term_1_cases r :
  (order_term_1 r = 1 ∧ active r)
  ∨ (order_term_1 r = 2 ∧ pending_green r)
  ∨ (order_term_1 r = 3 ∧ is_completed r).
Proof.
  unfold order_term_1, active, pending_green, is_completed.
  destruct (status r); repeat case_bool_decide; naive_solver.
Qed.

Lemma order_term_1_active r : active r → order_term_1 r = 1.
Proof.
  unfold active, pending_green, is_completed. intros [Hs Hp].
  destruct (order_term_1_cases r) as [[? _]|[[_ [_ ?]]|[_ Hc]]]; try done.
  unfold is_completed in Hc. congruence.
Qed.

Lemma order_term_1_pending_green r : pending_green r → order_term_1 r = 2.
Proof.
  intros [Hs Hp].
  destruct (order_term_1_cases r) as [[_ [_ ?]]|[[? _]|[_ Hc]]]; try done.
  unfold is_completed in Hc. congruence.
Qed.

Lemma order_term_1_completed r : is_completed r → order_term_1 r = 3.
Proof.
  intros Hc. unfold is_completed in Hc.
  destruct (order_term_1_cases r) as [[_ [? _]]|[[_ [? _]]|[? _]]];
    congruence.
Qed.

Lemma order_by_term_1 now a b :
  order_by now a b → order_term_1 a ≤ order_term_1 b.
Proof. unfold order_by, sort_key. rewrite lex_leb_cons. lia. Qed.

Lemma filter_none {A} (P : A → Prop) `{∀ x, Decision (P x)} (l : list A) :
  Forall (λ x, ¬ P x) l → filter P l = [].
Proof.
  induction 1 as [|x l Hx _ IH]; [done|]. by rewrite filter_cons_False.
Qed.

(** A list sorted on a term with values 1, 2 and 3 is its three classes,
    one after the other. *)
Lemma sorted_three_tiers now (l : list echo_request) :
  StronglySorted (order_by now) l →
  l = filter active l ++ filter pending_green l ++ filter is_completed l.
Proof.
  induction 1 as [|x l Hl IH Hx]; [done|].
  assert (Hge : Forall (λ y, order_term_1 x ≤ order_term_1 y) l).
  { eapply Forall_impl; [exact Hx|]. intros y. apply order_by_term_1. }
  destruct (order_term_1_cases x) as [[H1 Ha]|[[H2 Hg]|[H3 Hc]]].
  - rewrite (filter_cons_True active) by done.
    rewrite (filter_cons_False pending_green), (filter_cons_False is_completed).
    + simpl. by f_equal.
    + intros Hc. apply order_term_1_completed in Hc. lia.
    + intros Hg. apply order_term_1_pending_green in Hg. lia.
  - assert (filter active l = []) as Hnil.
    { apply filter_none. eapply Forall_impl; [exact Hge|].
      intros y Hy Ha. simpl in Hy. apply order_term_1_active in Ha. lia. }
    rewrite (filter_cons_False active), (filter_cons_True pending_green),
      (filter_cons_False is_completed); try done.
    + rewrite Hnil in *. simpl in *. by f_equal.
    + intros Hc. apply order_term_1_completed in Hc. lia.
    + intros Ha. apply order_term_1_active in Ha. lia.
  - assert (filter active l = []) as Hnil1.
    { apply filter_none. eapply Forall_impl; [exact Hge|].
      intros y Hy Ha. simpl in Hy. apply order_term_1_active in Ha. lia. }
    assert (filter pending_green l = []) as Hnil2.
    { apply filter_none. eapply Forall_impl; [exact Hge|].
      intros y Hy Ha. simpl in Hy. apply order_term_1_pending_green in Ha. lia. }
    rewrite (filter_cons_False active), (filter_cons_False pending_green),
      (filter_cons_True is_completed); try done.
    + rewrite Hnil1, Hnil2 in *. simpl in *. by f_equal.
    + intros Hg. apply order_term_1_pending_green in Hg. lia.
    + intros Ha. apply order_term_1_active in Ha. lia.
Qed.

Lemma StronglySorted_filter {A} (R : relation A) (P : A → Prop)
    `{∀ x, Decision (P x)} (l : list A) :
  StronglySorted R l → StronglySorted R (filter P l).
Proof.
  induction 1 as [|x l Hl IH Hx]; [constructor|].
  rewrite filter_cons. case_decide; [|done].
  constructor; [done|].
  apply Forall_forall. intros y Hy%list_elem_of_filter.
  rewrite Forall_forall in Hx. apply Hx. tauto.
Qed.

(** Within a class of rows, a finer relation takes the place of the order. *)
Lemma StronglySorted_within {A} (R R' : relation A) (P : A → Prop)
    (l : list A) :
  (∀ a b, P a → P b → R a b → R' a b) →
  Forall P l → StronglySorted R l → StronglySorted R' l.
Proof.
  intros HR HP. induction 1 as [|x l Hl IH Hx]; [constructor|].
  apply Forall_cons in HP as [HPx HP].
  constructor; [by apply IH|].
  rewrite Forall_forall in *. intros y Hy. apply HR; auto.
Qed.

Lemma Forall_filter_self {A} (P : A → Prop) `{∀ x, Decision (P x)}
    (l : list A) : Forall P (filter P l).
Proof. apply Forall_forall. intros x Hx%list_elem_of_filter. tauto. Qed.

(** Among active rows the order is ascending [time_left]. *)
Lemma order_by_active now a b :
  active a → active b → order_by now a b → sooner_due now a b.
Proof.
  intros [Hsa Hpa] [Hsb Hpb]. unfold order_by, sort_key, sooner_due.
  rewrite (order_term_1_active a), (order_term_1_active b) by done.
  unfold order_term_2, order_term_3, time_left, julianday.
  rewrite Hsa, Hsb.
  rewrite !(bool_decide_eq_false_2 (pending = completed)) by done.
  rewrite !(bool_decide_eq_false_2 (_ ∈ [GREEN; REJECTED])) by done.
  rewrite !(bool_decide_eq_true_2 (pending = pending)) by done.
  rewrite !(bool_decide_eq_false_2 (_ ∈ [GREEN])) by set_solver.
  destruct (expected_time a) as [ea|], (expected_time b) as [eb|];
    simpl fmap; cbn -[lex_leb]; rewrite ?lex_leb_cons; try done; lia.
Qed.

(** Among completed rows it is descending [completion_time]. *)
Lemma order_by_completed now a b :
  is_completed a → is_completed b → order_by now a b → completed_later a b.
Proof.
  unfold is_completed. intros Hsa Hsb.
  unfold order_by, sort_key, completed_later.
  rewrite (order_term_1_completed a), (order_term_1_completed b) by done.
  unfold order_term_2, order_term_3. rewrite Hsa, Hsb.
  rewrite !(bool_decide_eq_true_2 (completed = completed)) by done.
  destruct (completion_time a) as [[wa [oa|]]|],
           (completion_time b) as [[wb [ob|]]|];
    cbn -[lex_leb]; repeat case_match; cbn -[lex_leb];
    rewrite ?lex_leb_cons; try done; lia.
Qed.

(** What holds of every list that has the rows in an order the query
    allows. *)
Lemma order_by_tiers now rows out :
  out ≡ₚ rows → StronglySorted (order_by now) out →
  out = filter active out ++ filter pending_green out ++ filter is_completed out
  ∧ filter active out ≡ₚ filter active rows
  ∧ filter pending_green out ≡ₚ filter pending_green rows
  ∧ filter is_completed out ≡ₚ filter is_completed rows
  ∧ StronglySorted (sooner_due now) (filter active out)
  ∧ StronglySorted completed_later (filter is_completed out).
Proof.
  intros Hperm Hsorted.
  split; [by eapply sorted_three_tiers|].
  split; [by rewrite Hperm|]. split; [by rewrite Hperm|].
  split; [by rewrite Hperm|]. split.
  - eapply (StronglySorted_within (order_by now) _ active).
    + apply order_by_active.
    + apply Forall_filter_self.
    + by apply StronglySorted_filter.
  - eapply (StronglySorted_within (order_by now) _ is_completed).
    + apply order_by_completed.
    + apply Forall_filter_self.
    + by apply StronglySorted_filter.
Qed.

(** C2, as the code has it: [get_requests] returns all rows (REJECTED shown
    as GREEN) in three tiers.  First the pending rows whose pathway is
    neither GREEN nor REJECTED, ascending by [expected_time - now]; then
    the pending GREEN and REJECTED rows; last every completed row, GREEN and
    REJECTED included, descending by [completion_time]. *)
Theorem get_requests_tiers now rows :
  let out := ordered_requests now rows in
  get_requests now rows = displayed <$> out
  ∧ out ≡ₚ rows
  ∧ out = filter active out ++ filter pending_green out ++ filter is_completed out
  ∧ filter active out ≡ₚ filter active rows
  ∧ filter pending_green out ≡ₚ filter pending_green rows
  ∧ filter is_completed out ≡ₚ filter is_completed rows
  ∧ StronglySorted (sooner_due now) (filter active out)
  ∧ StronglySorted completed_later (filter is_completed out).
Proof.
  intros out. destruct (ordered_requests_sorted now rows) as [Hs Hp].
  split; [done|]. split; [done|]. by apply order_by_tiers.
Qed.

(** C2 as stated fails on a completed GREEN request.  A GREEN and an AMBER
    request are made, the GREEN one is completed at 10:00 and the AMBER one
    at 11:00.  The specification puts the GREEN row (tier 2) before the
    completed AMBER row (tier 3); the query returns the AMBER row first,
    both being completed rows ordered by [completion_time]. *)
Lemma completed_green_is_in_the_last_tier :
  let day := Calendar.days_from_civil 2025 1 10 in
  let at_hour h := {| wall := day * DAY + h * HOUR; tzinfo := Some 0 |} in
  let clk h := {| local_now := DateTime (day * DAY + h * HOUR) None;
                  utc_now := day * DAY + h * HOUR |} in
  let body p := Some (AddRequestJson (Some p) (Some (Some (at_hour 9)))
                        None None None) in
  let rows :=
    echo_requests
      (run ∅ [AddRequest (clk 9) (body "GREEN PATHWAY"%string);
              AddRequest (clk 9) (body "AMBER PATHWAY"%string);
              MarkCompleted (clk 10) (Some 1);
              MarkCompleted (clk 11) (Some 2)] empty_db).2 in
  let out := ordered_requests (local_now (clk 12)) rows in
  pathway <$> rows = [GREEN; AMBER]
  ∧ status <$> rows = [completed; completed]
  ∧ pathway <$> out = [AMBER; GREEN]
  ∧ Spec.tier <$> out = [3; 2]
  ∧ ¬ StronglySorted (λ a b, Spec.tier a ≤ Spec.tier b) out.
Proof.
  intros day at_hour clk body rows out.
  assert (Hout : Spec.tier <$> out = [3; 2]) by by vm_compute.
  split; [by vm_compute|]. split; [by vm_compute|]. split; [by vm_compute|].
  split; [exact Hout|].
  intros Hs. destruct out as [|a [|b out']]; try discriminate Hout.
  injection Hout as Ha Hb _.
  apply StronglySorted_cons in Hs as [Hab _].
  apply Forall_cons in Hab as [Hab _]. lia.
Qed.

(** The order the specification expects for its own example holds: a
    completed AMBER row, a pending RED row due before a pending PURPLE row,
    and a pending GREEN row come out as RED, PURPLE, GREEN, AMBER. *)
Example get_requests_example :
  let day := Calendar.days_from_civil 2025 1 13 in
  let at_hour h := {| wall := day * DAY + h * HOUR; tzinfo := Some 0 |} in
  let clk h := {| local_now := DateTime (day * DAY + h * HOUR) None;
                  utc_now := day * DAY + h * HOUR |} in
  let body p h := Some (AddRequestJson (Some p) (Some (Some (at_hour h)))
                          None None None) in
  let rows :=
    echo_requests
      (run ∅ [AddRequest (clk 9) (body "AMBER PATHWAY"%string 9);
              AddRequest (clk 9) (body "PURPLE PATHWAY"%string 40);
              AddRequest (clk 9) (body "RED PATHWAY"%string 9);
              AddRequest (clk 9) (body "GREEN PATHWAY"%string 9);
              MarkCompleted (clk 10) (Some 1)] empty_db).2 in
  pathway <$> get_requests (local_now (clk 12)) rows
  = [RED; PURPLE; GREEN; AMBER].
Proof. by vm_compute. Qed.

(** The third term of the order reads a GREEN or REJECTED row's identifier
    with [CAST(request_id AS INTEGER)], which stops at the dot. *)
Example cast_request_id :
  Text.cast_integer "25.0002" = 25 ∧ Text.cast_integer "25.0001" = 25.
Proof. by vm_compute. Qed.

(** ** Request identifiers as text *)

Section request_id_text.
Local Open Scope string_scope.

Lemma compare_lt_trans (a b c : string) :
  String.compare a b = Lt → String.compare b c = Lt → String.compare a c = Lt.
Proof.
  intros Hab Hbc.
  apply OrderedTypeEx.String_as_OT.cmp_lt in Hab, Hbc.
  apply OrderedTypeEx.String_as_OT.cmp_lt.
  by eapply OrderedTypeEx.String_as_OT.lt_trans.
Qed.

Lemma ascii_compare_refl (c : ascii) : Ascii.compare c c = Eq.
Proof. unfold Ascii.compare. apply N.compare_refl. Qed.

Lemma compare_refl (a : string) : String.compare a a = Eq.
Proof.
  induction a as [|c a IH]; [done|]. simpl. by rewrite ascii_compare_refl.
Qed.

Lemma compare_app (p x y : string) :
  String.compare (p ++ x) (p ++ y) = String.compare x y.
Proof.
  induction p as [|c p IH]; [done|]. simpl. by rewrite ascii_compare_refl.
Qed.

Lemma prefix_app (p q : string) : String.prefix p (p ++ q) = true.
Proof.
  induction p as [|c p IH]; simpl; [by destruct q|].
  destruct (ascii_dec c c); [done|congruence].
Qed.

Lemma append_assoc (a b c : string) : (a ++ b) ++ c = a ++ (b ++ c).
Proof.
  induction a as [|x a IH]; [done|].
  change ((String x a ++ b) ++ c) with (String x ((a ++ b) ++ c)).
  change (String x a ++ b ++ c) with (String x (a ++ b ++ c)).
  by f_equal.
Qed.

(** A statement checked on every number from 0 below [n]. *)
Lemma holds_from_spec (P : Z → bool) (n : nat) (i : Z) :
  holds_from P n i = true → ∀ k, i ≤ k < i + Z.of_nat n → P k = true.
Proof.
  revert i. induction n as [|n IH]; intros i; simpl; [lia|].
  intros [Hi Hrest]%andb_true_iff k Hk.
  destruct (decide (k = i)) as [->|Hne]; [done|].
  apply (IH (i + 1)); [done|lia].
Qed.

Lemma checked_below (P : Z → bool) (n : Z) :
  holds_from P (Z.to_nat n) 0 = true → ∀ i, 0 ≤ i < n → P i = true.
Proof.
  intros Hall i Hi. apply (holds_from_spec P (Z.to_nat n) 0); [done|lia].
Qed.

Lemma split_no_dot (p q : string) :
  no_dot p = true →
  Text.split "." (p ++ String "." q) = p :: Text.split "." q.
Proof.
  induction p as [|c p IH]; simpl; [done|].
  intros [Hc Hp]%andb_true_iff. apply negb_true_iff in Hc. rewrite Hc.
  by rewrite IH.
Qed.

Lemma year_no_dot yy : 0 ≤ yy < 100 → no_dot (Text.str yy) = true.
Proof.
  apply (checked_below (λ yy, no_dot (Text.str yy))). by vm_compute.
Qed.

(** Reading back the sequence number of a four-digit rendering. *)
Lemma four_digits_read n :
  0 ≤ n < 10000 →
  head (Text.split "." (four_digits n)) ≫= Text.int = Some n.
Proof.
  intros Hn.
  assert (H : (match head (Text.split "." (four_digits n)) ≫= Text.int with
               | Some m => (m =? n)%Z | None => false end) = true).
  { revert n Hn.
    apply (checked_below
             (λ n, match head (Text.split "." (four_digits n)) ≫= Text.int
                   with Some m => (m =? n)%Z | None => false end)).
    by vm_compute. }
  destruct (_ ≫= _) as [m|]; [|done]. apply Z.eqb_eq in H. by subst.
Qed.

Lemma four_digits_succ n :
  0 ≤ n < 9999 →
  String.compare (four_digits n) (four_digits (n + 1)) = Lt.
Proof.
  intros Hn.
  assert (H : (match String.compare (four_digits n) (four_digits (n + 1)) with
               | Lt => true | _ => false end) = true).
  { revert n Hn.
    apply (checked_below
             (λ n, match String.compare (four_digits n) (four_digits (n + 1))
                   with Lt => true | _ => false end)).
    by vm_compute. }
  by destruct (String.compare _ _).
Qed.

(** Four-digit renderings are ordered, as text, like the numbers. *)
Lemma four_digits_lt a b :
  0 ≤ a → a < b → b < 10000 →
  String.compare (four_digits a) (four_digits b) = Lt.
Proof.
  intros Ha Hab Hb.
  assert (∀ k : nat, a + 1 + Z.of_nat k < 10000 →
            String.compare (four_digits a) (four_digits (a + 1 + Z.of_nat k))
            = Lt) as Hk.
  { induction k as [|k IH]; intros Hlt.
    - rewrite Z.add_0_r. apply four_digits_succ. lia.
    - eapply compare_lt_trans; [apply IH; lia|].
      replace (a + 1 + Z.of_nat (S k)) with (a + 1 + Z.of_nat k + 1) by lia.
      apply four_digits_succ. lia. }
  specialize (Hk (Z.to_nat (b - a - 1))).
  replace (a + 1 + Z.of_nat (Z.to_nat (b - a - 1))) with b in Hk by lia.
  apply Hk. lia.
Qed.

Lemma format_request_id_ltb yy a b :
  0 ≤ a < 10000 → 0 ≤ b < 10000 →
  String.ltb (format_request_id yy a) (format_request_id yy b) = (a <? b)%Z.
Proof.
  intros Ha Hb. unfold String.ltb, format_request_id.
  rewrite !compare_app. fold (four_digits a) (four_digits b).
  destruct (Z.ltb_spec a b) as [Hlt|Hge].
  - by rewrite four_digits_lt by lia.
  - destruct (decide (a = b)) as [->|Hne]; [by rewrite compare_refl|].
    rewrite String.compare_antisym, (four_digits_lt b a) by lia. done.
Qed.

Lemma like_year_format yy n : like_year yy (format_request_id yy n) = true.
Proof.
  unfold like_year, format_request_id.
  rewrite <- append_assoc. apply prefix_app.
Qed.

(** The sequence number read from an identifier of the year. *)
Lemma format_request_id_read yy n :
  0 ≤ yy < 100 → 0 ≤ n < 10000 →
  Text.split "." (format_request_id yy n) !! 1%nat ≫= Text.int = Some n.
Proof.
  intros Hyy Hn. unfold format_request_id.
  change ("." ++ ?s) with (String "." s).
  rewrite split_no_dot by by apply year_no_dot.
  change (Text.zfill 4 (Text.str n)) with (four_digits n).
  pose proof (four_digits_read n Hn) as Hread.
  by destruct (Text.split "." (four_digits n)) as [|p ps].
Qed.

End request_id_text.

(** ** [get_next_request_id] *)

Lemma greatest_elem_of l m : Text.greatest l = Some m → m ∈ l.
Proof.
  revert m. induction l as [|s l IH]; intros m; simpl; [done|].
  destruct (Text.greatest l) as [m'|].
  - destruct (String.ltb s m'); intros [= <-]; [right; by apply IH|left].
  - intros [= <-]. left.
Qed.

Lemma greatest_None l : Text.greatest l = None → l = [].
Proof.
  destruct l as [|s l]; simpl; [done|].
  destruct (Text.greatest l); [by destruct (String.ltb _ _)|done].
Qed.

Lemma ltb_false_eq (a b : string) :
  String.ltb a b = false → String.ltb b a = false → a = b.
Proof.
  unfold String.ltb. rewrite (String.compare_antisym a b).
  destruct (String.compare b a) eqn:Hc; simpl; try done.
  intros _ _. symmetry. by apply String.compare_eq_iff.
Qed.

(** A member that no member exceeds is the one [ORDER BY ... DESC LIMIT 1]
    selects. *)
Lemma greatest_top l top :
  top ∈ l → (∀ s, s ∈ l → String.ltb top s = false) →
  Text.greatest l = Some top.
Proof.
  induction l as [|s l IH]; intros Hin Htop; [by apply elem_of_nil in Hin|].
  simpl. destruct (decide (top = s)) as [<-|Hne].
  - destruct (Text.greatest l) as [m|] eqn:Hm; [|done].
    rewrite Htop; [done|]. right. by apply greatest_elem_of.
  - apply elem_of_cons in Hin as [?|Hin]; [done|].
    rewrite IH; [|done|intros s' Hs'; apply Htop; by right].
    destruct (String.ltb s top) eqn:Hlt; [done|].
    exfalso. apply Hne. symmetry. apply ltb_false_eq; [done|].
    apply Htop. left.
Qed.

Lemma year_bounds (now : datetime) :
  0 ≤ Calendar.year_of (date_of now) mod 100 < 100.
Proof. apply Z.mod_pos_bound. lia. Qed.

Lemma greatest_numbered yy j d :
  0 < j < 10000 → numbered_up_to yy j d →
  Text.greatest (year_ids yy (echo_requests d))
  = Some (format_request_id yy j).
Proof.
  intros Hj [Hall Hlast]. apply greatest_top; [apply Hlast; lia|].
  intros s (n & Hn & ->)%Hall.
  rewrite format_request_id_ltb by lia. apply Z.ltb_ge. lia.
Qed.

(** With the year's identifiers numbered within 1..[j] and [j] among them,
    the next identifier is number [j + 1]; with no identifier of the year,
    it is number 1. *)
Lemma get_next_request_id_numbered now d j :
  let yy := Calendar.year_of (date_of now) mod 100 in
  0 ≤ j < 10000 → numbered_up_to yy j d →
  get_next_request_id now (echo_requests d)
  = Some (format_request_id yy (j + 1)).
Proof.
  intros yy Hj Hnum. unfold get_next_request_id. fold yy.
  fold (year_ids yy (echo_requests d)).
  destruct (decide (j = 0)) as [->|Hne].
  - destruct (Text.greatest _) as [m|] eqn:Hm; [|done].
    apply greatest_elem_of, (proj1 Hnum) in Hm as (n & ? & _). lia.
  - rewrite (greatest_numbered yy j) by (done || lia).
    pose proof (format_request_id_read yy j (year_bounds now) Hj) as Hread.
    destruct (Text.split "." (format_request_id yy j) !! 1%nat) as [p|];
      [|done].
    simpl in Hread. simpl. by rewrite Hread.
Qed.

(** ** Identifiers handed out along a run *)

Lemma update_where_id_request_ids set rid d :
  (∀ r, request_id (set r) = request_id r) →
  request_id <$> echo_requests (update_where_id set rid d)
  = request_id <$> echo_requests d.
Proof.
  intros Hset. simpl. rewrite <- list_fmap_compose.
  apply list_fmap_ext. intros _ r _. simpl. destruct (id r =? rid); auto.
Qed.

Lemma numbered_up_to_same_ids yy j d d' :
  request_id <$> echo_requests d' = request_id <$> echo_requests d →
  numbered_up_to yy j d → numbered_up_to yy j d'.
Proof. unfold numbered_up_to, year_ids. by intros ->. Qed.

Lemma elem_of_year_ids yy rows s :
  s ∈ year_ids yy rows ↔ like_year yy s = true ∧ ∃ r, r ∈ rows ∧ request_id r = s.
Proof.
  unfold year_ids. rewrite list_elem_of_In, List.filter_In, <- list_elem_of_In.
  rewrite list_elem_of_fmap. naive_solver.
Qed.

Lemma numbered_up_to_insert yy j r d :
  0 ≤ j → request_id r = format_request_id yy (j + 1) →
  numbered_up_to yy j d → numbered_up_to yy (j + 1) (insert_row r d).
Proof.
  intros Hj Hr [Hall Hlast]. split.
  - intros s (Hlike & r' & Hin & <-)%elem_of_year_ids. simpl in Hin.
    apply elem_of_app in Hin as [Hin|Hin%list_elem_of_singleton].
    + destruct (Hall (request_id r')) as (n & Hn & Hs).
      { apply elem_of_year_ids. eauto. }
      exists n. split; [lia|done].
    + subst r'. exists (j + 1). split; [lia|done].
  - intros _. apply elem_of_year_ids. split; [apply like_year_format|].
    exists r. split; [|done]. simpl. apply elem_of_app. right. left.
Qed.

Lemma numbered_up_to_delete yy j rid d :
  0 ≤ j < 10000 →
  (∀ r, r ∈ echo_requests d → id r = rid →
        Text.greatest (year_ids yy (echo_requests d)) ≠ Some (request_id r)) →
  numbered_up_to yy j d → numbered_up_to yy j (delete_where_id rid d).
Proof.
  intros Hj Hkeep Hnum. pose proof Hnum as [Hall Hlast]. split.
  - intros s (Hlike & r & Hin & <-)%elem_of_year_ids. apply Hall.
    apply elem_of_year_ids. split; [done|]. exists r. split; [|done].
    simpl in Hin. apply list_elem_of_In, List.filter_In in Hin as [Hin _].
    by apply list_elem_of_In.
  - intros Hpos.
    destruct (proj1 (elem_of_year_ids _ _ _) (Hlast Hpos))
      as (Hlike & r & Hin & Hr).
    apply elem_of_year_ids. split; [done|]. exists r. split; [|done].
    simpl. apply list_elem_of_In, List.filter_In. split; [by apply list_elem_of_In|].
    apply negb_true_iff, Z.eqb_neq. intros Hid.
    apply (Hkeep r Hin Hid). rewrite Hr. apply greatest_numbered; [lia|done].
Qed.

(** One request: either it hands out number [j + 1], or it hands out
    nothing and number [j] is still the latest. *)
Lemma handle_numbered holidays yy j op d :
  0 ≤ j < 9999 → in_year yy op → keeps_latest holidays yy [op] d →
  numbered_up_to yy j d →
  (new_request_id (handle holidays op d).1 = Some (format_request_id yy (j + 1))
   ∧ numbered_up_to yy (j + 1) (handle holidays op d).2)
  ∨ (new_request_id (handle holidays op d).1 = None
     ∧ numbered_up_to yy j (handle holidays op d).2).
Proof.
  intros Hj Hyear [Hkeep _] Hnum.
  destruct op as [clk data|clk [|[rid|]]|[|[rid|]]|[|[rid|]]|[|[rid|]] v
                  |[|[rid|]] v|[|[rid|]] v|[|[rid|]] v]; simpl;
    try (right; split; [done|]; first
           [ done
           | by eapply numbered_up_to_same_ids;
               [apply update_where_id_request_ids|] ]).
  - destruct (add_request_cases holidays clk data d) as [Hok|[-> ->]];
      [|by right].
    destruct (add_request holidays clk data d) as [resp d'] eqn:Hadd.
    apply add_request_success in Hadd
      as (? & ? & ? & ? & ? & p & rid & rt & _ & _ & Hid & _ & -> & ->);
      [|done].
    simpl in Hyear. subst yy.
    rewrite (get_next_request_id_numbered _ d j) in Hid by (done || lia).
    injection Hid as <-. left. split; [done|].
    apply numbered_up_to_insert; [lia|done|done].
  - right. split; [done|]. apply numbered_up_to_delete; [lia|done|done].
Qed.

Lemma run_cons_responses holidays op ops d :
  (run holidays (op :: ops) d).1
  = (handle holidays op d).1 :: (run holidays ops (handle holidays op d).2).1.
Proof.
  simpl. destruct (handle holidays op d) as [resp d1]. simpl.
  by destruct (run holidays ops d1).
Qed.

Lemma handed_out_cons resp resps :
  handed_out (resp :: resps)
  = match new_request_id resp with
    | Some s => s :: handed_out resps
    | None => handed_out resps
    end.
Proof. done. Qed.

Lemma run_numbered holidays yy ops : ∀ j d,
  0 ≤ j → j + Z.of_nat (length ops) < 10000 →
  Forall (in_year yy) ops → keeps_latest holidays yy ops d →
  numbered_up_to yy j d →
  ∃ k, 0 ≤ k ≤ Z.of_nat (length ops)
       ∧ handed_out (run holidays ops d).1
         = format_request_id yy <$> seqZ (j + 1) k
       ∧ numbered_up_to yy (j + k) (run holidays ops d).2.
Proof.
  induction ops as [|op ops IH]; intros j d Hj Hlen Hyear Hkeep Hnum.
  - exists 0. split; [simpl; lia|]. split; [by rewrite seqZ_nil|].
    by rewrite Z.add_0_r.
  - apply Forall_cons in Hyear as [Hop Hyear].
    destruct Hkeep as [Hkeep1 Hkeep].
    rewrite run_cons, run_cons_responses. simpl length in Hlen.
    destruct (handle_numbered holidays yy j op d) as [[Hnew Hnum']|[Hnew Hnum']];
      [lia|done|by split|done|..].
    + destruct (IH (j + 1) (handle holidays op d).2) as (k & Hk & Hout & Hfin);
        [lia|lia|done|done|done|].
      exists (k + 1). split; [simpl length; lia|].
      rewrite handed_out_cons, Hnew, Hout.
      split.
      * rewrite (seqZ_cons (j + 1) (k + 1)) by lia. simpl.
        by replace (Z.pred (k + 1)) with k by lia.
      * by replace (j + (k + 1)) with (j + 1 + k) by lia.
    + destruct (IH j (handle holidays op d).2) as (k & Hk & Hout & Hfin);
        [lia|lia|done|done|done|].
      exists k. split; [simpl length; lia|].
      by rewrite handed_out_cons, Hnew, Hout.
Qed.

Lemma max_elem_of (ns : list Z) :
  ns ≠ [] → Forall (λ n, 1 ≤ n) ns → foldr Z.max 0 ns ∈ ns.
Proof.
  induction 2 as [|n ns Hn Hns IH]; [done|]. simpl.
  destruct ns as [|n' ns].
  - simpl. replace (n `max` 0) with n by lia. left.
  - destruct (Z.max_spec n (foldr Z.max 0 (n' :: ns))) as [[_ ->]|[_ ->]];
      [right; by apply IH|left].
Qed.

Lemma max_upper_bound (ns : list Z) n : n ∈ ns → n ≤ foldr Z.max 0 ns.
Proof. induction 1; simpl; lia. Qed.

Lemma max_below (ns : list Z) b :
  0 ≤ b → Forall (λ n, n ≤ b) ns → 0 ≤ foldr Z.max 0 ns ≤ b.
Proof. intros Hb. induction 1; simpl; lia. Qed.

Lemma numbered_of_list yy rows ns :
  year_ids yy rows = format_request_id yy <$> ns →
  Forall (λ n, 1 ≤ n ≤ 9999) ns →
  numbered_up_to yy (foldr Z.max 0 ns) (Db rows 0).
Proof.
  intros Hids Hns. split; simpl; rewrite Hids.
  - intros s (n & -> & Hn)%list_elem_of_fmap. exists n. split; [|done].
    rewrite Forall_forall in Hns. pose proof (Hns n Hn).
    pose proof (max_upper_bound ns n Hn). lia.
  - intros Hpos. apply list_elem_of_fmap_2. apply max_elem_of.
    + by intros ->.
    + eapply Forall_impl; [exact Hns|]. simpl. lia.
Qed.

(** C4, as the code has it.  The first request of a year gets number 1.
    A later one gets the greatest number among the year's identifiers still
    in the table, plus 1 (numbers of four digits).  So in a run of fewer
    than 10000 requests of one year, started without identifiers of that
    year, in which no deletion removes the row holding the year's greatest
    identifier at that moment, the numbers handed out are 1, 2, 3, ...
    without gap or repetition, whatever else is deleted in between. *)
Theorem request_ids_gapless holidays :
  (∀ now rows,
     let yy := Calendar.year_of (date_of now) mod 100 in
     year_ids yy rows = [] →
     get_next_request_id now rows = Some (format_request_id yy 1))
  ∧ (∀ now rows ns,
       let yy := Calendar.year_of (date_of now) mod 100 in
       year_ids yy rows = format_request_id yy <$> ns →
       Forall (λ n, 1 ≤ n ≤ 9999) ns →
       get_next_request_id now rows
       = Some (format_request_id yy (foldr Z.max 0 ns + 1)))
  ∧ (∀ yy ops d,
       year_ids yy (echo_requests d) = [] →
       Z.of_nat (length ops) < 10000 →
       Forall (in_year yy) ops →
       keeps_latest holidays yy ops d →
       ∃ k, 0 ≤ k ≤ Z.of_nat (length ops)
            ∧ handed_out (run holidays ops d).1
              = format_request_id yy <$> seqZ 1 k).
Proof.
  assert (Hlist : ∀ now rows ns,
       let yy := Calendar.year_of (date_of now) mod 100 in
       year_ids yy rows = format_request_id yy <$> ns →
       Forall (λ n, 1 ≤ n ≤ 9999) ns →
       get_next_request_id now rows
       = Some (format_request_id yy (foldr Z.max 0 ns + 1))).
  { intros now rows ns yy Hids Hns.
    apply (get_next_request_id_numbered now (Db rows 0)).
    - assert (0 ≤ foldr Z.max 0 ns ≤ 9999); [|lia].
      apply max_below; [lia|]. eapply Forall_impl; [exact Hns|]. simpl. lia.
    - by apply numbered_of_list. }
  split; [|split; [exact Hlist|]].
  - intros now rows yy Hids. by apply (Hlist now rows []).
  - intros yy ops d Hids Hlen Hyear Hkeep.
    destruct (run_numbered holidays yy ops 0 d) as (k & Hk & Hout & _);
      try done; try lia.
    { split; [|lia]. rewrite Hids. by intros s ?%elem_of_nil. }
    by exists k.
Qed.

Lemma request_ids_gapless_witness :
  let now := DateTime (Calendar.days_from_civil 2025 1 10 * DAY + 9 * HOUR) None in
  let clk := {| local_now := now; utc_now := wall now |} in
  let data := Some (AddRequestJson (Some "RED PATHWAY"%string)
                      (Some (Some now)) None None None) in
  ∃ k, 0 ≤ k ≤ 4
       ∧ handed_out
           (run ∅ [AddRequest clk data; AddRequest clk data;
                   DeleteRequest (Some 1); AddRequest clk data] empty_db).1
         = format_request_id 25 <$> seqZ 1 k.
Proof.
  intros now clk data.
  destruct (request_ids_gapless ∅) as (_ & _ & Hrun).
  apply (Hrun 25
           [AddRequest clk data; AddRequest clk data;
            DeleteRequest (Some 1); AddRequest clk data] empty_db).
  - reflexivity.
  - simpl. lia.
  - repeat constructor.
  - cbn [keeps_latest]. split_and!; try exact I.
    intros r Hr Hid.
    match type of Hr with
    | r ∈ echo_requests ?d =>
        let rows := eval vm_compute in (echo_requests d) in
        assert (Hrows : echo_requests d = rows) by (vm_compute; reflexivity)
    end.
    rewrite Hrows in Hr |- *.
    apply elem_of_cons in Hr as [->|Hr].
    + by vm_compute.
    + apply list_elem_of_singleton in Hr as ->. cbn in Hid. discriminate Hid.
Defined.

(** C4 as stated fails when the latest request of the year is deleted: two
    requests are made, the second is deleted, and the third request gets
    the number of the second again. *)
Lemma deleted_number_is_handed_out_again :
  let now := DateTime (Calendar.days_from_civil 2025 1 10 * DAY + 9 * HOUR) None in
  let clk := {| local_now := now; utc_now := wall now |} in
  let data := Some (AddRequestJson (Some "RED PATHWAY"%string)
                      (Some (Some now)) None None None) in
  let out :=
    handed_out
      (run ∅ [AddRequest clk data; AddRequest clk data;
              DeleteRequest (Some 2); AddRequest clk data] empty_db).1 in
  out = ["25.0001"; "25.0002"; "25.0002"]%string ∧ ¬ NoDup out.
Proof.
  intros now clk data out.
  assert (Hout : out = ["25.0001"; "25.0002"; "25.0002"]%string)
    by by vm_compute.
  split; [exact Hout|]. rewrite Hout. intros Hnd.
  apply NoDup_cons in Hnd as [_ Hnd]. apply NoDup_cons in Hnd as [Hnot _].
  apply Hnot. left.
Qed.

(** Past number 9999 the text order of identifiers is no longer the order
    of the numbers: with 25.9999 and 25.10000 in the table, the next
    identifier is 25.10000 once more. *)
Example request_id_after_9999 :
  let now := DateTime (Calendar.days_from_civil 2025 1 10 * DAY) None in
  let row rid := {| id := 1; request_id := rid; pathway := GREEN;
                    request_time := now; expected_time := Some now;
                    status := pending; triage_date := 0;
                    completion_time := None;
                    notes := ""; name := ""; mrn := ""; ward := "" |} in
  get_next_request_id now [row "25.9999"; row "25.10000"]%string
  = Some "25.10000"%string.
Proof. by vm_compute. Qed.

(** * Further properties *)

(** ** The deadline calculator *)

Lemma add_hours_add c a b : add_hours (add_hours c a) b = add_hours c (a + b).
Proof. unfold add_hours. simpl. f_equal. lia. Qed.

Lemma add_hours_0 c : add_hours c 0 = c.
Proof. destruct c. unfold add_hours. simpl. f_equal. lia. Qed.

Lemma working_steps_range holidays c k :
  0 ≤ working_steps holidays c k ≤ Z.of_nat k.
Proof.
  revert c. induction k as [|k IH]; intros c; simpl; [lia|].
  specialize (IH (add_hours c 1)). destruct (working _ _); lia.
Qed.

Lemma working_steps_S holidays c k :
  working_steps holidays c (S k)
  = working_steps holidays c k
    + (if working holidays (add_hours c (Z.of_nat (S k))) then 1 else 0).
Proof.
  revert c. induction k as [|k IH]; intros c.
  - cbn [working_steps Z.of_nat Pos.of_succ_nat].
    destruct (working _ _); lia.
  - change (working_steps holidays c (S (S k)))
      with ((if working holidays (add_hours c 1) then 1 else 0)
            + working_steps holidays (add_hours c 1) (S k)).
    rewrite IH, add_hours_add. simpl working_steps.
    replace (1 + Z.of_nat (S k)) with (Z.of_nat (S (S k))) by lia. lia.
Qed.

Lemma working_steps_mono holidays c k k' :
  (k ≤ k')%nat → working_steps holidays c k ≤ working_steps holidays c k'.
Proof.
  induction 1 as [|k' _ IH]; [lia|]. rewrite working_steps_S.
  destruct (working _ _); lia.
Qed.

(** What the loop computes: it stops at the first step at which the
    wanted number of working hours has gone by. *)
Lemma working_hours_loop_spec holidays n c r res :
  working_hours_loop holidays n c r = Some res → 0 < r →
  ∃ k : nat,
    (1 ≤ k ≤ n)%nat
    ∧ res = add_hours c (Z.of_nat k)
    ∧ working_steps holidays c k = r
    ∧ working holidays res = true.
Proof.
  revert c r. induction n as [|n IH]; intros c r; simpl.
  - destruct (Z.gtb_spec r 0); [done|lia].
  - destruct (Z.gtb_spec r 0) as [_|?]; [|lia].
    fold (working holidays (add_hours c 1)).
    destruct (working holidays (add_hours c 1)) eqn:Hw; intros Hres Hr.
    + destruct (decide (r = 1)) as [->|Hne].
      * rewrite working_hours_loop_nonpositive in Hres by lia.
        injection Hres as <-. exists 1%nat. simpl. rewrite Hw.
        split; [lia|]. split; [done|]. split; [lia|done].
      * apply IH in Hres as (k & Hk & -> & Hsteps & Hlast); [|lia].
        exists (S k). split; [lia|]. rewrite add_hours_add in *.
        replace (1 + Z.of_nat k) with (Z.of_nat (S k)) in * by lia.
        split; [done|]. split; [|done]. simpl. rewrite Hw. lia.
    + apply IH in Hres as (k & Hk & -> & Hsteps & Hlast); [|lia].
      exists (S k). split; [lia|]. rewrite add_hours_add in *.
      replace (1 + Z.of_nat k) with (Z.of_nat (S k)) in * by lia.
      split; [done|]. split; [|done]. simpl. rewrite Hw. lia.
Qed.

Lemma add_working_hours_uk_spec holidays start_date hours :
  0 < hours →
  ∃ k : nat,
    (1 ≤ k)%nat
    ∧ add_working_hours_uk holidays start_date hours
      = add_hours (tag_if_naive start_date) (Z.of_nat k)
    ∧ working_steps holidays (tag_if_naive start_date) k = hours
    ∧ working holidays (add_working_hours_uk holidays start_date hours) = true.
Proof.
  intros Hh.
  destruct (working_hours_loop_spec _ _ _ _ _
              (add_working_hours_uk_returns holidays start_date hours) Hh)
    as (k & Hk & Hres & Hsteps & Hlast).
  exists k. split; [lia|]. by rewrite <- Hres.
Qed.

(** X1: for a positive number of hours the deadline falls on a working
    day: its date is neither a Saturday, nor a Sunday, nor a bank holiday. *)
Theorem add_working_hours_uk_working_day holidays start_date hours :
  0 < hours →
  let d := date_of (add_working_hours_uk holidays start_date hours) in
  is_weekend_or_bank_holiday holidays d = false
  ∧ Calendar.weekday d ≠ 5 ∧ Calendar.weekday d ≠ 6 ∧ d ∉ holidays.
Proof.
  intros Hh d.
  destruct (add_working_hours_uk_spec holidays start_date hours Hh)
    as (k & _ & _ & _ & Hw).
  unfold working in Hw. apply negb_true_iff in Hw. fold d in Hw.
  split; [done|]. unfold is_weekend_or_bank_holiday in Hw.
  apply orb_false_iff in Hw as [[H5 H6]%orb_false_iff Hh'].
  apply Z.eqb_neq in H5, H6. by apply bool_decide_eq_false in Hh'.
Qed.

Lemma add_working_hours_uk_working_day_witness :
  is_weekend_or_bank_holiday {[ 20101 ]}
    (date_of (add_working_hours_uk {[ 20101 ]}
                {| wall := 20098 * DAY + 23 * HOUR; tzinfo := None |} 1))
  = false.
Proof.
  destruct (add_working_hours_uk_working_day {[ 20101 ]}
              {| wall := 20098 * DAY + 23 * HOUR; tzinfo := None |} 1)
    as [H _]; [lia|exact H].
Defined.

(** X2: the deadline is the start moved forward by a whole number of
    hours, at least as many as were asked for, in the time zone of the
    start; with nothing to add it is the start itself. *)
Theorem add_working_hours_uk_whole_hours holidays start_date hours :
  ∃ k : Z,
    Z.max 0 hours ≤ k
    ∧ (hours ≤ 0 → k = 0)
    ∧ add_working_hours_uk holidays start_date hours
      = {| wall := wall start_date + k * HOUR;
           tzinfo := tzinfo (tag_if_naive start_date) |}.
Proof.
  destruct (decide (0 < hours)) as [Hh|Hh].
  - destruct (add_working_hours_uk_spec holidays start_date hours Hh)
      as (k & Hk & -> & Hsteps & _).
    exists (Z.of_nat k).
    pose proof (working_steps_range holidays (tag_if_naive start_date) k).
    split; [lia|]. split; [lia|].
    unfold add_hours. by rewrite tag_if_naive_wall.
  - exists 0. split; [lia|]. split; [done|].
    rewrite add_working_hours_uk_nonpositive_eq by lia.
    destruct (tag_if_naive start_date) as [w tz] eqn:Ht.
    pose proof (tag_if_naive_wall start_date) as Hw. rewrite Ht in Hw.
    simpl in *. f_equal. lia.
Qed.

(** X3: the deadline is reached exactly when the wanted number of working
    hours has gone by: of the hourly steps from the start to the deadline,
    [hours] land on a working day, and no earlier step has that many
    behind it. *)
Theorem add_working_hours_uk_counts holidays start_date hours :
  0 < hours →
  ∃ k : nat,
    add_working_hours_uk holidays start_date hours
    = add_hours (tag_if_naive start_date) (Z.of_nat k)
    ∧ working_steps holidays (tag_if_naive start_date) k = hours
    ∧ ∀ k' : nat, (k' < k)%nat →
        working_steps holidays (tag_if_naive start_date) k' < hours.
Proof.
  intros Hh.
  destruct (add_working_hours_uk_spec holidays start_date hours Hh)
    as (k & Hk & Hres & Hsteps & Hlast).
  exists k. split; [done|]. split; [done|]. intros k' Hk'.
  destruct k as [|k]; [lia|].
  rewrite working_steps_S in Hsteps. rewrite Hres in Hlast.
  rewrite Hlast in Hsteps.
  pose proof (working_steps_mono holidays (tag_if_naive start_date) k' k).
  lia.
Qed.

Lemma add_working_hours_uk_counts_witness :
  ∃ k : nat,
    add_working_hours_uk ∅ {| wall := 20098 * DAY + 23 * HOUR; tzinfo := Some 0 |} 2
    = add_hours {| wall := 20098 * DAY + 23 * HOUR; tzinfo := Some 0 |} (Z.of_nat k)
    ∧ working_steps ∅ {| wall := 20098 * DAY + 23 * HOUR; tzinfo := Some 0 |} k = 2.
Proof.
  destruct (add_working_hours_uk_counts ∅
              {| wall := 20098 * DAY + 23 * HOUR; tzinfo := Some 0 |} 2)
    as (k & H1 & H2 & _); [lia|].
  exists k. split; [exact H1|exact H2].
Defined.

Lemma working_hours_loop_split holidays n m c a b mid res :
  0 ≤ b →
  working_hours_loop holidays n c a = Some mid →
  working_hours_loop holidays m mid b = Some res →
  working_hours_loop holidays (n + m) c (Z.max 0 a + b) = Some res.
Proof.
  intros Hb. revert c a. induction n as [|n IH]; intros c a; simpl.
  - destruct (Z.gtb_spec a 0); [done|]. intros [= <-] Hres.
    by replace (Z.max 0 a + b) with b by lia.
  - destruct (Z.gtb_spec a 0) as [Ha|Ha].
    + destruct (Z.gtb_spec (Z.max 0 a + b) 0); [|lia].
      destruct (negb _); intros Hmid Hres.
      * replace (Z.max 0 a + b - 1) with (Z.max 0 (a - 1) + b) by lia.
        by apply IH.
      * by apply IH.
    + intros [= <-] Hres. replace (Z.max 0 a + b) with b by lia.
      apply (working_hours_loop_more_fuel _ m (S (n + m))) in Hres; [|lia].
      exact Hres.
Qed.

Lemma tag_if_naive_idem t : tag_if_naive (tag_if_naive t) = tag_if_naive t.
Proof.
  destruct (tag_if_naive_aware t) as [off Hoff].
  unfold tag_if_naive at 1. by rewrite Hoff.
Qed.

Lemma add_working_hours_uk_tagged holidays t hours :
  tag_if_naive (add_working_hours_uk holidays t hours)
  = add_working_hours_uk holidays t hours.
Proof.
  unfold tag_if_naive at 1. rewrite add_working_hours_uk_tzinfo.
  by destruct (tag_if_naive_aware t) as [off ->].
Qed.

Lemma add_working_hours_uk_add holidays t a b :
  0 ≤ a → 0 ≤ b →
  add_working_hours_uk holidays (add_working_hours_uk holidays t a) b
  = add_working_hours_uk holidays t (a + b).
Proof.
  intros Ha Hb. symmetry.
  eapply add_working_hours_uk_eq.
  replace (a + b) with (Z.max 0 a + b) by lia.
  pose proof (add_working_hours_uk_returns holidays
                (add_working_hours_uk holidays t a) b) as Hsecond.
  rewrite add_working_hours_uk_tagged in Hsecond.
  eapply working_hours_loop_split;
    [done|apply add_working_hours_uk_returns|exact Hsecond].
Qed.

(** X4: working hours add up: the deadline [b] working hours after the
    deadline of [a] working hours is the deadline of [a + b] working
    hours. *)
Theorem add_working_hours_uk_additive holidays t a b :
  0 ≤ a → 0 ≤ b →
  add_working_hours_uk holidays (add_working_hours_uk holidays t a) b
  = add_working_hours_uk holidays t (a + b).
Proof. apply add_working_hours_uk_add. Qed.

Lemma add_working_hours_uk_additive_witness :
  let t := {| wall := 20098 * DAY + 9 * HOUR; tzinfo := None |} in
  add_working_hours_uk {[ 20101 ]} (add_working_hours_uk {[ 20101 ]} t 24) 48
  = add_working_hours_uk {[ 20101 ]} t (24 + 48).
Proof.
  intros t. apply (add_working_hours_uk_additive {[ 20101 ]} t 24 48); lia.
Defined.

Lemma add_working_hours_uk_wall_le holidays t hours :
  wall t ≤ wall (add_working_hours_uk holidays t hours).
Proof.
  destruct (decide (0 < hours)) as [Hh|Hh].
  - destruct (add_working_hours_uk_spec holidays t hours Hh)
      as (k & Hk & -> & _).
    simpl. rewrite tag_if_naive_wall. unfold HOUR. lia.
  - rewrite add_working_hours_uk_nonpositive_eq by lia.
    by rewrite tag_if_naive_wall.
Qed.

(** X5: more working hours never give an earlier deadline. *)
Theorem add_working_hours_uk_monotone holidays t a b :
  a ≤ b →
  wall (add_working_hours_uk holidays t a)
  ≤ wall (add_working_hours_uk holidays t b).
Proof.
  intros Hab. destruct (decide (0 ≤ a)) as [Ha|Ha].
  - replace b with (a + (b - a)) by lia.
    rewrite <- add_working_hours_uk_add by lia.
    apply add_working_hours_uk_wall_le.
  - rewrite (add_working_hours_uk_nonpositive_eq holidays t a) by lia.
    rewrite tag_if_naive_wall. apply add_working_hours_uk_wall_le.
Qed.

Lemma add_working_hours_uk_monotone_witness :
  let t := {| wall := 20098 * DAY + 9 * HOUR; tzinfo := None |} in
  wall (add_working_hours_uk ∅ t 24) ≤ wall (add_working_hours_uk ∅ t 72).
Proof.
  intros t. apply (add_working_hours_uk_monotone ∅ t 24 72). lia.
Defined.

Lemma working_hours_loop_plain holidays (k : nat) c :
  (∀ i, 1 ≤ i ≤ Z.of_nat k → working holidays (add_hours c i) = true) →
  working_hours_loop holidays k c (Z.of_nat k)
  = Some (add_hours c (Z.of_nat k)).
Proof.
  revert c. induction k as [|k IH]; intros c Hall.
  - simpl. by rewrite add_hours_0.
  - cbn [working_hours_loop].
    destruct (Z.gtb_spec (Z.of_nat (S k)) 0); [|lia].
    fold (working holidays (add_hours c 1)). rewrite Hall by lia.
    replace (Z.of_nat (S k) - 1) with (Z.of_nat k) by lia.
    rewrite IH.
    + rewrite add_hours_add. do 2 f_equal. lia.
    + intros i Hi. rewrite add_hours_add. apply Hall. lia.
Qed.

(** X6: when none of the next [hours] hourly steps lands on a weekend or
    holiday, the deadline is the start plus [hours] hours. *)
Theorem add_working_hours_uk_plain holidays start_date hours :
  0 ≤ hours →
  (∀ i, 1 ≤ i ≤ hours →
     is_weekend_or_bank_holiday holidays
       (date_of (add_hours (tag_if_naive start_date) i)) = false) →
  add_working_hours_uk holidays start_date hours
  = add_hours (tag_if_naive start_date) hours.
Proof.
  intros Hh Hall.
  apply (add_working_hours_uk_eq _ _ _ (Z.to_nat hours)).
  rewrite <- (Z2Nat.id hours) at 2 3 by done.
  apply working_hours_loop_plain. intros i Hi. unfold working.
  rewrite Hall; [done|lia].
Qed.

Lemma add_working_hours_uk_plain_witness :
  let monday_0900 := {| wall := 20101 * DAY + 9 * HOUR; tzinfo := Some 0 |} in
  add_working_hours_uk ∅ monday_0900 24
  = {| wall := 20102 * DAY + 9 * HOUR; tzinfo := Some 0 |}.
Proof.
  intros monday_0900.
  rewrite (add_working_hours_uk_plain ∅ monday_0900 24); [reflexivity|lia|].
  intros i Hi. apply negb_true_iff.
  apply (holds_from_spec
           (λ i, negb (is_weekend_or_bank_holiday ∅
                         (date_of (add_hours (tag_if_naive monday_0900) i))))
           24 1); [by vm_compute|lia].
Defined.

(** ** Normalising and storing times *)

(** X7: [convert_to_uk_time] gives an aware value that denotes the instant
    of its argument (a naive argument is read as UTC), changes nothing when
    applied a second time, and depends on the instant only: two arguments
    that denote the same instant, with whatever offsets, give the same
    value.  [None] stays [None]. *)
Theorem convert_to_uk_time_instant t :
  convert_to_uk_time None = None
  ∧ (∃ t', convert_to_uk_time (Some t) = Some t'
      ∧ is_Some (tzinfo t')
      ∧ utc_instant t' = utc_instant t
      ∧ convert_to_uk_time (Some t') = Some t')
  ∧ (∀ t2, utc_instant t2 = utc_instant t →
           convert_to_uk_time (Some t2) = convert_to_uk_time (Some t)).
Proof.
  assert (Hu : ∀ x, utc_instant
                 (match tzinfo x with
                  | Some _ => x
                  | None => UTC.localize x
                  end) = utc_instant x).
  { intros x. unfold utc_instant, UTC.localize.
    by destruct (tzinfo x) eqn:Hx; simpl; rewrite ?Hx. }
  split; [done|]. split.
  - eexists. split; [reflexivity|].
    split; [by eexists|].
    split; [rewrite astimezone_utc_instant; apply Hu|].
    simpl. by rewrite astimezone_idempotent.
  - intros t2 Heq. unfold convert_to_uk_time, EuropeLondon.astimezone.
    by rewrite !Hu, Heq.
Qed.

Lemma datetime_eqb_astimezone s :
  is_Some (tzinfo s) → datetime_eqb (EuropeLondon.astimezone s) s = true.
Proof.
  intros [off Hoff]. unfold datetime_eqb. rewrite Hoff.
  cbn [tzinfo EuropeLondon.astimezone]. rewrite astimezone_utc_instant.
  apply Z.eqb_refl.
Qed.

(** X8: a time written with [uk_time_to_iso] and read back with
    [iso_to_uk_time] is the same timestamp.  For an aware value what is
    read back is exactly what was written, and denotes the instant of the
    value; a naive value is written with its own wall clock reading. *)
Theorem stored_time_reads_back t :
  ∃ s s',
    uk_time_to_iso (Some t) = Some s
    ∧ iso_to_uk_time (Some s) = Some s'
    ∧ datetime_eqb s' s = true
    ∧ match tzinfo t with
      | Some _ => s' = s ∧ utc_instant s = utc_instant t
      | None => wall s = wall t
      end.
Proof.
  unfold uk_time_to_iso, iso_to_uk_time. destruct (tzinfo t) as [off|] eqn:Ht.
  - rewrite (convert_to_uk_time_aware t off Ht).
    eexists _, _. split; [reflexivity|]. simpl.
    rewrite astimezone_idempotent. split; [done|].
    split; [|split; [done|apply astimezone_utc_instant]].
    rewrite <- (astimezone_idempotent t) at 1.
    by apply datetime_eqb_astimezone.
  - eexists _, _. split; [reflexivity|]. simpl. split; [reflexivity|].
    split; [|done]. by apply datetime_eqb_astimezone.
Qed.

(** ** The request store *)

Lemma handle_cases holidays op d :
  status_code (handle holidays op d).1 = 200 ∨ (handle holidays op d).2 = d.
Proof.
  destruct op as [clk data|clk [|[rid|]]|[|[rid|]]|[|[rid|]]|[|[rid|]] v
                  |[|[rid|]] v|[|[rid|]] v|[|[rid|]] v]; simpl; auto.
  destruct (add_request_cases holidays clk data d) as [?|[? _]]; auto.
Qed.

(** X10: a request that is not answered with status 200 leaves the
    database as it was. *)
Theorem handle_error_unchanged holidays op d :
  status_code (handle holidays op d).1 ≠ 200 →
  (handle holidays op d).2 = d.
Proof. intros Hcode. by destruct (handle_cases holidays op d). Qed.

Lemma handle_error_unchanged_witness :
  let clk := {| local_now := DateTime 0 None; utc_now := 0 |} in
  let data := AddRequestJson (Some "BLUE PATHWAY"%string)
                (Some (Some (DateTime 0 None))) None None None in
  (handle ∅ (AddRequest clk (Some data)) empty_db).2 = empty_db.
Proof.
  intros clk data.
  apply (handle_error_unchanged ∅ (AddRequest clk (Some data)) empty_db).
  by vm_compute.
Defined.



(** *** Row ids *)

Lemma update_where_id_ids set rid d :
  (∀ r, id (set r) = id r) →
  id <$> echo_requests (update_where_id set rid d) = id <$> echo_requests d.
Proof.
  intros Hset. simpl. rewrite <- list_fmap_compose.
  apply list_fmap_ext. intros _ r _. simpl. destruct (id r =? rid); auto.
Qed.

Lemma ids_fresh_update set rid d :
  (∀ r, id (set r) = id r) → ids_fresh d → ids_fresh (update_where_id set rid d).
Proof.
  intros Hset [Hnd Hle]. split.
  - by rewrite update_where_id_ids.
  - simpl. apply Forall_fmap. eapply Forall_impl; [exact Hle|].
    intros r Hr. simpl. destruct (id r =? rid); [by rewrite Hset|done].
Qed.

Lemma elem_of_delete_where_id rid d r :
  r ∈ echo_requests (delete_where_id rid d) ↔ r ∈ echo_requests d ∧ id r ≠ rid.
Proof.
  simpl. rewrite list_elem_of_In, List.filter_In, <- list_elem_of_In.
  by rewrite negb_true_iff, Z.eqb_neq.
Qed.

Lemma delete_where_id_sublist rid d :
  echo_requests (delete_where_id rid d) `sublist_of` echo_requests d.
Proof.
  simpl. induction (echo_requests d) as [|r rows IH]; simpl; [done|].
  destruct (negb _); [by apply sublist_skip|by apply sublist_cons].
Qed.

Lemma ids_fresh_delete rid d : ids_fresh d → ids_fresh (delete_where_id rid d).
Proof.
  intros [Hnd Hle]. pose proof (delete_where_id_sublist rid d) as Hsub. split.
  - eapply sublist_NoDup; [exact Hnd|by apply fmap_sublist].
  - apply Forall_forall. intros r [Hin _]%elem_of_delete_where_id.
    rewrite Forall_forall in Hle. by apply Hle.
Qed.

Lemma add_request_db_cases holidays clk data d :
  (add_request holidays clk data d).2 = d
  ∨ ∃ p rid rt nm mr wd,
      (add_request holidays clk data d).2
      = insert_row (new_row holidays clk d p rid rt nm mr wd) d
      ∧ get_next_request_id (local_now clk) (echo_requests d) = Some rid
      ∧ ∃ parsed, iso_to_uk_time parsed = Some rt.
Proof.
  destruct (add_request_cases holidays clk data d) as [Hok|[? _]]; [|by left].
  destruct (add_request holidays clk data d) as [resp d'] eqn:Hadd.
  apply add_request_success in Hadd
    as (? & parsed & nm & mr & wd & p & rid & rt & _ & _ & Hid & Hrt & _ & ->);
    [|done].
  right. exists p, rid, rt, nm, mr, wd. split; [done|]. split; [done|].
  by exists parsed.
Qed.

Lemma handle_ids_fresh holidays op d :
  ids_fresh d →
  ids_fresh (handle holidays op d).2
  ∧ sqlite_sequence d ≤ sqlite_sequence (handle holidays op d).2.
Proof.
  intros Hfresh.
  destruct op as [clk data|clk [|[rid|]]|[|[rid|]]|[|[rid|]]|[|[rid|]] v
                  |[|[rid|]] v|[|[rid|]] v|[|[rid|]] v]; simpl;
    try (split; [done|lia]);
    try (split; [by apply ids_fresh_update|simpl; lia]).
  - destruct (add_request_db_cases holidays clk data d)
      as [->|(p & rid & rt & nm & mr & wd & -> & _)]; [split; [done|lia]|].
    destruct Hfresh as [Hnd Hle]. split; [|simpl; lia]. split; simpl.
    + rewrite fmap_app. simpl. apply NoDup_app. split; [done|].
      split; [|apply NoDup_singleton].
      intros x Hx ->%list_elem_of_singleton.
      apply list_elem_of_fmap in Hx as (r & Hr & Hin).
      rewrite Forall_forall in Hle. specialize (Hle r Hin). lia.
    + apply Forall_app. split; [|apply Forall_singleton; simpl; lia].
      eapply Forall_impl; [exact Hle|]. simpl. lia.
  - split; [by apply ids_fresh_delete|simpl; lia].
Qed.

(** *** Deleting, completing and undoing *)

(** X13: [delete_request] removes every row with the given id and nothing
    else: the other rows stay, in their order, the AUTOINCREMENT counter is
    kept, and deleting once more changes nothing. *)
Theorem delete_request_removes rid d :
  let d' := (delete_request (Some rid) d).2 in
  (rid ∉ id <$> echo_requests d')
  ∧ (∀ r, r ∈ echo_requests d' ↔ r ∈ echo_requests d ∧ id r ≠ rid)
  ∧ echo_requests d' `sublist_of` echo_requests d
  ∧ sqlite_sequence d' = sqlite_sequence d
  ∧ (delete_request (Some rid) d').2 = d'.
Proof.
  intros d'. subst d'. cbn [delete_request snd].
  split_and!.
  - intros (r & Hid & [_ Hne]%elem_of_delete_where_id)%list_elem_of_fmap.
    by rewrite Hid in Hne.
  - intros r. apply elem_of_delete_where_id.
  - apply delete_where_id_sublist.
  - done.
  - apply delete_where_id_absent.
    intros (r & Hid & [_ Hne]%elem_of_delete_where_id)%list_elem_of_fmap.
    by rewrite Hid in Hne.
Qed.

Lemma update_where_id_twice set1 set2 rid d :
  (∀ r, id (set1 r) = id r) →
  update_where_id set2 rid (update_where_id set1 rid d)
  = update_where_id (set2 ∘ set1) rid d.
Proof.
  intros Hset. unfold update_where_id. simpl. f_equal.
  rewrite <- list_fmap_compose. apply list_fmap_ext. intros _ r _. simpl.
  destruct (id r =? rid) eqn:Hr; [by rewrite Hset, Hr|by rewrite Hr].
Qed.

Lemma update_where_id_ext set1 set2 rid d :
  (∀ r, r ∈ echo_requests d → id r = rid → set1 r = set2 r) →
  update_where_id set1 rid d = update_where_id set2 rid d.
Proof.
  intros Hset. unfold update_where_id. f_equal.
  apply list_fmap_ext. intros i r Hr. simpl.
  destruct (Z.eqb_spec (id r) rid); [|done].
  apply Hset; [|done]. by eapply list_elem_of_lookup_2.
Qed.

Lemma update_where_id_id set rid d :
  (∀ r, r ∈ echo_requests d → id r = rid → set r = r) →
  update_where_id set rid d = d.
Proof.
  intros Hset. destruct d as [rows seq]. unfold update_where_id. simpl.
  f_equal. rewrite <- (list_fmap_id rows) at 2.
  apply list_fmap_ext. intros i r Hr. simpl.
  destruct (Z.eqb_spec (id r) rid); [|done].
  apply Hset; [|done]. by eapply list_elem_of_lookup_2.
Qed.

(** X14: undoing takes back a completion, and completing overrides an
    undo: [undo_completed] after [mark_completed] is [undo_completed],
    [mark_completed] after [undo_completed] is [mark_completed], and a
    request that was pending without completion time is, after completing
    and undoing, as it was. *)
Theorem undo_after_mark clk rid d :
  (undo_completed (Some rid) (mark_completed clk (Some rid) d).2).2
  = (undo_completed (Some rid) d).2
  ∧ (mark_completed clk (Some rid) (undo_completed (Some rid) d).2).2
    = (mark_completed clk (Some rid) d).2
  ∧ ((∀ r, r ∈ echo_requests d → id r = rid →
           status r = pending ∧ completion_time r = None) →
     (undo_completed (Some rid) (mark_completed clk (Some rid) d).2).2 = d).
Proof.
  cbn [undo_completed mark_completed snd].
  assert (H1 : update_where_id (set_status pending None) rid
                 (update_where_id
                    (set_status completed (Some (get_uk_time (utc_now clk))))
                    rid d)
               = update_where_id (set_status pending None) rid d).
  { rewrite update_where_id_twice by done. by apply update_where_id_ext. }
  split_and!.
  - exact H1.
  - rewrite update_where_id_twice by done. by apply update_where_id_ext.
  - intros Hpending. rewrite H1. apply update_where_id_id.
    intros r Hr Hid. destruct (Hpending r Hr Hid) as [Hs Hc].
    destruct r. simpl in *. by subst.
Qed.

Lemma undo_after_mark_witness :
  let t := DateTime (20098 * DAY + 9 * HOUR) None in
  let clk := {| local_now := t; utc_now := wall t |} in
  let data := Some (AddRequestJson (Some "RED PATHWAY"%string)
                      (Some (Some t)) None None None) in
  let d := (add_request ∅ clk data empty_db).2 in
  (undo_completed (Some 1) (mark_completed clk (Some 1) d).2).2 = d.
Proof.
  intros t clk data d.
  destruct (undo_after_mark clk 1 d) as (_ & _ & H). apply H.
  intros r Hr _.
  assert (Hrows : ∃ r0, echo_requests d = [r0]
                        ∧ status r0 = pending ∧ completion_time r0 = None).
  { eexists. split; [by vm_compute|]. split; reflexivity. }
  destruct Hrows as (r0 & Hrows & Hs & Hc). rewrite Hrows in Hr.
  apply list_elem_of_singleton in Hr as ->. split; [exact Hs|exact Hc].
Defined.

(** *** What a request keeps for life *)

Lemma update_where_id_creation_fields set rid d r' :
  (∀ r, creation_fields (set r) = creation_fields r) →
  r' ∈ echo_requests (update_where_id set rid d) →
  ∃ r, r ∈ echo_requests d ∧ creation_fields r = creation_fields r'.
Proof.
  intros Hset. simpl. intros (r & -> & Hin)%list_elem_of_fmap.
  exists r. split; [done|]. destruct (id r =? rid); [by rewrite Hset|done].
Qed.

Lemma handle_creation_fields holidays op d r' :
  r' ∈ echo_requests (handle holidays op d).2 →
  (∃ r, r ∈ echo_requests d ∧ creation_fields r = creation_fields r')
  ∨ id r' = sqlite_sequence d + 1.
Proof.
  destruct op as [clk data|clk [|[rid|]]|[|[rid|]]|[|[rid|]]|[|[rid|]] v
                  |[|[rid|]] v|[|[rid|]] v|[|[rid|]] v]; simpl handle; cbn [snd];
    try (intros Hin; left; by exists r');
    try (intros Hin; left;
         eapply update_where_id_creation_fields; [|exact Hin]; done).
  - destruct (add_request_db_cases holidays clk data d)
      as [->|(p & rid & rt & nm & mr & wd & -> & _)].
    + intros Hin. left. by exists r'.
    + simpl. intros [Hin|Hin]%elem_of_app.
      * left. by exists r'.
      * apply list_elem_of_singleton in Hin as ->. by right.
  - intros [Hin _]%elem_of_delete_where_id. left. by exists r'.
Qed.

(** X15: no request changes the id, the identifier, the pathway, the
    request time, the deadline or the triage date of a stored row: every
    row found after a run either is a row from before the run with these
    columns unchanged, or was added by the run, with an id above the
    counter at the start. *)
Theorem run_keeps_creation_fields holidays ops d r' :
  ids_fresh d →
  r' ∈ echo_requests (run holidays ops d).2 →
  (∃ r, r ∈ echo_requests d ∧ creation_fields r = creation_fields r')
  ∨ sqlite_sequence d < id r'.
Proof.
  revert d. induction ops as [|op ops IH]; intros d Hfresh.
  - intros Hin. left. by exists r'.
  - rewrite run_cons. intros Hin.
    destruct (handle_ids_fresh holidays op d Hfresh) as [Hfresh' Hle].
    destruct (IH _ Hfresh' Hin) as [(r1 & Hr1 & Heq)|Hnew]; [|right; lia].
    destruct (handle_creation_fields holidays op d r1 Hr1)
      as [(r & Hr & Heq')|Hid].
    + left. exists r. split; [done|congruence].
    + right. assert (id r1 = id r') by (injection Heq; congruence). lia.
Qed.

Lemma run_keeps_creation_fields_witness :
  let t := DateTime (20098 * DAY + 9 * HOUR) None in
  let clk := {| local_now := t; utc_now := wall t |} in
  let data := Some (AddRequestJson (Some "RED PATHWAY"%string)
                      (Some (Some t)) None None None) in
  let d := (add_request ∅ clk data empty_db).2 in
  let ops := [MarkCompleted clk (Some 1); UpdateNotes (Some 1) (Some "seen"%string);
              AddRequest clk data] in
  ∃ r1 r2, echo_requests (run ∅ ops d).2 = [r1; r2]
    ∧ ((∃ r, r ∈ echo_requests d ∧ creation_fields r = creation_fields r1)
       ∨ sqlite_sequence d < id r1).
Proof.
  intros t clk data d ops.
  assert (Hrows : ∃ r1 r2, echo_requests (run ∅ ops d).2 = [r1; r2])
    by (eexists _, _; by vm_compute).
  destruct Hrows as (r1 & r2 & Hrows). exists r1, r2. split; [exact Hrows|].
  apply (run_keeps_creation_fields ∅ ops d r1).
  - split; [by vm_compute; apply NoDup_singleton|].
    apply Forall_forall. intros r Hr.
    assert (Hd : ∃ r0, echo_requests d = [r0] ∧ id r0 ≤ sqlite_sequence d)
      by (eexists; split; by vm_compute).
    destruct Hd as (r0 & Hd & Hle). rewrite Hd in Hr.
    by apply list_elem_of_singleton in Hr as ->.
  - rewrite Hrows. left.
Defined.

(** *** Deadlines *)

Lemma add_working_hours_uk_wall_ge holidays t hours :
  wall t + Z.max 0 hours * HOUR ≤ wall (add_working_hours_uk holidays t hours).
Proof.
  destruct (decide (0 < hours)) as [Hh|Hh].
  - destruct (add_working_hours_uk_spec holidays t hours Hh)
      as (k & Hk & -> & Hsteps & _).
    pose proof (working_steps_range holidays (tag_if_naive t) k).
    simpl. rewrite tag_if_naive_wall. unfold HOUR. lia.
  - pose proof (add_working_hours_uk_wall_le holidays t hours). lia.
Qed.

Lemma pathway_hours_nonneg p : 0 ≤ pathway_hours p.
Proof. destruct p; simpl; lia. Qed.

Lemma new_row_deadline_ok holidays clk d p rid t nm mr wd :
  deadline_ok
    (new_row holidays clk d p rid (EuropeLondon.astimezone t) nm mr wd).
Proof.
  set (rt := EuropeLondon.astimezone t).
  exists (EuropeLondon.astimezone
            (add_working_hours_uk holidays rt (pathway_hours p))).
  split; [reflexivity|].
  unfold new_row. cbn [request_time pathway].
  rewrite astimezone_utc_instant.
  pose proof (add_working_hours_uk_wall_ge holidays rt (pathway_hours p)) as Hge.
  pose proof (add_working_hours_uk_tzinfo holidays rt (pathway_hours p)) as Htz.
  pose proof (pathway_hours_nonneg p).
  unfold utc_instant. rewrite Htz.
  unfold tag_if_naive. subst rt. cbn [tzinfo EuropeLondon.astimezone] in *.
  cbn [default]. unfold HOUR in *. lia.
Qed.

Lemma handle_deadline_ok holidays op d :
  Forall deadline_ok (echo_requests d) →
  Forall deadline_ok (echo_requests (handle holidays op d).2).
Proof.
  intros Hinv.
  destruct op as [clk data|clk [|[rid|]]|[|[rid|]]|[|[rid|]]|[|[rid|]] v
                  |[|[rid|]] v|[|[rid|]] v|[|[rid|]] v]; simpl handle; cbn [snd]; try done;
    try (simpl; apply Forall_fmap; eapply Forall_impl; [exact Hinv|];
         intros r Hr; simpl; by destruct (id r =? rid)).
  - destruct (add_request_db_cases holidays clk data d)
      as [->|(p & rid & rt & nm & mr & wd & -> & _ & parsed & Hrt)]; [done|].
    simpl. apply Forall_app. split; [done|]. apply Forall_singleton.
    apply iso_to_uk_time_Some in Hrt as (t & _ & ->).
    apply new_row_deadline_ok.
  - apply Forall_forall. intros r [Hin _]%elem_of_delete_where_id.
    rewrite Forall_forall in Hinv. by apply Hinv.
Qed.

(** X16: the deadline of a stored request is never before its request
    time: it is at least 1 hour later for PURPLE, 24 for RED and 72 for
    AMBER.  [add_request] creates rows that way and no other request
    changes it. *)
Theorem run_deadline_ok holidays ops d :
  Forall deadline_ok (echo_requests d) →
  Forall deadline_ok (echo_requests (run holidays ops d).2).
Proof.
  revert d. induction ops as [|op ops IH]; intros d Hinv; [done|].
  rewrite run_cons. by apply IH, handle_deadline_ok.
Qed.

Lemma run_deadline_ok_witness :
  let t := DateTime (20098 * DAY + 9 * HOUR) None in
  let clk := {| local_now := t; utc_now := wall t |} in
  let data := Some (AddRequestJson (Some "AMBER PATHWAY"%string)
                      (Some (Some t)) None None None) in
  Forall deadline_ok
    (echo_requests
       (run {[ 20101 ]} [AddRequest clk data; MarkCompleted clk (Some 1)]
          empty_db).2).
Proof.
  intros t clk data. apply run_deadline_ok. apply Forall_nil_2.
Defined.

(** *** Identifiers stay unique *)

Lemma format_request_id_inj yy a b :
  0 ≤ a < 10000 → 0 ≤ b < 10000 →
  format_request_id yy a = format_request_id yy b → a = b.
Proof.
  intros Ha Hb Heq.
  pose proof (format_request_id_ltb yy a b Ha Hb) as Hab.
  pose proof (format_request_id_ltb yy b a Hb Ha) as Hba.
  rewrite Heq in Hab, Hba. rewrite Hab in Hba.
  destruct (Z.ltb_spec a b), (Z.ltb_spec b a); try done; lia.
Qed.

Lemma numbers_of_rows yy b (rows : list echo_request) :
  Forall (λ r, ∃ n, 1 ≤ n ≤ b ∧ request_id r = format_request_id yy n) rows →
  ∃ ns, request_id <$> rows = format_request_id yy <$> ns
        ∧ Forall (λ n, 1 ≤ n ≤ b) ns.
Proof.
  induction 1 as [|r rows (n & Hn & Hr) _ (ns & Hns & Hall)].
  - by exists [].
  - exists (n :: ns). rewrite !fmap_cons, Hr, Hns. split; [done|].
    by constructor.
Qed.

Lemma filter_like_year yy ns :
  List.filter (like_year yy) (format_request_id yy <$> ns)
  = format_request_id yy <$> ns.
Proof.
  induction ns as [|n ns IH]; [done|]. rewrite fmap_cons.
  cbn [List.filter]. by rewrite like_year_format, IH.
Qed.

Lemma all_of_year_weaken yy b b' d :
  b ≤ b' → all_of_year yy b d → all_of_year yy b' d.
Proof.
  intros Hb [Hall Hnd]. split; [|done].
  eapply Forall_impl; [exact Hall|]. intros r (n & Hn & Hr).
  exists n. split; [lia|done].
Qed.

Lemma all_of_year_same_ids yy b d d' :
  request_id <$> echo_requests d' = request_id <$> echo_requests d →
  all_of_year yy b d → all_of_year yy b d'.
Proof.
  intros Heq [Hall Hnd]. split; [|by rewrite Heq].
  apply Forall_forall. intros r' Hr'.
  assert (request_id r' ∈ request_id <$> echo_requests d) as Hin.
  { rewrite <- Heq. by apply list_elem_of_fmap_2. }
  apply list_elem_of_fmap in Hin as (r & Hr & Hin).
  rewrite Forall_forall in Hall. rewrite Hr. by apply Hall.
Qed.

Lemma all_of_year_next now d b :
  let yy := Calendar.year_of (date_of now) mod 100 in
  0 ≤ b < 9999 → all_of_year yy b d →
  ∃ n, 1 ≤ n ≤ b + 1
       ∧ get_next_request_id now (echo_requests d)
         = Some (format_request_id yy n)
       ∧ format_request_id yy n ∉ request_id <$> echo_requests d.
Proof.
  intros yy Hb [Hall Hnd].
  destruct (numbers_of_rows yy b _ Hall) as (ns & Hns & Hrange).
  assert (Hrange' : Forall (λ n, 1 ≤ n ≤ 9999) ns).
  { eapply Forall_impl; [exact Hrange|]. simpl. lia. }
  assert (Hmax : 0 ≤ foldr Z.max 0 ns ≤ b).
  { apply max_below; [lia|]. eapply Forall_impl; [exact Hrange|]. simpl. lia. }
  exists (foldr Z.max 0 ns + 1). split; [lia|]. split.
  - apply (get_next_request_id_numbered now (Db (echo_requests d) 0));
      [lia|].
    apply numbered_of_list; [|done].
    unfold year_ids. by rewrite Hns, filter_like_year.
  - rewrite Hns. intros (n & Heq & Hn)%list_elem_of_fmap.
    pose proof (max_upper_bound ns n Hn).
    rewrite Forall_forall in Hrange. pose proof (Hrange n Hn).
    apply format_request_id_inj in Heq; lia.
Qed.

Lemma handle_all_of_year holidays yy b op d :
  0 ≤ b < 9999 → in_year yy op → all_of_year yy b d →
  all_of_year yy (b + 1) (handle holidays op d).2.
Proof.
  intros Hb Hyear Hinv.
  destruct op as [clk data|clk [|[rid|]]|[|[rid|]]|[|[rid|]]|[|[rid|]] v
                  |[|[rid|]] v|[|[rid|]] v|[|[rid|]] v]; simpl handle; cbn [snd];
    try (by apply (all_of_year_weaken yy b); [lia|]);
    try (apply (all_of_year_weaken yy b); [lia|];
         eapply all_of_year_same_ids; [|exact Hinv];
         by apply update_where_id_request_ids).
  - destruct (add_request_db_cases holidays clk data d)
      as [->|(p & rid & rt & nm & mr & wd & -> & Hid & _)];
      [by apply (all_of_year_weaken yy b); [lia|]|].
    simpl in Hyear. subst yy.
    destruct (all_of_year_next (local_now clk) d b) as (n & Hn & Hnext & Hnew);
      [lia|done|].
    rewrite Hnext in Hid. injection Hid as <-.
    destruct Hinv as [Hall Hnd]. split; simpl.
    + apply Forall_app. split.
      * eapply Forall_impl; [exact Hall|]. intros r (m & Hm & Hr).
        exists m. split; [lia|done].
      * apply Forall_singleton. by exists n.
    + rewrite fmap_app. apply NoDup_app. split; [done|].
      split; [|apply NoDup_singleton].
      intros s Hs Hs'. apply list_elem_of_singleton in Hs'. by subst.
  - apply (all_of_year_weaken yy b); [lia|].
    destruct Hinv as [Hall Hnd]. split.
    + apply Forall_forall. intros r [Hin _]%elem_of_delete_where_id.
      rewrite Forall_forall in Hall. by apply Hall.
    + eapply sublist_NoDup; [exact Hnd|].
      apply fmap_sublist, delete_where_id_sublist.
Qed.

Lemma run_all_of_year holidays yy ops : ∀ b d,
  0 ≤ b → b + Z.of_nat (length ops) < 10000 →
  Forall (in_year yy) ops → all_of_year yy b d →
  all_of_year yy (b + Z.of_nat (length ops)) (run holidays ops d).2.
Proof.
  induction ops as [|op ops IH]; intros b d Hb Hlen Hyear Hinv.
  - simpl. by rewrite Z.add_0_r.
  - apply Forall_cons in Hyear as [Hop Hyear]. rewrite run_cons.
    simpl length in *.
    replace (b + Z.of_nat (S (length ops)))
      with (b + 1 + Z.of_nat (length ops)) by lia.
    apply IH; [lia|lia|done|]. apply handle_all_of_year; [lia|done|done].
Qed.

(** X17: in a run of fewer than 10000 requests made within one year,
    started on the empty table, no two stored rows ever carry the same
    identifier, whatever is deleted in between; every identifier is of
    that year, with a number between 1 and the number of requests made. *)
Theorem run_request_ids_unique holidays yy ops :
  Z.of_nat (length ops) < 10000 →
  Forall (in_year yy) ops →
  NoDup (request_id <$> echo_requests (run holidays ops empty_db).2)
  ∧ Forall (λ r, ∃ n, 1 ≤ n ≤ Z.of_nat (length ops)
                      ∧ request_id r = format_request_id yy n)
           (echo_requests (run holidays ops empty_db).2).
Proof.
  intros Hlen Hyear.
  destruct (run_all_of_year holidays yy ops 0 empty_db) as [Hall Hnd];
    [lia|lia|done|split; [apply Forall_nil_2|apply NoDup_nil_2]|].
  split; [done|]. by rewrite Z.add_0_l in Hall.
Qed.

Lemma run_request_ids_unique_witness :
  let t := DateTime (20098 * DAY + 9 * HOUR) None in
  let clk := {| local_now := t; utc_now := wall t |} in
  let data := Some (AddRequestJson (Some "GREEN PATHWAY"%string)
                      (Some (Some t)) None None None) in
  NoDup (request_id <$>
           echo_requests
             (run ∅ [AddRequest clk data; AddRequest clk data;
                     DeleteRequest (Some 2); AddRequest clk data]
                empty_db).2).
Proof.
  intros t clk data.
  destruct (run_request_ids_unique ∅ 25
              [AddRequest clk data; AddRequest clk data;
               DeleteRequest (Some 2); AddRequest clk data]) as [H _].
  - simpl. lia.
  - repeat constructor.
  - exact H.
Defined.

(** ** The statistics queries *)

Lemma dates_from_length n d last :
  Z.of_nat n = last - d → length (Sql.dates_from n d last) = S n.
Proof.
  revert d. induction n as [|n IH]; intros d Hn; simpl; [done|].
  destruct (Z.ltb_spec d last); [|lia]. rewrite IH by lia. done.
Qed.

Lemma dates_from_lookup n d last (i : nat) :
  Z.of_nat n = last - d → (i ≤ n)%nat →
  Sql.dates_from n d last !! i = Some (d + Z.of_nat i).
Proof.
  revert d i. induction n as [|n IH]; intros d i Hn Hi.
  - assert (i = 0%nat) as -> by lia. simpl. f_equal. lia.
  - simpl. destruct (Z.ltb_spec d last); [|lia].
    destruct i as [|i]; simpl; [f_equal; lia|].
    rewrite IH by lia. f_equal. lia.
Qed.

Lemma overdue_count_nil date : overdue_count [] date = 0%nat.
Proof. done. Qed.

(** X18: [get_daily_overdue] answers with 31 entries whatever the table
    holds: one for each of the last 30 days and today, in date order; on
    the empty table every count is 0. *)
Theorem get_daily_overdue_window now rows :
  length (get_daily_overdue now rows) = 31%nat
  ∧ (∀ i : nat, (i ≤ 30)%nat →
       get_daily_overdue now rows !! i
       = Some (date_of now - 30 + Z.of_nat i,
               overdue_count rows (date_of now - 30 + Z.of_nat i)))
  ∧ (∀ day n, (day, n) ∈ get_daily_overdue now [] → n = 0%nat).
Proof.
  unfold get_daily_overdue, Sql.dates.
  replace (date_of now - (date_of now - 30)) with 30 by lia.
  split_and!.
  - rewrite length_fmap, dates_from_length; [done|]. simpl. lia.
  - intros i Hi. rewrite list_lookup_fmap, dates_from_lookup; [done| |done].
    simpl. lia.
  - intros day n (d & [= _ ->] & _)%list_elem_of_fmap. done.
Qed.

(** X19: a request that is still pending, once counted as overdue on a
    day, is counted as overdue on every later day. *)
Theorem pending_overdue_persists date date' r :
  status r = pending → date ≤ date' →
  Sql.holds (overdue_on date r) = true →
  Sql.holds (overdue_on date' r) = true.
Proof.
  intros Hs Hle. unfold overdue_on.
  rewrite !holds_and, !holds_or, !holds_bool, !bool_decide_eq_true.
  unfold Sql.datetime, Sql.datetime_plus_1_day.
  destruct (expected_time r) as [e|]; cbn [fmap option_fmap option_map];
    rewrite ?lt_null_l, ?holds_lt_Some, ?holds_le_Some, ?holds_null.
  - intros (Hp & He & Hr & _). split_and!; try done; [unfold DAY in *; lia..|].
    by left.
  - by intros (_ & [] & _).
Qed.

Lemma pending_overdue_persists_witness :
  let r := {| id := 1; request_id := "25.0001"; pathway := RED;
              request_time := DateTime (20097 * DAY + 9 * HOUR) (Some 0);
              expected_time := Some (DateTime (20098 * DAY + 9 * HOUR) (Some 0));
              status := pending; triage_date := 20097;
              completion_time := None;
              notes := ""; name := ""; mrn := ""; ward := "" |} in
  Sql.holds (overdue_on 20120 r) = true.
Proof.
  intros r. apply (pending_overdue_persists 20098 20120 r);
    [reflexivity|lia|by vm_compute].
Defined.

Lemma currently_overdue_today now r :
  tzinfo now = None →
  Sql.holds (currently_overdue now r) = true →
  Sql.holds (overdue_on (date_of now) r) = true.
Proof.
  intros Hnow. unfold currently_overdue, overdue_on.
  rewrite !holds_and, !holds_or, !holds_bool, !bool_decide_eq_true.
  unfold Sql.datetime, Sql.datetime_plus_1_day.
  assert (Hwall : utc_instant now < (date_of now + 1) * DAY).
  { unfold utc_instant, date_of. rewrite Hnow. simpl. unfold DAY.
    Z.div_mod_to_equations. lia. }
  destruct (expected_time r) as [e|]; cbn [fmap option_fmap option_map];
    rewrite ?lt_null_l, ?holds_lt_Some, ?holds_le_Some, ?holds_null.
  - intros (Hs & Hp & He & Hr). split_and!; try done; [lia..|]. by left.
  - by intros (_ & _ & [] & _).
Qed.

Lemma filter_length_le {A} (f g : A → bool) (l : list A) :
  (∀ x, x ∈ l → f x = true → g x = true) →
  (length (List.filter f l) ≤ length (List.filter g l))%nat.
Proof.
  induction l as [|x l IH]; intros Himp; simpl; [done|].
  assert (IH' : (length (List.filter f l) ≤ length (List.filter g l))%nat).
  { apply IH. intros y Hy. apply Himp. by right. }
  destruct (f x) eqn:Hf.
  - rewrite (Himp x) by (done || left). simpl. lia.
  - destruct (g x); simpl; lia.
Qed.

Lemma NoDup_fmap_filter (f : echo_request → bool) rows :
  NoDup (id <$> rows) → NoDup (id <$> List.filter f rows).
Proof.
  intros Hnd. eapply sublist_NoDup; [exact Hnd|]. clear Hnd.
  apply fmap_sublist. induction rows as [|r rows IH]; simpl; [done|].
  destruct (f r); [by apply sublist_skip|by apply sublist_cons].
Qed.

Lemma distinct_count_unique_ids (f : echo_request → bool) rows :
  NoDup (id <$> rows) →
  length (remove_dups (id <$> List.filter f rows))
  = length (List.filter f rows).
Proof.
  intros Hnd. rewrite remove_dups_NoDup by by apply NoDup_fmap_filter.
  by rewrite length_fmap.
Qed.

(** X20: every request [get_overdue_count] counts now is counted by
    [get_daily_overdue] for today, so with unique ids the current count
    never exceeds today's entry. *)
Theorem overdue_now_counted_today now rows :
  tzinfo now = None → NoDup (id <$> rows) →
  (∀ r, Sql.holds (currently_overdue now r) = true →
        Sql.holds (overdue_on (date_of now) r) = true)
  ∧ (get_overdue_count now rows ≤ overdue_count rows (date_of now))%nat
  ∧ (date_of now, overdue_count rows (date_of now))
    ∈ get_daily_overdue now rows.
Proof.
  intros Hnow Hnd. split_and!.
  - intros r. by apply currently_overdue_today.
  - unfold get_overdue_count, overdue_count.
    rewrite distinct_count_unique_ids by done.
    apply filter_length_le. intros r _. by apply currently_overdue_today.
  - apply get_daily_overdue_entry. lia.
Qed.

Lemma pending_on_of_overdue_on date r :
  Sql.holds (overdue_on date r) = true → Sql.holds (pending_on date r) = true.
Proof.
  unfold overdue_on, pending_on, Sql.gt, Sql.ge.
  rewrite !holds_and, !holds_or, !holds_and, !holds_bool, !bool_decide_eq_true.
  unfold Sql.datetime, Sql.datetime_plus_1_day, Sql.datetime_of_date.
  destruct (completion_time r) as [c|]; cbn [fmap option_fmap option_map];
    rewrite ?lt_null_l, ?lt_null_r, ?le_null_l, ?le_null_r,
      ?holds_lt_Some, ?holds_le_Some, ?holds_null.
  - intros (Hp & He & Hr & [Hs|[[Hs Hc]|(Hs & Hc & _)]]);
      (split_and!; [done|done|]); [by left|right; lia|right; lia].
  - intros (Hp & He & Hr & [Hs|[[Hs []]|(Hs & [] & _)]]).
    split_and!; try done. by left.
Qed.

(** X21: on every day, every request counted as overdue is also counted
    as pending, so the overdue count of [get_daily_overdue] never exceeds
    the pending count of [get_daily_max_pending]. *)
Theorem overdue_le_pending rows date :
  (∀ r, Sql.holds (overdue_on date r) = true →
        Sql.holds (pending_on date r) = true)
  ∧ (overdue_count rows date ≤ pending_count rows date)%nat.
Proof.
  split; [intros r; apply pending_on_of_overdue_on|].
  unfold overdue_count, pending_count.
  apply submseteq_length, NoDup_submseteq; [apply NoDup_remove_dups|].
  intros x. rewrite !elem_of_remove_dups, !list_elem_of_fmap.
  intros (r & -> & Hr). exists r. split; [done|].
  apply list_elem_of_In, List.filter_In in Hr as [Hin Hov].
  apply list_elem_of_In, List.filter_In. split; [done|].
  by apply pending_on_of_overdue_on.
Qed.

Lemma overdue_now_counted_today_witness :
  let now := DateTime (20100 * DAY + 9 * HOUR) None in
  let r := {| id := 1; request_id := "25.0001"; pathway := RED;
              request_time := DateTime (20097 * DAY + 9 * HOUR) (Some 0);
              expected_time := Some (DateTime (20098 * DAY + 9 * HOUR) (Some 0));
              status := pending; triage_date := 20097;
              completion_time := None;
              notes := ""; name := ""; mrn := ""; ward := "" |} in
  (get_overdue_count now [r] ≤ overdue_count [r] (date_of now))%nat.
Proof.
  intros now r.
  destruct (overdue_now_counted_today now [r]) as (_ & H & _);
    [reflexivity|apply NoDup_singleton|exact H].
Defined.

(** *** Descriptive fields and the statistics *)

Lemma cons_inv {A} (x y : A) (l k : list A) :
  x :: l = y :: k → x = y ∧ l = k.
Proof. by intros [= -> ->]. Qed.

Lemma filter_sla (P : echo_request → bool) (rows rows' : list echo_request) :
  (∀ r r', sla_fields r = sla_fields r' → P r = P r') →
  sla_fields <$> rows' = sla_fields <$> rows →
  sla_fields <$> List.filter P rows' = sla_fields <$> List.filter P rows.
Proof.
  intros HP. revert rows'.
  induction rows as [|r rows IH]; intros [|r' rows']; try done.
  rewrite !fmap_cons. intros [Hr Hrows]%cons_inv. cbn [List.filter].
  rewrite (HP r' r Hr). destruct (P r); [|by apply IH].
  rewrite !fmap_cons. f_equal; [done|by apply IH].
Qed.

Lemma fmap_via_sla {B} (h : _ → B) (f : echo_request → B)
    (rows rows' : list echo_request) :
  (∀ r, f r = h (sla_fields r)) →
  sla_fields <$> rows' = sla_fields <$> rows → f <$> rows' = f <$> rows.
Proof.
  intros Hf Heq.
  rewrite (list_fmap_ext f (h ∘ sla_fields) rows') by (intros; apply Hf).
  rewrite (list_fmap_ext f (h ∘ sla_fields) rows) by (intros; apply Hf).
  by rewrite !list_fmap_compose, Heq.
Qed.

Lemma omap_via_sla {B} (h : _ → option B) (f : echo_request → option B)
    (rows rows' : list echo_request) :
  (∀ r, f r = h (sla_fields r)) →
  sla_fields <$> rows' = sla_fields <$> rows → omap f rows' = omap f rows.
Proof.
  intros Hf. revert rows'.
  induction rows as [|r rows IH]; intros [|r' rows']; try done.
  rewrite !fmap_cons. intros [Hr Hrows]%cons_inv. cbn [omap list_omap].
  rewrite !Hf, Hr. fold (omap f rows') (omap f rows).
  by rewrite (IH rows' Hrows).
Qed.

Lemma length_via_sla (rows rows' : list echo_request) :
  sla_fields <$> rows' = sla_fields <$> rows → length rows' = length rows.
Proof. intros Heq. by rewrite <- (length_fmap sla_fields rows'), Heq, length_fmap. Qed.

Ltac sla_congruence :=
  let Heq := fresh in
  intros [] [] Heq; unfold sla_fields in Heq; cbn in Heq;
  injection Heq as -> -> -> -> -> -> -> ->; reflexivity.

Lemma statistics_via_sla (rows rows' : list echo_request) :
  sla_fields <$> rows' = sla_fields <$> rows →
  (∀ now, get_daily_overdue now rows' = get_daily_overdue now rows)
  ∧ (∀ now, get_daily_max_pending now rows' = get_daily_max_pending now rows)
  ∧ (∀ now, get_overdue_count now rows' = get_overdue_count now rows)
  ∧ (∀ now_utc, get_daily_stats now_utc rows' = get_daily_stats now_utc rows)
  ∧ (∀ clk, get_today_stats clk rows' = get_today_stats clk rows).
Proof.
  intros Heq.
  assert (Hids : ∀ P : echo_request → bool,
            (∀ r r', sla_fields r = sla_fields r' → P r = P r') →
            id <$> List.filter P rows' = id <$> List.filter P rows).
  { intros P HP.
    apply (fmap_via_sla (λ '(i, _, _, _, _, _, _, _), i)); [done|].
    by apply filter_sla. }
  assert (Hlen : ∀ P : echo_request → bool,
            (∀ r r', sla_fields r = sla_fields r' → P r = P r') →
            length (List.filter P rows') = length (List.filter P rows)).
  { intros P HP. by apply length_via_sla, filter_sla. }
  assert (Hfmap : ∀ B (P : echo_request → bool) (f : echo_request → B) h,
            (∀ r r', sla_fields r = sla_fields r' → P r = P r') →
            (∀ r, f r = h (sla_fields r)) →
            f <$> List.filter P rows' = f <$> List.filter P rows).
  { intros B P f h HP Hf. apply (fmap_via_sla h); [done|].
    by apply filter_sla. }
  assert (Homap : ∀ B (P : echo_request → bool) (f : echo_request → option B) h,
            (∀ r r', sla_fields r = sla_fields r' → P r = P r') →
            (∀ r, f r = h (sla_fields r)) →
            omap f (List.filter P rows') = omap f (List.filter P rows)).
  { intros B P f h HP Hf. apply (omap_via_sla h); [done|].
    by apply filter_sla. }
  split_and!.
  - intros now. unfold get_daily_overdue. apply list_fmap_ext.
    intros _ day _. f_equal. unfold overdue_count.
    rewrite Hids; [done|sla_congruence].
  - intros now. unfold get_daily_max_pending. apply list_fmap_ext.
    intros _ day _. f_equal. unfold pending_count.
    rewrite Hids; [done|sla_congruence].
  - intros now. unfold get_overdue_count. apply Hlen. sla_congruence.
  - intros now_utc. unfold get_daily_stats.
    rewrite (Hfmap _ _ _ (λ '(_, _, p, _, _, _, t, _), (t, p)));
      [|sla_congruence|done].
    rewrite (Homap _ _ _ (λ '(_, _, _, _, _, _, _, c), sql_date c));
      [done|sla_congruence|done].
  - intros clk. unfold get_today_stats.
    rewrite (Hfmap _ _ _ (λ '(_, _, p, _, _, _, _, _), p));
      [|sla_congruence|done].
    rewrite !(Hlen _); [done|sla_congruence..].
Qed.

Lemma descriptive_update_sla holidays op d :
  is_descriptive_update op →
  sla_fields <$> echo_requests (handle holidays op d).2
  = sla_fields <$> echo_requests d.
Proof.
  destruct op as [| | | |[|[rid|]] v|[|[rid|]] v|[|[rid|]] v|[|[rid|]] v]; try done;
    intros _; simpl; rewrite <- list_fmap_compose;
    apply list_fmap_ext; intros _ r _; simpl; by destruct (id r =? rid).
Qed.

(** X22: editing the notes, the name, the MRN or the ward of a request
    changes no statistic: the daily overdue and pending counts, the
    current overdue count, the daily statistics and today's statistics
    are the same after the edit as before. *)
Theorem descriptive_update_keeps_statistics holidays op d :
  is_descriptive_update op →
  let rows := echo_requests d in
  let rows' := echo_requests (handle holidays op d).2 in
  sla_fields <$> rows' = sla_fields <$> rows
  ∧ (∀ now, get_daily_overdue now rows' = get_daily_overdue now rows)
  ∧ (∀ now, get_daily_max_pending now rows' = get_daily_max_pending now rows)
  ∧ (∀ now, get_overdue_count now rows' = get_overdue_count now rows)
  ∧ (∀ now_utc, get_daily_stats now_utc rows' = get_daily_stats now_utc rows)
  ∧ (∀ clk, get_today_stats clk rows' = get_today_stats clk rows).
Proof.
  intros Hop rows rows'.
  pose proof (descriptive_update_sla holidays op d Hop) as Hsla.
  split; [done|]. by apply statistics_via_sla.
Qed.

Lemma descriptive_update_keeps_statistics_witness :
  let t := DateTime (20098 * DAY + 9 * HOUR) None in
  let clk := {| local_now := t; utc_now := wall t |} in
  let data := Some (AddRequestJson (Some "RED PATHWAY"%string)
                      (Some (Some t)) None None None) in
  let d := (add_request ∅ clk data empty_db).2 in
  let d' := (handle ∅ (UpdateNotes (Some 1) (Some "seen"%string)) d).2 in
  get_overdue_count (DateTime (20120 * DAY) None) (echo_requests d')
  = get_overdue_count (DateTime (20120 * DAY) None) (echo_requests d).
Proof.
  intros t clk data d d'.
  destruct (descriptive_update_keeps_statistics ∅
              (UpdateNotes (Some 1) (Some "seen"%string)) d)
    as (_ & _ & _ & H & _); [exact I|].
  apply H.
Defined.

(** *** The statistics dictionaries *)

Lemma days_until_spec (n : nat) (s e x : Z) :
  e - s + 1 ≤ Z.of_nat n → x ∈ days_until n s e ↔ s ≤ x ≤ e.
Proof.
  revert s. induction n as [|n IH]; intros s Hn; cbn [days_until].
  - destruct (Z.leb_spec s e); [lia|]. rewrite elem_of_nil. lia.
  - destruct (Z.leb_spec s e).
    + rewrite elem_of_cons, IH by lia. lia.
    + rewrite elem_of_nil. lia.
Qed.

Lemma foldl_ext_pointwise {A B} (f g : A → B → A) (a : A) (l : list B) :
  (∀ a b, f a b = g a b) → foldl f a l = foldl g a l.
Proof.
  intros Hfg. revert a. induction l as [|b l IH]; intros a; [done|].
  simpl. by rewrite Hfg, IH.
Qed.

Lemma foldl_zero_counts_lookup (days : list Z) (st : gmap Z (gmap string nat))
    (d : Z) :
  foldl (λ stats date_str, <[date_str := zero_counts]> stats) st days !! d
  = if decide (d ∈ days) then Some zero_counts else st !! d.
Proof.
  revert st. induction days as [|x days IH]; intros st; cbn [foldl].
  - rewrite decide_False; [done|]. apply not_elem_of_nil.
  - rewrite IH. destruct (decide (d ∈ days)) as [H|H].
    + rewrite decide_True by (by right). done.
    + destruct (decide (d = x)) as [->|Hne].
      * rewrite decide_True by left. by rewrite lookup_insert_eq.
      * rewrite decide_False by (intros [?|?]%elem_of_cons; done).
        by rewrite lookup_insert_ne.
Qed.

(** What a loop of [set_count] leaves under one date: the entries of that
    date written, in order, into the dictionary that was there. *)
Lemma foldl_set_count_lookup {E} (dt : E → Z) (key : E → string)
    (cnt : E → nat) (rs : list E) (st : gmap Z (gmap string nat)) (d : Z) :
  foldl (λ stats e, set_count (dt e) (key e) (cnt e) stats) st rs !! d
  = (λ inner,
       foldl (λ inner e,
                if bool_decide (dt e = d) then <[key e := cnt e]> inner
                else inner) inner rs) <$> st !! d.
Proof.
  revert st. induction rs as [|e rs IH]; intros st; simpl.
  - by destruct (st !! d).
  - rewrite IH. unfold set_count. case_bool_decide as Hd.
    + rewrite Hd, lookup_alter_eq. by destruct (st !! d).
    + by rewrite lookup_alter_ne.
Qed.

Lemma fill_lookup_hit {E} (sel : E → bool) (key : E → string) (cnt : E → nat)
    (rs : list E) (inner : gmap string nat) (k : string) (c : nat) :
  (∃ e, e ∈ rs ∧ sel e = true ∧ key e = k) →
  (∀ e, e ∈ rs → sel e = true → key e = k → cnt e = c) →
  foldl (λ inner e, if sel e then <[key e := cnt e]> inner else inner)
    inner rs !! k = Some c.
Proof.
  induction rs as [|e rs IH] using rev_ind; intros (e' & Hin & Hs & Hk) Hc.
  - by apply elem_of_nil in Hin.
  - rewrite foldl_snoc.
    assert (Hrs : sel e = true ∧ key e = k ∨
                  ¬ (sel e = true ∧ key e = k)).
    { destruct (sel e); [|right; by intros [? _]].
      destruct (decide (key e = k)); [by left|right; by intros [_ ?]]. }
    destruct Hrs as [[Hse Hke]|Hno].
    + rewrite Hse, <- Hke, lookup_insert_eq. f_equal. apply Hc; [|done..].
      apply elem_of_app. right. by left.
    + assert (Hrest : foldl (λ inner e,
                 if sel e then <[key e := cnt e]> inner else inner)
                 inner rs !! k = Some c).
      { apply IH.
        - exists e'. split; [|done].
          apply elem_of_app in Hin as [Hin|Hin]; [done|].
          apply list_elem_of_singleton in Hin as ->. by destruct Hno.
        - intros e0 Hin0. apply Hc. apply elem_of_app. by left. }
      destruct (sel e) eqn:Hse; [|done].
      rewrite lookup_insert_ne; [done|]. intros Hke. by destruct Hno.
Qed.

Lemma fill_lookup_miss {E} (sel : E → bool) (key : E → string) (cnt : E → nat)
    (rs : list E) (inner : gmap string nat) (k : string) :
  (∀ e, e ∈ rs → sel e = true → key e ≠ k) →
  foldl (λ inner e, if sel e then <[key e := cnt e]> inner else inner)
    inner rs !! k = inner !! k.
Proof.
  revert inner. induction rs as [|e rs IH]; intros inner Hno; [done|].
  simpl. rewrite IH by (intros e0 Hin; apply Hno; by right).
  destruct (sel e) eqn:Hse; [|done].
  rewrite lookup_insert_ne; [done|]. apply Hno; [left|done].
Qed.

(** [GROUP BY]: the result rows. *)
Lemma elem_of_group_count `{EqDecision K} (keys : list K) (k : K) (c : nat) :
  (k, c) ∈ group_count keys ↔ k ∈ keys ∧ c = length (filter (k =.) keys).
Proof.
  unfold group_count. rewrite list_elem_of_fmap. split.
  - intros (k' & [= -> ->] & Hin). split; [|done].
    by apply (elem_of_remove_dups keys k').
  - intros [Hin ->]. exists k. split; [done|by apply elem_of_remove_dups].
Qed.

Lemma elem_of_occurrences `{EqDecision K} (keys : list K) (k : K) :
  k ∈ keys ↔ length (filter (k =.) keys) ≠ 0%nat.
Proof.
  split.
  - intros Hin Hlen. apply length_zero_iff_nil in Hlen.
    assert (Hk : k ∈ filter (k =.) keys) by (by apply list_elem_of_filter).
    rewrite Hlen in Hk. by apply elem_of_nil in Hk.
  - intros Hlen. destruct (filter (k =.) keys) as [|x l] eqn:Hf; [done|].
    assert (Hx : x ∈ filter (k =.) keys) by (rewrite Hf; left).
    apply list_elem_of_filter in Hx as [-> Hx]. done.
Qed.

(** Counting a key among the keys of the selected rows is counting the
    rows that are selected and have the key. *)
Lemma occurrences_omap {A} `{EqDecision K} (f : A → option K) (w : A → bool)
    (P : A → Prop) `{∀ r, Decision (P r)} (rows : list A) (k : K) :
  (∀ r, (w r = true ∧ f r = Some k) ↔ P r) →
  length (filter (k =.) (omap f (List.filter w rows)))
  = length (filter P rows).
Proof.
  intros HP. induction rows as [|r rows IH]; [done|].
  cbn [List.filter]. rewrite (filter_cons P).
  destruct (w r) eqn:Hw.
  - cbn [omap list_omap]. destruct (f r) as [k'|] eqn:Hf.
    + fold (omap f (List.filter w rows)). rewrite filter_cons.
      destruct (decide (k = k')) as [->|Hne].
      * rewrite decide_True by (by apply HP). simpl. by rewrite IH.
      * rewrite decide_False by (intros [_ ?]%HP; congruence). done.
    + fold (omap f (List.filter w rows)).
      rewrite decide_False by (intros [_ ?]%HP; congruence). done.
  - rewrite decide_False by (intros [? _]%HP; congruence). done.
Qed.

Lemma length_filter_bool {A} (w : A → bool) (P : A → Prop)
    `{∀ r, Decision (P r)} (rows : list A) :
  (∀ r, w r = true ↔ P r) →
  length (List.filter w rows) = length (filter P rows).
Proof.
  intros HP. induction rows as [|r rows IH]; [done|].
  cbn [List.filter]. rewrite filter_cons. destruct (w r) eqn:Hw.
  - rewrite decide_True by (by apply HP). simpl. by rewrite IH.
  - rewrite decide_False; [done|]. intros ?%HP. congruence.
Qed.

Lemma holds_sql_eq_Some (x y : Z) :
  Sql.holds (sql_eq (Some x) (Some y)) = true ↔ x = y.
Proof. simpl. destruct (Z.eqb_spec x y); split; (done || lia). Qed.

Lemma fmap_as_omap {A B} (f : A → B) (l : list A) :
  f <$> l = omap (λ x, Some (f x)) l.
Proof. induction l as [|x l IH]; [done|]. simpl. by f_equal. Qed.

Lemma occurrences_fmap {A} `{EqDecision K} (f : A → K) (w : A → bool)
    (P : A → Prop) `{∀ r, Decision (P r)} (rows : list A) (k : K) :
  (∀ r, (w r = true ∧ f r = k) ↔ P r) →
  length (filter (k =.) (f <$> List.filter w rows)) = length (filter P rows).
Proof.
  intros HP. rewrite fmap_as_omap. apply occurrences_omap.
  intros r. rewrite <- HP. split; intros [? ?]; split; congruence.
Qed.

(** One key of the dictionary a [for key, count in results] loop fills
    from a [GROUP BY] result. *)
Lemma fill_group_count {E} `{EqDecision K} (entry : K * nat → E)
    (sel : E → bool) (key : E → string) (cnt : E → nat)
    (keys : list K) (inner : gmap string nat) (k0 : K) (s : string) :
  (∀ k c, cnt (entry (k, c)) = c) →
  (∀ k c, sel (entry (k, c)) = true ∧ key (entry (k, c)) = s ↔ k = k0) →
  inner !! s = Some 0%nat →
  foldl (λ inner e, if sel e then <[key e := cnt e]> inner else inner)
    inner (entry <$> group_count keys) !! s
  = Some (length (filter (k0 =.) keys)).
Proof.
  intros Hcnt Hkey Hzero.
  destruct (decide (k0 ∈ keys)) as [Hin|Hin].
  - apply fill_lookup_hit.
    + exists (entry (k0, length (filter (k0 =.) keys))). split.
      * apply list_elem_of_fmap. eexists. split; [done|].
        by apply elem_of_group_count.
      * by apply Hkey.
    + intros e [[k c] [-> [_ ->]%elem_of_group_count]]%list_elem_of_fmap Hs Hk.
      rewrite Hcnt. assert (k = k0) as ->
        by (eapply (proj1 (Hkey _ _)); split; eassumption).
      done.
  - rewrite fill_lookup_miss.
    + rewrite Hzero. f_equal. symmetry.
      destruct (length (filter (k0 =.) keys)) eqn:Hlen; [done|].
      exfalso. apply Hin, elem_of_occurrences. by rewrite Hlen.
    + intros e [[k c] [-> [Hk _]%elem_of_group_count]]%list_elem_of_fmap Hs Hke.
      assert (k = k0) as ->
        by (eapply (proj1 (Hkey _ _)); split; eassumption).
      done.
Qed.

Lemma fill_other_key {E} (sel : E → bool) (key : E → string) (cnt : E → nat)
    (rs : list E) (inner : gmap string nat) (s : string) :
  (∀ e, key e ≠ s) →
  foldl (λ inner e, if sel e then <[key e := cnt e]> inner else inner)
    inner rs !! s = inner !! s.
Proof. intros Hne. apply fill_lookup_miss. intros e _ _. apply Hne. Qed.

Lemma pathway_text_inj (p q : Pathway) :
  pathway_text p = pathway_text q → p = q.
Proof. by destruct p, q. Qed.

Lemma pathway_text_not_performed (p : Pathway) :
  pathway_text p ≠ "PERFORMED"%string.
Proof. by destruct p. Qed.

Lemma zero_counts_pathway (p : Pathway) :
  zero_counts !! pathway_text p = Some 0%nat.
Proof. by destruct p. Qed.

Lemma get_daily_stats_lookup (now_utc : Z) (rows : list echo_request) (d : Z) :
  let end_date := date_of (get_uk_time now_utc) in
  let pathway_results :=
    group_count
      ((fun r => (triage_date r, pathway r))
         <$> List.filter
               (fun r => (end_date - 30 <=? triage_date r)
                         && (triage_date r <=? end_date)) rows) in
  let completed_results :=
    group_count
      (omap (fun r => sql_date (completion_time r))
         (List.filter
            (fun r => Sql.holds
               (Sql.and (Some (bool_decide (status r = completed)))
               (Sql.and (Sql.ge (sql_date (completion_time r))
                                (Some (end_date - 30)))
                        (Sql.le (sql_date (completion_time r))
                                (Some end_date)))))
            rows)) in
  get_daily_stats now_utc rows !! d
  = if decide (end_date - 30 ≤ d ≤ end_date) then
      Some (foldl (λ inner e, if bool_decide (e.1 = d)
                              then <["PERFORMED"%string := e.2]> inner
                              else inner)
              (foldl (λ inner e, if bool_decide (e.1.1 = d)
                                 then <[pathway_text e.1.2 := e.2]> inner
                                 else inner)
                 zero_counts pathway_results)
              completed_results)
    else None.
Proof.
  intros end_date pathway_results completed_results.
  unfold get_daily_stats. cbn zeta.
  fold end_date. fold pathway_results. fold completed_results.
  rewrite (foldl_ext_pointwise _
             (λ stats e, set_count e.1 "PERFORMED" e.2 stats))
    by (by intros ? [? ?]).
  rewrite (foldl_set_count_lookup fst (λ _, "PERFORMED"%string) snd).
  rewrite (foldl_ext_pointwise _
             (λ stats e, set_count e.1.1 (pathway_text e.1.2) e.2 stats))
    by (by intros ? [[? ?] ?]).
  rewrite (foldl_set_count_lookup (λ e, e.1.1) (λ e, pathway_text e.1.2) snd).
  rewrite foldl_zero_counts_lookup, lookup_empty.
  destruct (decide (end_date - 30 ≤ d ≤ end_date)) as [Hd|Hd].
  - rewrite decide_True; [done|]. apply days_until_spec; lia.
  - rewrite decide_False; [done|]. rewrite days_until_spec; lia.
Qed.

(** X23: the daily statistics have an entry for each of the 31 days that
    end today (UK date), and for no other day, whatever the table holds. *)
Theorem get_daily_stats_window (now_utc : Z) (rows : list echo_request)
    (d : Z) :
  let end_date := date_of (get_uk_time now_utc) in
  is_Some (get_daily_stats now_utc rows !! d)
  ↔ end_date - 30 ≤ d ≤ end_date.
Proof.
  intros end_date. rewrite get_daily_stats_lookup. fold end_date.
  destruct (decide _) as [Hd|Hd]; split; done || by intros [? ?].
Qed.

(** X24: for a day of the window, the entry of the daily statistics gives
    under each pathway the number of requests triaged on that day in that
    pathway, and under PERFORMED the number of completed requests whose
    completion time falls, read in UTC, on that day. *)
Theorem get_daily_stats_counts (now_utc : Z) (rows : list echo_request)
    (d : Z) (p : Pathway) :
  let end_date := date_of (get_uk_time now_utc) in
  end_date - 30 ≤ d ≤ end_date →
  ∃ counts,
    get_daily_stats now_utc rows !! d = Some counts
    ∧ counts !! pathway_text p
      = Some (length (filter (λ r, triage_date r = d ∧ pathway r = p) rows))
    ∧ counts !! "PERFORMED"%string
      = Some (length (filter (λ r, status r = completed
                                   ∧ sql_date (completion_time r) = Some d)
                        rows)).
Proof.
  intros end_date Hd. rewrite get_daily_stats_lookup. fold end_date.
  rewrite decide_True by done. eexists. split; [done|]. split.
  - rewrite (fill_other_key (λ e : Z * nat, bool_decide (e.1 = d))
               (λ _, "PERFORMED"%string) snd)
      by (intros _; apply not_eq_sym, pathway_text_not_performed).
    rewrite <- (list_fmap_id (group_count _)).
    rewrite (fill_group_count Datatypes.id (λ e : Z * Pathway * nat, bool_decide (e.1.1 = d))
               (λ e, pathway_text e.1.2) snd _ _ (d, p)).
    + f_equal. apply occurrences_fmap. intros r. split.
      * by intros [_ [= -> ->]].
      * intros [-> ->]. split; [|done].
        apply andb_true_iff. split; apply Z.leb_le; lia.
    + done.
    + intros [d' p'] c. simpl. rewrite bool_decide_eq_true. split.
      * intros [-> ->%pathway_text_inj]. done.
      * by intros [= -> ->].
    + apply zero_counts_pathway.
  - rewrite <- (list_fmap_id (group_count (omap _ _))).
    rewrite (fill_group_count Datatypes.id (λ e : Z * nat, bool_decide (e.1 = d))
               (λ _, "PERFORMED"%string) snd _ _ d).
    + f_equal. apply occurrences_omap. intros r. unfold sql_date.
      destruct (completion_time r) as [ct|];
        cbn [fmap option_fmap option_map].
      * unfold Sql.ge.
        rewrite !holds_and, holds_bool, !holds_le_Some, bool_decide_eq_true.
        split; [by intros [(? & _) ?]|].
        intros [? Heq]. injection Heq as Hx. rewrite Hx.
        split_and!; [done|lia..|done].
      * split; by intros [_ ?].
    + done.
    + intros d' c. simpl. rewrite bool_decide_eq_true. by split; [intros [? _]|].
    + rewrite fill_other_key
        by (intros e; apply pathway_text_not_performed).
      done.
Qed.

Lemma get_daily_stats_counts_witness :
  let now_utc := 20100 * DAY + 9 * HOUR in
  let r := {| id := 1; request_id := "25.0001"; pathway := RED;
              request_time := DateTime (20097 * DAY + 9 * HOUR) (Some 0);
              expected_time := Some (DateTime (20098 * DAY + 9 * HOUR) (Some 0));
              status := completed; triage_date := 20097;
              completion_time := Some (DateTime (20098 * DAY + 8 * HOUR) (Some 0));
              notes := ""; name := ""; mrn := ""; ward := "" |} in
  ∃ counts,
    get_daily_stats now_utc [r; r] !! 20097 = Some counts
    ∧ counts !! "RED PATHWAY"%string = Some 2%nat.
Proof.
  intros now_utc r.
  destruct (get_daily_stats_counts now_utc [r; r] 20097 RED)
    as (counts & Hlook & Hred & _); [vm_compute; split; discriminate|].
  exists counts. split; [exact Hlook|exact Hred].
Defined.

(** *** [get_today_stats] *)

Lemma get_today_stats_lookup (clk : clock) (rows : list echo_request)
    (s : string) (n : nat) :
  (∀ p, not_in_green_rejected p = true → pathway_text p ≠ s) →
  (<["PURPLE PATHWAY"%string := 0%nat]>
   (<["RED PATHWAY"%string := 0%nat]>
   (<["AMBER PATHWAY"%string := 0%nat]>
   (<["GREEN PATHWAY"%string :=
        length (List.filter
              (fun r => Sql.holds
                 (Sql.and
                    (Some (bool_decide (pathway r = GREEN ∨ pathway r = REJECTED)))
                    (sql_eq (sql_date (Some (request_time r)))
                       (Some (utc_now clk / DAY))))) rows)]>
   (<["PERFORMED"%string :=
        length (List.filter
              (fun r => Sql.holds
                 (Sql.and (sql_eq (sql_date (completion_time r))
                             (Some (utc_now clk / DAY)))
                          (Some (bool_decide (status r = completed))))) rows)]>
   (<["OVERDUE"%string :=
        length (List.filter
              (fun r => Sql.holds
                 (Sql.and (Some (bool_decide (status r = pending)))
                 (Sql.and (Some (not_in_green_rejected (pathway r)))
                          (Sql.lt (Sql.datetime (expected_time r))
                                  (Sql.datetime (Some (local_now clk)))))))
              rows)]> (∅ : gmap string nat))))))) !! s = Some n →
  get_today_stats clk rows !! s = Some n.
Proof.
  intros Hs Hn. unfold get_today_stats. cbn zeta.
  rewrite (foldl_ext_pointwise _
             (λ counts e, if (λ _ : Pathway * nat, true) e
                          then <[pathway_text e.1 := e.2]> counts else counts))
    by (by intros ? [? ?]).
  rewrite (fill_lookup_miss (λ _ : Pathway * nat, true)
             (λ e, pathway_text e.1) snd); [exact Hn|].
  intros [p c] [Hin _]%elem_of_group_count _. simpl. apply Hs.
  apply list_elem_of_fmap in Hin as (r & -> & Hr).
  apply list_elem_of_In, filter_In in Hr as [_ Hr].
  by apply andb_true_iff in Hr as [_ ?].
Qed.

(** X25: in today's statistics the figure of a timed pathway (purple, red
    or amber) is the number of pending requests of that pathway. *)
Theorem get_today_stats_pathway (clk : clock) (rows : list echo_request)
    (p : Pathway) :
  not_in_green_rejected p = true →
  get_today_stats clk rows !! pathway_text p
  = Some (length (filter (λ r, status r = pending ∧ pathway r = p) rows)).
Proof.
  intros Hp. unfold get_today_stats. cbn zeta.
  rewrite (foldl_ext_pointwise _
             (λ counts e, if (λ _ : Pathway * nat, true) e
                          then <[pathway_text e.1 := e.2]> counts else counts))
    by (by intros ? [? ?]).
  rewrite <- (list_fmap_id (group_count _)).
  rewrite (fill_group_count Datatypes.id (λ _ : Pathway * nat, true)
             (λ e, pathway_text e.1) snd _ _ p).
  - f_equal. apply occurrences_fmap. intros r.
    rewrite andb_true_iff, bool_decide_eq_true. split.
    + by intros [[? _] ?].
    + intros [? ->]. done.
  - done.
  - intros p' c. simpl. split.
    + by intros [_ ?%pathway_text_inj].
    + by intros ->.
  - by destruct p.
Qed.

Lemma get_today_stats_pathway_witness :
  let t := DateTime (20098 * DAY + 9 * HOUR) None in
  let clk := {| local_now := t; utc_now := wall t |} in
  let r := {| id := 1; request_id := "25.0001"; pathway := AMBER;
              request_time := DateTime (20097 * DAY + 9 * HOUR) (Some 0);
              expected_time := Some (DateTime (20100 * DAY + 9 * HOUR) (Some 0));
              status := pending; triage_date := 20097;
              completion_time := None;
              notes := ""; name := ""; mrn := ""; ward := "" |} in
  get_today_stats clk [r] !! "AMBER PATHWAY"%string = Some 1%nat.
Proof.
  intros t clk r.
  exact (get_today_stats_pathway clk [r] AMBER eq_refl).
Defined.

(** X26: today's statistics never show fewer overdue requests than the
    current overdue count: their OVERDUE figure counts the pending timed
    requests past their expected time, of which [get_overdue_count] keeps
    those whose request time is not in the future. Their GREEN PATHWAY
    figure is not a count of pending requests: no pending request adds to
    it unless it was created today (UTC) as GREEN or REJECTED. *)
Theorem get_today_stats_overdue (clk : clock) (rows : list echo_request) :
  ∃ overdue green,
    get_today_stats clk rows !! "OVERDUE"%string = Some overdue
    ∧ (get_overdue_count (local_now clk) rows ≤ overdue)%nat
    ∧ get_today_stats clk rows !! "GREEN PATHWAY"%string = Some green
    ∧ green
      = length (filter (λ r, (pathway r = GREEN ∨ pathway r = REJECTED)
                             ∧ utc_instant (request_time r) / DAY
                               = utc_now clk / DAY) rows).
Proof.
  eexists _, _. split_and!.
  - apply get_today_stats_lookup; [by intros []|]. reflexivity.
  - unfold get_overdue_count. apply filter_length_le. intros r _.
    unfold currently_overdue. rewrite !holds_and.
    intros (? & ? & ? & _). by split_and!.
  - apply get_today_stats_lookup; [by intros []|]. reflexivity.
  - apply length_filter_bool. intros r. unfold sql_date.
    cbn [fmap option_fmap option_map].
    by rewrite holds_and, holds_bool, holds_sql_eq_Some, bool_decide_eq_true.
Qed.

(** *** [remove_old_backups] *)

Lemma elem_of_List_filter {A} (f : A → bool) (l : list A) (x : A) :
  x ∈ List.filter f l ↔ x ∈ l ∧ f x = true.
Proof. by rewrite list_elem_of_In, List.filter_In, <- list_elem_of_In. Qed.

Lemma List_filter_sublist {A} (f : A → bool) (l : list A) :
  List.filter f l `sublist_of` l.
Proof.
  induction l as [|x l IH]; [done|]. cbn [List.filter].
  destruct (f x); by constructor.
Qed.

Lemma NoDup_fmap_elem_inj {A B} (f : A → B) (l : list A) (x y : A) :
  NoDup (f <$> l) → x ∈ l → y ∈ l → f x = f y → x = y.
Proof.
  intros Hnd [i Hi]%list_elem_of_lookup [j Hj]%list_elem_of_lookup Hxy.
  assert (i = j) as ->; [|congruence].
  eapply NoDup_lookup; [exact Hnd| |]; rewrite list_lookup_fmap.
  - by rewrite Hi.
  - rewrite Hj. simpl. by rewrite Hxy.
Qed.

Lemma insert_reverse_perm (x : Z * string) (l : list (Z * string)) :
  insert_reverse x l ≡ₚ x :: l.
Proof.
  induction l as [|y l IH]; [done|]. cbn [insert_reverse].
  destruct (y.1 <=? x.1); [done|]. rewrite IH. apply Permutation_swap.
Qed.

Lemma sort_reverse_perm (l : list (Z * string)) : sort_reverse l ≡ₚ l.
Proof.
  induction l as [|x l IH]; [done|]. unfold sort_reverse in *.
  cbn [foldr]. by rewrite insert_reverse_perm, IH.
Qed.

Lemma insert_reverse_sorted (x : Z * string) (l : list (Z * string)) :
  StronglySorted (λ a b, b.1 ≤ a.1) l →
  StronglySorted (λ a b, b.1 ≤ a.1) (insert_reverse x l).
Proof.
  induction 1 as [|y l Hs IH Hy]; cbn [insert_reverse].
  - by repeat constructor.
  - destruct (Z.leb_spec y.1 x.1) as [Hle|Hlt].
    + constructor; [by constructor|]. constructor; [done|].
      eapply Forall_impl; [exact Hy|]. intros z Hz. simpl in *. lia.
    + constructor; [done|]. rewrite insert_reverse_perm.
      constructor; [simpl; lia|done].
Qed.

Lemma sort_reverse_sorted (l : list (Z * string)) :
  StronglySorted (λ a b, b.1 ≤ a.1) (sort_reverse l).
Proof.
  induction l as [|x l IH]; [constructor|].
  by apply insert_reverse_sorted.
Qed.

Lemma slice_from_nonneg {A} (m : Z) (l : list A) :
  0 ≤ m → slice_from m l = drop (Z.to_nat m) l.
Proof.
  intros Hm. unfold slice_from. cbn zeta.
  destruct (Z.ltb_spec m 0); [lia|].
  destruct (Z.le_gt_cases m (Z.of_nat (length l))).
  - by rewrite Z.min_l.
  - rewrite Z.min_r by lia. rewrite !drop_ge; [done|lia..].
Qed.

Lemma all_backups_names (dir : list dir_entry) :
  NoDup (fname <$> dir) → NoDup (snd <$> all_backups dir).
Proof.
  intros Hnd. unfold all_backups. rewrite <- list_fmap_compose.
  eapply (sublist_NoDup _ _ Hnd), fmap_sublist, List_filter_sublist.
Qed.

(** The backups deleted and the backups kept, for a limit that is not
    negative: the sorted list cut after [max_backups] entries. *)
Lemma backups_split (max_backups : Z) (dir : list dir_entry) :
  0 ≤ max_backups → NoDup (fname <$> dir) →
  let sorted := sort_reverse (all_backups dir) in
  let kept := take (Z.to_nat max_backups) sorted in
  let deleted := drop (Z.to_nat max_backups) sorted in
  paths_to_delete max_backups dir = snd <$> deleted
  ∧ (∀ e, e ∈ dir → is_backup e = true →
       (e ∈ remove_old_backups max_backups dir
        ↔ (getmtime e, fname e) ∈ kept)
       ∧ (e ∉ remove_old_backups max_backups dir
          ↔ (getmtime e, fname e) ∈ deleted))
  ∧ (∀ a b, a ∈ kept → b ∈ deleted → b.1 ≤ a.1).
Proof.
  intros Hm Hnd sorted kept deleted.
  assert (Hpaths : paths_to_delete max_backups dir = snd <$> deleted).
  { unfold paths_to_delete. by rewrite slice_from_nonneg. }
  assert (Hsorted : sorted = kept ++ deleted)
    by (symmetry; apply take_drop).
  assert (Hnames : NoDup (snd <$> kept ++ deleted)).
  { rewrite <- Hsorted. unfold sorted. rewrite sort_reverse_perm.
    by apply all_backups_names. }
  rewrite fmap_app in Hnames.
  apply NoDup_app in Hnames as (_ & Hdisj & _).
  split; [done|]. split.
  - intros e Hin Hb.
    assert (He : (getmtime e, fname e) ∈ kept ++ deleted).
    { rewrite <- Hsorted. unfold sorted. rewrite sort_reverse_perm.
      unfold all_backups. apply list_elem_of_fmap. exists e.
      split; [done|]. by apply elem_of_List_filter. }
    assert (Hrem : e ∈ remove_old_backups max_backups dir
                   ↔ fname e ∉ snd <$> deleted).
    { unfold remove_old_backups. rewrite elem_of_List_filter, Hpaths.
      rewrite negb_true_iff, bool_decide_eq_false. naive_solver. }
    assert (Hk : (getmtime e, fname e) ∈ kept → fname e ∉ snd <$> deleted).
    { intros Hk. apply Hdisj. apply list_elem_of_fmap.
      by exists (getmtime e, fname e). }
    assert (Hd : (getmtime e, fname e) ∈ deleted → fname e ∈ snd <$> deleted).
    { intros Hd. apply list_elem_of_fmap. by exists (getmtime e, fname e). }
    apply elem_of_app in He. rewrite Hrem. split; [naive_solver|].
    split; [|naive_solver].
    intros Hno. destruct He as [He|He]; [|done].
    destruct Hno. by apply Hk.
  - intros a b Ha Hb.
    pose proof (sort_reverse_sorted (all_backups dir)) as Hs.
    fold sorted in Hs. rewrite Hsorted in Hs.
    by apply (StronglySorted_app_1_elem_of _ _ _ a b) in Hs.
Qed.

(** X28: with a limit that is not negative and a directory whose names are
    distinct, [remove_old_backups] deletes backups only (every entry that
    is not a backup file stays, and nothing is added), leaves the smaller of
    the limit and the number of backups, and every backup that stays is at
    least as new as every backup it deletes. *)
Theorem remove_old_backups_keeps_newest (max_backups : Z)
    (dir : list dir_entry) :
  0 ≤ max_backups → NoDup (fname <$> dir) →
  let after := remove_old_backups max_backups dir in
  after `sublist_of` dir
  ∧ (∀ e, e ∈ dir → is_backup e = false → e ∈ after)
  ∧ length (List.filter is_backup after)
    = (Z.to_nat max_backups `min` length (List.filter is_backup dir))%nat
  ∧ (∀ k e, k ∈ after → is_backup k = true → e ∈ dir → e ∉ after →
       getmtime e ≤ getmtime k).
Proof.
  intros Hm Hnd after.
  destruct (backups_split max_backups dir Hm Hnd) as (Hpaths & Hsplit & Hord).
  assert (Hsub : after `sublist_of` dir) by apply List_filter_sublist.
  assert (Hstay : ∀ e, e ∈ dir → is_backup e = false → e ∈ after).
  { intros e Hin Hb. unfold after, remove_old_backups.
    apply elem_of_List_filter. split; [done|].
    apply negb_true_iff, bool_decide_eq_false. intros Hdel.
    unfold paths_to_delete in Hdel.
    apply list_elem_of_fmap in Hdel as ([t n] & Hn & Hdel). simpl in Hn.
    unfold slice_from in Hdel. apply subseteq_drop in Hdel.
    rewrite sort_reverse_perm in Hdel. unfold all_backups in Hdel.
    apply list_elem_of_fmap in Hdel as (e' & [= -> ->] & He').
    apply elem_of_List_filter in He' as [He' Hb'].
    assert (e = e') as ->; [|congruence].
    by apply (NoDup_fmap_elem_inj fname dir). }
  split_and!; [done|done| |].
  - assert (Hlen : length (List.filter is_backup dir)
                   = length (sort_reverse (all_backups dir))).
    { rewrite sort_reverse_perm. unfold all_backups. by rewrite length_fmap. }
    rewrite <- (length_fmap (λ e, (getmtime e, fname e))).
    rewrite Hlen, <- length_take. apply Permutation_length, NoDup_Permutation.
    + apply (NoDup_fmap_1 snd). rewrite <- list_fmap_compose.
      eapply (sublist_NoDup _ _ Hnd), fmap_sublist.
      etrans; [apply List_filter_sublist|done].
    + eapply sublist_NoDup, sublist_take.
      apply (NoDup_fmap_1 snd). rewrite sort_reverse_perm.
      by apply all_backups_names.
    + intros [t n]. rewrite list_elem_of_fmap. split.
      * intros (e & [= -> ->] & [He Hb]%elem_of_List_filter).
        apply Hsplit; [|done..].
        by apply (elem_of_sublist _ _ _ He Hsub).
      * intros Hk.
        assert (Hin : (t, n) ∈ all_backups dir).
        { rewrite <- sort_reverse_perm.
          by apply subseteq_take in Hk. }
        apply list_elem_of_fmap in Hin as (e & [= -> ->] & He).
        apply elem_of_List_filter in He as [He Hb].
        exists e. split; [done|]. apply elem_of_List_filter.
        split; [|done]. by apply Hsplit.
  - intros k e Hk Hbk He Hgone.
    assert (Hbe : is_backup e = true).
    { destruct (is_backup e) eqn:Hbe; [done|].
      destruct Hgone. by apply Hstay. }
    apply (Hord (getmtime k, fname k) (getmtime e, fname e)).
    + apply Hsplit; [|done..]. by apply (elem_of_sublist _ _ _ Hk Hsub).
    + by apply Hsplit.
Qed.

Lemma remove_old_backups_keeps_newest_witness :
  let dir := [DirEntry "BACKUP-ECHO-IN-TRACK-2025-01-10-00-00" true 100;
              DirEntry "echo.db" true 5;
              DirEntry "BACKUP-ECHO-IN-TRACK-2025-01-12-00-00" true 300;
              DirEntry "BACKUP-ECHO-IN-TRACK-2025-01-11-00-00" true 200] in
  length (List.filter is_backup (remove_old_backups 2 dir)) = 2%nat.
Proof.
  intros dir.
  destruct (remove_old_backups_keeps_newest 2 dir) as (_ & _ & H & _);
    [lia|vm_compute; repeat constructor; set_solver|exact H].
Defined.

(** *** What [get_requests] shows *)

Lemma length_filter_fmap {A B} (P : B → Prop) `{∀ y, Decision (P y)}
    (f : A → B) (l : list A) :
  length (filter P (f <$> l)) = length (filter (λ x, P (f x)) l).
Proof.
  induction l as [|x l IH]; [done|].
  rewrite fmap_cons, !filter_cons.
  destruct (decide (P (f x))); simpl; by rewrite IH.
Qed.

(** X27: [get_requests] shows every stored request, each as often as it is
    stored and with its identifier, and never shows the pathway REJECTED:
    the rows it shows as GREEN are those stored as GREEN or as REJECTED. *)
Theorem get_requests_hides_rejected (now : datetime)
    (rows : list echo_request) :
  let out := get_requests now rows in
  out ≡ₚ displayed <$> rows
  ∧ request_id <$> out ≡ₚ request_id <$> rows
  ∧ (∀ r, r ∈ out → pathway r ≠ REJECTED)
  ∧ length (filter (λ r, pathway r = GREEN) out)
    = length (filter (λ r, pathway r = GREEN ∨ pathway r = REJECTED) rows).
Proof.
  intros out.
  assert (Hout : out ≡ₚ displayed <$> rows).
  { unfold out, get_requests, ordered_requests.
    by rewrite merge_sort_Permutation. }
  split_and!; [done| | |].
  - rewrite Hout, <- list_fmap_compose. done.
  - intros r. rewrite Hout, list_elem_of_fmap. intros (r0 & -> & _).
    simpl. case_bool_decide as Hp; [done|]. done.
  - rewrite Hout, length_filter_fmap. f_equal. apply list_filter_iff.
    intros r. simpl. case_bool_decide as Hp; [|naive_solver].
    rewrite Hp. naive_solver.
Qed.
